(** * Verification of the golden-file test harness [tests/run_tests.py]

    A shallow embedding of the verification engine of the LaTeX test
    runner: text normalisation, continuation-line merging, the ordered
    subsequence matcher, notebook normalisation, the failure counter,
    test resolution and the per-test pipeline of [run_latex_tests].

    Python values are modelled as follows.
    - [str] is a list of Unicode code points ([N]); whitespace and line
      boundaries are the sets CPython uses for [str.split], [str.strip]
      and [str.splitlines].
    - a raised exception is an explicit result ([None], or an [outcome]
      constructor in the orchestrator's monad).
    - JSON documents are a tree type; dictionaries are insertion-ordered
      association lists compared the way Python's [==] compares dicts. *)

From Stdlib Require Import Ascii String.
From Stdlib Require Import List NArith ZArith Bool Lia Permutation Relations.
From Stdlib Require Import Sorted.
Import ListNotations.

(* ================================================================== *)
(** ** Python strings *)

Module Py.

Abbreviation char := N.
Abbreviation str := (list N).

(** Code points of a literal. *)
Definition u (s : string) : str := map N_of_ascii (list_ascii_of_string s).

Definition char_eqb : char -> char -> bool := N.eqb.

Fixpoint str_eqb (a b : str) : bool :=
  match a, b with
  | [], [] => true
  | x :: a', y :: b' => char_eqb x y && str_eqb a' b'
  | _, _ => false
  end.

(** Truthiness of a sequence: non-empty. *)
Definition truthy {A} (l : list A) : bool :=
  match l with [] => false | _ :: _ => true end.

(** Line boundaries of [str.splitlines]. *)
Definition is_linebreak (c : char) : bool :=
  existsb (N.eqb c) [10; 11; 12; 13; 28; 29; 30; 133; 8232; 8233]%N.

(** Whitespace of [str.split()], [str.strip()] and [str.rstrip()]. *)
Definition is_space (c : char) : bool :=
  (((9 <=? c) && (c <=? 13)) || ((28 <=? c) && (c <=? 32))
   || (c =? 133) || (c =? 160) || (c =? 5760)
   || ((8192 <=? c) && (c <=? 8202))
   || (c =? 8232) || (c =? 8233) || (c =? 8239) || (c =? 8287)
   || (c =? 12288))%N.

Fixpoint lstrip (s : str) : str :=
  match s with
  | [] => []
  | c :: s' => if is_space c then lstrip s' else s
  end.

Fixpoint rstrip (s : str) : str :=
  match s with
  | [] => []
  | c :: s' =>
      match rstrip s' with
      | [] => if is_space c then [] else [c]
      | r => c :: r
      end
  end.

Definition strip (s : str) : str := lstrip (rstrip s).

(** [s.split()]: the maximal runs of non-whitespace characters. *)
Fixpoint split_from (word : str) (s : str) : list str :=
  match s with
  | [] => if truthy word then [word] else []
  | c :: s' =>
      if is_space c
      then (if truthy word then word :: split_from [] s' else split_from [] s')
      else split_from (word ++ [c]) s'
  end.

Definition split (s : str) : list str := split_from [] s.

(** [sep.join(parts)]. *)
Fixpoint join (sep : str) (parts : list str) : str :=
  match parts with
  | [] => []
  | [p] => p
  | p :: ps => p ++ sep ++ join sep ps
  end.

Definition cons_head (c : char) (ls : list str) : list str :=
  match ls with
  | [] => [[c]]
  | l :: ls' => (c :: l) :: ls'
  end.

(** [s.splitlines()]: a carriage return followed by a line feed is one
    boundary; a final boundary opens no further line. *)
Fixpoint splitlines (s : str) : list str :=
  match s with
  | [] => []
  | c :: s' =>
      if is_linebreak c then
        [] :: match s' with
              | d :: s'' => if ((c =? 13) && (d =? 10))%N then splitlines s''
                            else splitlines s'
              | [] => []
              end
      else cons_head c (splitlines s')
  end.

Fixpoint startswith (s prefix : str) : bool :=
  match prefix, s with
  | [], _ => true
  | p :: prefix', c :: s' => char_eqb p c && startswith s' prefix'
  | _ :: _, [] => false
  end.

Definition endswith (s suffix : str) : bool :=
  startswith (rev s) (rev suffix).

(** [needle in haystack] on strings: substring test. *)
Fixpoint contains (haystack needle : str) : bool :=
  startswith haystack needle
  || match haystack with
     | [] => false
     | _ :: h' => contains h' needle
     end.

(** [s[:-n]] for a positive literal [n]. *)
Definition drop_last (n : nat) (s : str) : str :=
  firstn (length s - n) s.

(** [s.replace(old, new)]: the occurrences of [old] are replaced from
    the left and do not overlap; [skip] counts the characters of an
    occurrence still to be dropped.  An empty [old] matches before every
    character and at the end. *)
Fixpoint replace_from (old new : str) (skip : nat) (s : str) : str :=
  match s with
  | [] => []
  | c :: s' =>
      match skip with
      | S k => replace_from old new k s'
      | O =>
          if startswith s old
          then new ++ replace_from old new (length old - 1) s'
          else c :: replace_from old new 0 s'
      end
  end.

Definition replace (s old new : str) : str :=
  match old with
  | [] => new ++ flat_map (fun c => c :: new) s
  | _ :: _ => replace_from old new 0 s
  end.

(** [s.split(sep)] for a one-character separator: every occurrence
    splits, empty pieces are kept. *)
Fixpoint split_on (sep : char) (s : str) : list str :=
  match s with
  | [] => [[]]
  | c :: s' =>
      if char_eqb c sep then [] :: split_on sep s'
      else cons_head c (split_on sep s')
  end.

(** Lexicographic order on code points, the order of [sorted] on [str]. *)
Fixpoint str_leb (a b : str) : bool :=
  match a, b with
  | [], _ => true
  | _ :: _, [] => false
  | x :: a', y :: b' => (x <? y)%N || ((x =? y)%N && str_leb a' b')
  end.

Fixpoint insert_sorted (x : str) (l : list str) : list str :=
  match l with
  | [] => [x]
  | y :: l' => if str_leb x y then x :: l else y :: insert_sorted x l'
  end.

Definition sorted (l : list str) : list str :=
  fold_right insert_sorted [] l.

End Py.
Import Py.

(* ================================================================== *)
(** ** Text helpers of the matcher *)

(** [normalize_text]: one entry per non-blank line, whitespace removed. *)
Definition normalize_text (text : str) : list str :=
  map (fun line => join [] (split line))
      (filter (fun line => truthy (strip line)) (splitlines text)).

(** [merge_lines_with_continuation]: the loop body as a step on
    [(merged_lines, buffer)], the final flush after the loop. *)
Definition merge_step (st : list str * str) (line : str) : list str * str :=
  let '(merged_lines, buffer) := st in
  let line := rstrip line in
  if endswith line (u "~") then (merged_lines, buffer ++ drop_last 1 line)
  else if truthy buffer then (merged_lines ++ [buffer ++ line], [])
  else (merged_lines ++ [line], buffer).

Definition merge_flush (st : list str * str) : list str :=
  let '(merged_lines, buffer) := st in
  if truthy buffer then merged_lines ++ [buffer] else merged_lines.

Definition merge_lines_with_continuation (lines : list str) : list str :=
  merge_flush (fold_left merge_step lines ([], [])).

(** [[normalize_text(line)[0] for line in lines if line.strip()]];
    [None] is the [IndexError] of the subscript. *)
Fixpoint normalized_heads (lines : list str) : option (list str) :=
  match lines with
  | [] => Some []
  | line :: rest =>
      if truthy (strip line) then
        match nth_error (normalize_text line) 0 with
        | None => None
        | Some h => option_map (cons h) (normalized_heads rest)
        end
      else normalized_heads rest
  end.

(** The scan of [check_ordered_subsequence_with_missing]: the cursor
    [expected_idx] after the loop over the actual lines. *)
Fixpoint scan (expected_lines : list str) (expected_idx : nat)
         (actual_lines : list str) : nat :=
  match actual_lines with
  | [] => expected_idx
  | line :: rest =>
      if length expected_lines <=? expected_idx then expected_idx
      else if contains line (nth expected_idx expected_lines [])
           then scan expected_lines (S expected_idx) rest
           else scan expected_lines expected_idx rest
  end.

Definition check_ordered_subsequence_with_missing
           (expected_lines actual_lines : list str) : option bool :=
  match normalized_heads expected_lines with
  | None => None
  | Some expected =>
      match normalized_heads actual_lines with
      | None => None
      | Some actual => Some (scan expected 0 actual =? length expected)
      end
  end.

(* ================================================================== *)
(** ** JSON documents and [normalize_notebook] *)

(** The values [json.load] builds.  Numbers are the integers (execution
    counters, format versions); a [dict] keeps its insertion order.  A
    document read from a file is a tree: no two places share an object,
    so the in-place updates of the source are functional updates here. *)
#[local] Set Warnings "-register-all".

Inductive json : Type :=
| JNull
| JBool (b : bool)
| JInt (z : Z)
| JStr (s : str)
| JList (l : list json)
| JDict (d : list (str * json)).

Definition dict := list (str * json).

(** [d.get(key)] / [d[key]] *)
Fixpoint dict_get (key : str) (d : dict) : option json :=
  match d with
  | [] => None
  | (k, v) :: d' => if str_eqb key k then Some v else dict_get key d'
  end.

(** [key in d] *)
Definition dict_mem (key : str) (d : dict) : bool :=
  match dict_get key d with Some _ => true | None => false end.

(** [d[key] = v]: an existing key keeps its position, a new key goes
    last. *)
Fixpoint dict_set (key : str) (v : json) (d : dict) : dict :=
  match d with
  | [] => [(key, v)]
  | (k, w) :: d' =>
      if str_eqb key k then (k, v) :: d' else (k, w) :: dict_set key v d'
  end.

(** Python's [==] on these values: [True == 1], lists pointwise, dicts
    as finite maps whatever the insertion order. *)
Fixpoint py_eqb (a b : json) {struct a} : bool :=
  match a, b with
  | JNull, JNull => true
  | JBool x, JBool y => Bool.eqb x y
  | JBool x, JInt y => (Z.b2z x =? y)%Z
  | JInt x, JBool y => (x =? Z.b2z y)%Z
  | JInt x, JInt y => (x =? y)%Z
  | JStr x, JStr y => str_eqb x y
  | JList la, JList lb =>
      (fix list_eqb (la lb : list json) {struct la} : bool :=
         match la, lb with
         | [], [] => true
         | x :: la', y :: lb' => py_eqb x y && list_eqb la' lb'
         | _, _ => false
         end) la lb
  | JDict da, JDict db =>
      (length da =? length db)
      && (fix all_in (da : dict) {struct da} : bool :=
            match da with
            | [] => true
            | (k, v) :: da' =>
                match dict_get k db with
                | Some w => py_eqb v w
                | None => false
                end && all_in da'
            end) da
  | _, _ => false
  end.

(** [key in obj] for a string [key]; [None] is the [TypeError] raised on
    numbers, booleans and [None]. *)
Definition py_in (key : str) (obj : json) : option bool :=
  match obj with
  | JDict d => Some (dict_mem key d)
  | JList l => Some (existsb (fun x => py_eqb (JStr key) x) l)
  | JStr s => Some (contains s key)
  | _ => None
  end.

(** [if key in obj: obj[key] = v].  Only a dict accepts the assignment. *)
Definition clear_field (key : str) (v : json) (obj : json) : option json :=
  match py_in key obj with
  | None => None
  | Some false => Some obj
  | Some true =>
      match obj with
      | JDict d => Some (JDict (dict_set key v d))
      | _ => None
      end
  end.

Fixpoint mapM {A B} (f : A -> option B) (l : list A) : option (list B) :=
  match l with
  | [] => Some []
  | x :: l' =>
      match f x with
      | None => None
      | Some y => option_map (cons y) (mapM f l')
      end
  end.

(** [for x in container: body(x)], where [body] updates [x] in place.
    Iterating a dict visits its keys and iterating a string its
    characters; those are immutable, so only an exception of the body is
    seen. *)
Definition for_in_place (body : json -> option json) (container : json)
  : option json :=
  match container with
  | JList l => option_map JList (mapM body l)
  | JDict d =>
      option_map (fun _ => container) (mapM (fun kv => body (JStr (fst kv))) d)
  | JStr s =>
      option_map (fun _ => container) (mapM (fun c => body (JStr [c])) s)
  | _ => None
  end.

(** The body of the loop over [cell["outputs"]]. *)
Definition normalize_output (output : json) : option json :=
  match clear_field (u "execution_count") JNull output with
  | None => None
  | Some output => clear_field (u "metadata") (JDict []) output
  end.

(** The body of the loop over the cells. *)
Definition normalize_cell (cell : json) : option json :=
  match clear_field (u "execution_count") JNull cell with
  | None => None
  | Some cell =>
      match clear_field (u "metadata") (JDict []) cell with
      | None => None
      | Some cell =>
          match py_in (u "outputs") cell with
          | None => None
          | Some false => Some cell
          | Some true =>
              match cell with
              | JDict d =>
                  match dict_get (u "outputs") d with
                  | None => None
                  | Some outputs =>
                      option_map
                        (fun outputs' => JDict (dict_set (u "outputs") outputs' d))
                        (for_in_place normalize_output outputs)
                  end
              | _ => None
              end
          end
      end
  end.

(** [normalize_notebook]; [None] is an exception ([TypeError],
    [AttributeError]) on a value that is not shaped like a notebook. *)
Definition normalize_notebook (nb : json) : option json :=
  match clear_field (u "metadata") (JDict []) nb with
  | None => None
  | Some nb =>
      match nb with
      | JDict d =>
          match dict_get (u "cells") d with
          | None => Some nb
          | Some cells =>
              option_map
                (fun cells' => JDict (dict_set (u "cells") cells' d))
                (for_in_place normalize_cell cells)
          end
      | _ => None
      end
  end.

(** [notebook_has_code_cells]: [any] stops at the first code cell. *)
Fixpoint any_code_cell (cells : list json) : option bool :=
  match cells with
  | [] => Some false
  | JDict d :: rest =>
      let cell_type :=
        match dict_get (u "cell_type") d with Some v => v | None => JNull end in
      if py_eqb cell_type (JStr (u "code")) then Some true
      else any_code_cell rest
  | _ :: _ => None
  end.

Definition iter_values (container : json) : option (list json) :=
  match container with
  | JList l => Some l
  | JDict d => Some (map (fun kv => JStr (fst kv)) d)
  | JStr s => Some (map (fun c => JStr [c]) s)
  | _ => None
  end.

Definition notebook_has_code_cells (nb : json) : option bool :=
  match nb with
  | JDict d =>
      match dict_get (u "cells") d with
      | None => Some false
      | Some cells =>
          match iter_values cells with
          | None => None
          | Some cs => any_code_cell cs
          end
      end
  | _ => None
  end.

(* ================================================================== *)
(** ** Paths *)

Definition os_sep : char := 47%N.

(** [os.path.join(a, b)] *)
Definition path_join (a b : str) : str :=
  if startswith b [os_sep] then b
  else if negb (truthy a) || endswith a [os_sep] then a ++ b
  else a ++ [os_sep] ++ b.

(** [posixpath.split]: the text up to and after the last separator. *)
Fixpoint path_split_raw (p : str) : str * str :=
  match p with
  | [] => ([], [])
  | c :: p' =>
      let '(head, tail) := path_split_raw p' in
      if truthy head || existsb (char_eqb os_sep) p' then (c :: head, tail)
      else if char_eqb c os_sep then ([c], tail)
      else ([], c :: tail)
  end.

Fixpoint rstrip_sep (s : str) : str :=
  match s with
  | [] => []
  | c :: s' =>
      match rstrip_sep s' with
      | [] => if char_eqb c os_sep then [] else [c]
      | r => c :: r
      end
  end.

(** [os.path.dirname]: the head without trailing separators, unless it
    consists of separators only. *)
Definition dirname (p : str) : str :=
  let head := fst (path_split_raw p) in
  if truthy head && negb (forallb (char_eqb os_sep) head)
  then rstrip_sep head else head.

(** [os.path.basename] *)
Definition basename (p : str) : str := snd (path_split_raw p).

(** [is_in_xsim_files_dir] *)
Definition is_in_xsim_files_dir (path : str) : bool :=
  existsb (fun part => startswith part (u "xsim-files")) (split_on os_sep path).

(* ================================================================== *)
(** ** The world of the test runner *)

(** The file system as the runner sees it: the text of each regular
    file and the entries of each directory, both by path. *)
Record World : Type := mkWorld {
  files : str -> option str;
  dirs : str -> option (list str)
}.

Definition upd {V} (f : str -> option V) (key : str) (v : option V)
  : str -> option V :=
  fun k => if str_eqb k key then v else f k.

Definition is_some {A} (o : option A) : bool :=
  match o with Some _ => true | None => false end.

Definition fs_isfile (w : World) (p : str) : bool := is_some (files w p).
Definition fs_isdir (w : World) (p : str) : bool := is_some (dirs w p).
Definition fs_exists (w : World) (p : str) : bool :=
  fs_isfile w p || fs_isdir w p.

Definition str_mem (x : str) (l : list str) : bool := existsb (str_eqb x) l.

(** Record [name] among the entries of [parent], when [parent] is a
    known directory. *)
Definition add_entry (parent name : str) (w : World) : World :=
  match dirs w parent with
  | Some entries =>
      if str_mem name entries then w
      else mkWorld (files w) (upd (dirs w) parent (Some (entries ++ [name])))
  | None => w
  end.

Definition fs_write (p content : str) (w : World) : World :=
  add_entry (dirname p) (basename p)
            (mkWorld (upd (files w) p (Some content)) (dirs w)).

Definition fs_remove (p : str) (w : World) : World :=
  mkWorld (upd (files w) p None) (dirs w).

Definition fs_mkdir (p : str) (w : World) : World :=
  add_entry (dirname p) (basename p)
            (mkWorld (files w) (upd (dirs w) p (Some []))).

(** Text mode reading: [\r\n] and [\r] arrive as [\n]. *)
Fixpoint universal_newlines (s : str) : str :=
  match s with
  | [] => []
  | c :: s' =>
      if (c =? 13)%N then
        10%N :: match s' with
                | d :: s'' => if (d =? 10)%N then universal_newlines s''
                              else universal_newlines s'
                | [] => []
                end
      else c :: universal_newlines s'
  end.

(** [for line in f]: the lines of a text with their line feed. *)
Fixpoint readlines (s : str) : list str :=
  match s with
  | [] => []
  | c :: s' =>
      if (c =? 10)%N then [c] :: readlines s'
      else cons_head c (readlines s')
  end.

(** The exceptions the runner can end with. *)
Inductive exn : Type :=
| OSError (path : str)
| UnicodeDecodeError
| IndexError
| JSONDecodeError
| TypeError.

(** What the runner takes from its environment: the subprocesses
    ([subprocess.run] behind [run_command]), [glob.glob] with
    [recursive=True], [json.load], [int], the name of the temporary
    file, and whether colour is used ([use_color] reads the terminal and
    the environment).  A subprocess either gives its status and its
    decoded output or raises: [subprocess.run] raises an [OSError] when
    the process cannot be started (a program that is not installed, or
    a working directory that does not exist, such as the empty
    [dirname] of a test given by its bare file name), and [decode]
    raises on output that is not UTF-8.  The runner's own walk over the
    notebook directory, [remove_hidden_files_and_directories], is kept
    abstract as well: it runs after the last comparison of a test and
    nothing below depends on what it deletes. *)
Record Externals : Type := mkExternals {
  run_command : list str -> str -> World -> (exn + Z * str * str) * World;
  glob : str -> World -> list str;
  json_loads : str -> option json;
  int_of_str : str -> option Z;
  tmpf_name : str;
  USE_COLOR : bool;
  remove_hidden_files_and_directories : str -> World -> World
}.

(* ================================================================== *)
(** ** Output, failure counter and the runner's monad *)

Inductive verdict : Type := PASS | FAIL | XFAIL | REGOLDED.

Inductive notebook_failure : Type :=
| NoExpectedNotebook (expected_path : str)
| NotebookDiffers (generated_path diff : str).

(** What follows the verdict on its line. *)
Inductive reason : Type :=
| RequirementCompileError (require : str * str)
| ExpectedFailureSucceeded
| ErrorLinesNotFound
| NoExpectedError (path : str)
| CompileError
| PdfNotGenerated
| PdftotextFailed
| UnprocessedPythonTeX
| OutputDiffers
| NoExpectedOutput (path : str)
| NotebookComparison (failures : list notebook_failure)
| NotebookMismatch (missing spurious : list str)
| PytestFailed.

Inductive hint : Type :=
| OnlyRelevantLines
| SearchLog (log : str)
| CopiedForReview
| GitAdd (path : str).

(** One [print] of the runner; the message text is kept as its
    verdict, its reason and the values it interpolates. *)
Inductive printed : Type :=
| Running (path : str)
| Verdict (v : verdict) (r : option reason)
| Log (text : str)
| Hint (h : hint)
| MaxfailReached (maxfail : Z)
| Summary (v : verdict) (failures : option Z)
| InvalidMaxfail (arg : str)
| NotFoundOrUnsupported (path : str).

(** How a statement ends: normally with a value, by [continue] or
    [break], by [sys.exit], or by an uncaught exception. *)
Inductive outcome (A : Type) : Type :=
| Return (a : A)
| Continue
| Break
| SysExit (code : Z)
| Raised (e : exn).
Arguments Return {A} a.
Arguments Continue {A}.
Arguments Break {A}.
Arguments SysExit {A} code.
Arguments Raised {A} e.

Record FailureCounter : Type := mkFailureCounter {
  count : Z;
  maxfail : Z
}.

(** [FailureCounter.__init__] *)
Definition FailureCounter_init (maxfail : Z) : FailureCounter :=
  mkFailureCounter 0 maxfail.

(** The state the runner threads: the file system, what was printed,
    the subprocess calls made so far, and the counter object. *)
Record state : Type := mkState {
  world : World;
  stdout : list printed;
  calls : list (list str * str);
  failure_counter : FailureCounter
}.

Definition M (A : Type) : Type := state -> outcome A * state.

Definition ret {A} (a : A) : M A := fun s => (Return a, s).

Definition bind {A B} (m : M A) (k : A -> M B) : M B :=
  fun s =>
    match m s with
    | (Return a, s') => k a s'
    | (Continue, s') => (Continue, s')
    | (Break, s') => (Break, s')
    | (SysExit c, s') => (SysExit c, s')
    | (Raised e, s') => (Raised e, s')
    end.

Declare Scope py_scope.
Delimit Scope py_scope with py.
Notation "x <- c1 ;; c2" := (bind c1 (fun x => c2))
  (at level 61, c1 at next level, right associativity) : py_scope.
Notation "' pat <- c1 ;; c2" := (bind c1 (fun x => match x with pat => c2 end))
  (at level 61, pat pattern, c1 at next level, right associativity) : py_scope.
Notation "c1 ;; c2" := (bind c1 (fun _ => c2))
  (at level 61, right associativity) : py_scope.
Open Scope py_scope.

Definition continue_ {A} : M A := fun s => (Continue, s).
Definition raise {A} (e : exn) : M A := fun s => (Raised e, s).
Definition sys_exit {A} (code : Z) : M A := fun s => (SysExit code, s).

Definition print (p : printed) : M unit :=
  fun s => (Return tt,
            mkState (world s) (stdout s ++ [p]) (calls s) (failure_counter s)).

Definition get_world : M World := fun s => (Return (world s), s).

Definition modify_world (f : World -> World) : M unit :=
  fun s => (Return tt,
            mkState (f (world s)) (stdout s) (calls s) (failure_counter s)).

Definition set_counter (fc : FailureCounter) : M unit :=
  fun s => (Return tt, mkState (world s) (stdout s) (calls s) fc).

(** [FailureCounter.__iadd__] on the runner's counter object. *)
Definition FailureCounter_iadd (n : Z) : M FailureCounter :=
  fun s =>
    let self := failure_counter s in
    let self := mkFailureCounter (count self + n) (maxfail self) in
    let s := mkState (world s) (stdout s) (calls s) self in
    if (count self >=? maxfail self)%Z then
      (print (MaxfailReached (maxfail self)) ;; sys_exit 1) s
    else (Return self, s).

(** [for x in xs: body(x)] *)
Fixpoint for_each {X} (xs : list X) (body : X -> M unit) : M unit :=
  match xs with
  | [] => ret tt
  | x :: xs' =>
      fun s =>
        match body x s with
        | (Return _, s') => for_each xs' body s'
        | (Continue, s') => for_each xs' body s'
        | (Break, s') => (Return tt, s')
        | (SysExit c, s') => (SysExit c, s')
        | (Raised e, s') => (Raised e, s')
        end
  end.

(** A loop whose body updates a local variable and has neither
    [continue] nor [break]. *)
Fixpoint for_fold {X Acc} (xs : list X) (body : Acc -> X -> M Acc) (acc : Acc)
  : M Acc :=
  match xs with
  | [] => ret acc
  | x :: xs' => acc' <- body acc x ;; for_fold xs' body acc'
  end.

(* ================================================================== *)
(** ** [run_latex_tests] *)

Section Runner.

Variable ext : Externals.

Definition LATEXMK_CMD : list str := [u "latexmk"; u "-interaction=nonstopmode"].
Definition PDFTOTEXT_CMD : list str := [u "pdftotext"; u "-layout"].
Definition CLEAN_CMD : list str := [u "latexmk"; u "-C"].
Definition DIFF_CMD : list str :=
  [u "diff"; u "-u"; u "-w";
   if USE_COLOR ext then u "--color=always" else u "--color=never"].
Definition NBDIFF_CMD : list str :=
  [u "nbdiff"; if USE_COLOR ext then u "--color-words" else u "--no-color";
   u "--ignore-outputs"; u "--ignore-metadata"; u "--ignore-id"].

(** [run_command(command, cwd)]: the call is recorded, and an exception
    of the subprocess is not caught. *)
Definition run (command : list str) (cwd : str) : M (Z * str * str) :=
  fun s =>
    let '(r, w) := run_command ext command cwd (world s) in
    let s' := mkState w (stdout s) (calls s ++ [(command, cwd)])
                      (failure_counter s) in
    match r with
    | inr result => (Return result, s')
    | inl e => (Raised e, s')
    end.

Definition path_exists (p : str) : M bool :=
  w <- get_world ;; ret (fs_exists w p).

Definition path_isdir (p : str) : M bool :=
  w <- get_world ;; ret (fs_isdir w p).

Definition listdir (p : str) : M (list str) :=
  w <- get_world ;;
  match dirs w p with
  | Some entries => ret entries
  | None => raise (OSError p)
  end.

(** [open(p, "r", encoding="utf-8")] followed by reading the text. *)
Definition open_read (p : str) : M str :=
  w <- get_world ;;
  match files w p with
  | Some content => ret (universal_newlines content)
  | None => raise (OSError p)
  end.

(** [shutil.copy(src, dst)] *)
Definition copy (src dst : str) : M unit :=
  w <- get_world ;;
  match files w src with
  | Some content =>
      let dst := if fs_isdir w dst then path_join dst (basename src) else dst in
      modify_world (fs_write dst content)
  | None => raise (OSError src)
  end.

(** [os.makedirs(p, exist_ok=True)] *)
Definition makedirs (p : str) : M unit :=
  w <- get_world ;;
  if fs_isdir w p then ret tt
  else if fs_isfile w p then raise (OSError p)
  else modify_world (fs_mkdir p).

(** [with tempfile.NamedTemporaryFile("w") as tmpf: tmpf.write(content);
    tmpf.flush(); body]: the file is gone when the block is left, however
    it is left. *)
Definition with_tempfile {A} (content : str) (body : str -> M A) : M A :=
  fun s =>
    let name := tmpf_name ext in
    let '(o, s') :=
      (modify_world (fs_write name content) ;; body name) s in
    (o, mkState (fs_remove name (world s')) (stdout s') (calls s')
                (failure_counter s')).

(** [failure_counter += 1] *)
Definition count_failure : M unit := FailureCounter_iadd 1 ;; ret tt.

(** The lines of the [.requires] file as (directory, file name). *)
Definition parse_requires (test_dir content : str) : list (str * str) :=
  flat_map
    (fun line =>
       let require_tex_relative := strip line in
       if negb (truthy require_tex_relative) then []
       else
         let d := dirname require_tex_relative in
         let d := if truthy d then path_join test_dir d else test_dir in
         [(d, basename require_tex_relative)])
    (readlines content).

Definition read_requires (test_dir base : str) : M (list (str * str)) :=
  let p := path_join test_dir (base ++ u ".requires") in
  ex <- path_exists p ;;
  if ex then content <- open_read p ;; ret (parse_requires test_dir content)
  else ret [].

(** "Compile with latexmk any required file" *)
Definition compile_requires (requires : list (str * str)) : M unit :=
  for_each requires
    (fun require =>
       '(ret_code, out, err) <-
         run (LATEXMK_CMD ++ [snd require]) (fst require) ;;
       if negb (ret_code =? 0)%Z then
         print (Verdict FAIL (Some (RequirementCompileError require))) ;;
         print (Log (out ++ err)) ;;
         count_failure ;;
         continue_
       else ret tt).

(** "Clean up" *)
Definition clean_up (test_dir tex_file : str) (requires : list (str * str))
  : M unit :=
  run (CLEAN_CMD ++ [tex_file]) test_dir ;;
  for_each requires
    (fun require => run (CLEAN_CMD ++ [snd require]) (fst require) ;; ret tt).

Definition verdict_of (regold : bool) : verdict :=
  if negb regold then FAIL else REGOLDED.

(** The branch of an expected-failure test, after the main compile. *)
Definition verify_failure_log (test_dir base : str) (ret_code : Z)
           (out err : str) : M unit :=
  (if (ret_code =? 0)%Z then
     print (Verdict FAIL (Some ExpectedFailureSucceeded)) ;;
     count_failure ;;
     continue_
   else ret tt) ;;
  let expected_err_txt := path_join (u "expected") (base ++ u ".err.txt") in
  ex <- path_exists (path_join test_dir expected_err_txt) ;;
  if ex then
    content <- open_read (path_join test_dir expected_err_txt) ;;
    let expected_lines :=
      map strip (filter (fun line => truthy (strip line)) (readlines content)) in
    let actual_lines := splitlines out ++ splitlines err in
    let actual_lines := merge_lines_with_continuation actual_lines in
    match check_ordered_subsequence_with_missing expected_lines actual_lines with
    | None => raise IndexError
    | Some true => print (Verdict XFAIL None)
    | Some false =>
        with_tempfile (join [10%N] actual_lines)
          (fun tmpf =>
             print (Verdict FAIL (Some ErrorLinesNotFound)) ;;
             '(_, out, err) <-
               run (DIFF_CMD ++ [expected_err_txt; tmpf]
                    ++ [u "-L"; path_join test_dir expected_err_txt;
                        u "-L"; u "full log"]) test_dir ;;
             print (Log (out ++ err)) ;;
             print (Hint OnlyRelevantLines) ;;
             count_failure ;;
             continue_)
    end
  else
    print (Verdict FAIL
             (Some (NoExpectedError (path_join test_dir expected_err_txt)))) ;;
    print (Hint (SearchLog (path_join test_dir (base ++ u ".log")))) ;;
    count_failure ;;
    continue_.

Fixpoint list_str_eqb (a b : list str) : bool :=
  match a, b with
  | [], [] => true
  | x :: a', y :: b' => str_eqb x y && list_str_eqb a' b'
  | _, _ => false
  end.

(** A normal test from the compile status to the text comparison. *)
Definition verify_text (regold : bool) (test_dir base : str) (ret_code : Z)
           (out err : str) : M unit :=
  let pdf_file := base ++ u ".pdf" in
  let out_txt := base ++ u ".pdf.txt" in
  (if negb (ret_code =? 0)%Z then
     print (Verdict FAIL (Some CompileError)) ;;
     print (Log (out ++ err)) ;;
     count_failure ;;
     continue_
   else ret tt) ;;
  ex <- path_exists (path_join test_dir pdf_file) ;;
  (if negb ex then
     print (Verdict FAIL (Some PdfNotGenerated)) ;;
     count_failure ;;
     continue_
   else ret tt) ;;
  '(ret_code, out, err) <- run (PDFTOTEXT_CMD ++ [pdf_file; out_txt]) test_dir ;;
  (if negb (ret_code =? 0)%Z then
     print (Verdict FAIL (Some PdftotextFailed)) ;;
     print (Log (out ++ err)) ;;
     count_failure ;;
     continue_
   else ret tt) ;;
  content <- open_read (path_join test_dir out_txt) ;;
  (if contains content (u "?? PythonTeX ??") then
     print (Verdict FAIL (Some UnprocessedPythonTeX)) ;;
     count_failure ;;
     continue_
   else ret tt) ;;
  let expected_txt := path_join (u "expected") (base ++ u ".pdf.txt") in
  ex <- path_exists (path_join test_dir expected_txt) ;;
  if ex then
    exp_text <- open_read (path_join test_dir expected_txt) ;;
    out_text <- open_read (path_join test_dir out_txt) ;;
    let actual := normalize_text (strip out_text) in
    let expected := normalize_text (strip exp_text) in
    if negb (list_str_eqb actual expected) then
      '(_, out, err) <-
        run (DIFF_CMD ++ [expected_txt; out_txt]
             ++ [u "-L"; path_join test_dir expected_txt;
                 u "-L"; path_join test_dir out_txt]) test_dir ;;
      print (Verdict (verdict_of regold) (Some OutputDiffers)) ;;
      (if negb regold then print (Log (out ++ err))
       else copy (path_join test_dir out_txt) (path_join test_dir expected_txt)) ;;
      count_failure ;;
      continue_
    else ret tt
  else
    print (Verdict (verdict_of regold)
             (Some (NoExpectedOutput (path_join test_dir expected_txt)))) ;;
    print (Hint CopiedForReview) ;;
    print (Hint (GitAdd (path_join test_dir expected_txt))) ;;
    copy (path_join test_dir out_txt) (path_join test_dir expected_txt) ;;
    count_failure ;;
    continue_.

Definition load_normalized (p : str) : M json :=
  content <- open_read p ;;
  match json_loads ext content with
  | None => raise JSONDecodeError
  | Some nb =>
      match normalize_notebook nb with
      | None => raise TypeError
      | Some nb' => ret nb'
      end
  end.

(** The loop that compares each generated notebook with its expected
    counterpart; the local list [failed_ipynbs] is the accumulator. *)
Definition compare_notebooks (regold : bool) (test_dir ipynb_dir : str)
           (pairs : list (str * str)) : M (list notebook_failure) :=
  for_fold pairs
    (fun failed_ipynbs pair =>
       let generated_ipynb := path_join ipynb_dir (fst pair) in
       let expected_ipynb := path_join (u "expected") (snd pair) in
       ex <- path_exists (path_join test_dir expected_ipynb) ;;
       failed_ipynbs <-
         (if negb ex then
            copy (path_join test_dir generated_ipynb)
                 (path_join test_dir expected_ipynb) ;;
            ret (failed_ipynbs
                 ++ [NoExpectedNotebook (path_join test_dir expected_ipynb)])
          else ret failed_ipynbs) ;;
       exp_nb <- load_normalized (path_join test_dir expected_ipynb) ;;
       gen_nb <- load_normalized (path_join test_dir generated_ipynb) ;;
       if negb (py_eqb exp_nb gen_nb) then
         '(_, out, err) <-
           run (NBDIFF_CMD ++ [expected_ipynb; generated_ipynb]) test_dir ;;
         let out :=
           replace out (u "--- " ++ expected_ipynb)
                   (u "--- " ++ path_join test_dir expected_ipynb) in
         let out :=
           replace out (u "+++ " ++ generated_ipynb)
                   (u "+++ " ++ path_join test_dir generated_ipynb) in
         (if regold then
            copy (path_join test_dir generated_ipynb)
                 (path_join test_dir expected_ipynb)
          else ret tt) ;;
         ret (failed_ipynbs
              ++ [NotebookDiffers (path_join test_dir generated_ipynb)
                                  (out ++ err)])
       else ret failed_ipynbs)
    [].

(** The loop that sets [run_nbval] and breaks at the first notebook
    with a code cell. *)
Fixpoint any_has_code_cells (test_dir ipynb_dir : str) (generated : list str)
  : M bool :=
  match generated with
  | [] => ret false
  | g :: rest =>
      content <- open_read (path_join test_dir (path_join ipynb_dir g)) ;;
      match json_loads ext content with
      | None => raise JSONDecodeError
      | Some nb =>
          match notebook_has_code_cells nb with
          | None => raise TypeError
          | Some true => ret true
          | Some false => any_has_code_cells test_dir ipynb_dir rest
          end
      end
  end.

(** "Compare with expected notebooks" *)
Definition verify_records (regold : bool) (test_dir base : str) : M unit :=
  let ipynb_dir := u "notebooks-" ++ base in
  isd <- path_isdir (path_join test_dir ipynb_dir) ;;
  if isd then
    entries <- listdir (path_join test_dir ipynb_dir) ;;
    let generated_ipynbs := filter (fun f => endswith f (u ".ipynb")) entries in
    let expected_ipynbs := map (fun g => base ++ u "." ++ g) generated_ipynbs in
    failed_ipynbs <-
      compare_notebooks regold test_dir ipynb_dir
                        (combine generated_ipynbs expected_ipynbs) ;;
    (if (0 <? length failed_ipynbs) then
       (if negb regold
        then print (Verdict FAIL (Some (NotebookComparison failed_ipynbs)))
        else (* the regold line lists no reasons *)
          print (Verdict REGOLDED (Some (NotebookComparison [])))) ;;
       count_failure ;;
       continue_
     else ret tt) ;;
    current <- listdir (path_join test_dir (u "expected")) ;;
    let current_expected_ipynbs :=
      filter (fun f => startswith f (base ++ u ".") && endswith f (u ".ipynb"))
             current in
    let missing_expected_ipynbs :=
      filter (fun f => negb (str_mem f current_expected_ipynbs))
             expected_ipynbs in
    let spurious_expected_ipynbs :=
      filter (fun f => negb (str_mem f expected_ipynbs))
             current_expected_ipynbs in
    (if truthy missing_expected_ipynbs || truthy spurious_expected_ipynbs then
       print (Verdict FAIL
                (Some (NotebookMismatch missing_expected_ipynbs
                                        spurious_expected_ipynbs))) ;;
       count_failure ;;
       continue_
     else ret tt) ;;
    run_nbval <- any_has_code_cells test_dir ipynb_dir generated_ipynbs ;;
    (if run_nbval then
       '(ret_code, out, err) <-
         run [u "pytest"; u "--nbval"] (path_join test_dir ipynb_dir) ;;
       if negb (ret_code =? 0)%Z then
         print (Verdict FAIL (Some PytestFailed)) ;;
         print (Log (out ++ err)) ;;
         count_failure ;;
         continue_
       else ret tt
     else ret tt) ;;
    modify_world
      (remove_hidden_files_and_directories ext (path_join test_dir ipynb_dir))
  else ret tt.

(** The body of the loop over [tex_tests]. *)
Definition run_latex_test (regold : bool) (tex_file : str) : M unit :=
  let test_dir := dirname tex_file in
  makedirs (path_join test_dir (u "expected")) ;;
  let tex_file := basename tex_file in
  let base := drop_last 4 tex_file in
  let is_fail_test := endswith base (u "FAIL") in
  print (Running (path_join test_dir tex_file)) ;;
  requires <- read_requires test_dir base ;;
  clean_up test_dir tex_file requires ;;
  compile_requires requires ;;
  '(ret_code, out, err) <- run (LATEXMK_CMD ++ [tex_file]) test_dir ;;
  (if is_fail_test then verify_failure_log test_dir base ret_code out err
   else
     verify_text regold test_dir base ret_code out err ;;
     verify_records regold test_dir base ;;
     print (Verdict PASS None)) ;;
  clean_up test_dir tex_file requires.

Definition run_latex_tests (tex_tests : list str) (maxfail : Z) (regold : bool)
  : M unit :=
  set_counter (FailureCounter_init maxfail) ;;
  for_each tex_tests (run_latex_test regold) ;;
  fun s =>
    let failures := count (failure_counter s) in
    if (failures >? 0)%Z
    then (print (Summary FAIL (Some failures)) ;; sys_exit 1) s
    else print (Summary PASS None) s.

(** "Determine which tests to run" in [main]. *)
Definition discover (pattern : str) : M (list str) :=
  w <- get_world ;;
  let found_files := sorted (glob ext pattern w) in
  ret (filter (fun f => negb (is_in_xsim_files_dir f)) found_files).

Definition determine_tests (args : list str) : M (list str) :=
  if truthy args then
    for_fold args
      (fun tex_tests path =>
         w <- get_world ;;
         if fs_isfile w path && endswith path (u ".tex") then
           ret (tex_tests ++ [path])
         else if fs_isdir w path then
           filtered_files <-
             discover (path_join (path_join path (u "**")) (u "test_*.tex")) ;;
           ret (tex_tests ++ filtered_files)
         else
           print (NotFoundOrUnsupported path) ;; sys_exit 1)
      []
  else discover (u "**/test_*.tex").

(** "Determine if maxfail or regold were provided" *)
Definition parse_flags (args : list str) : M (Z * bool * list str) :=
  for_fold args
    (fun '(maxfail, regold, new_args) arg =>
       if startswith arg (u "--maxfail=") then
         match int_of_str ext (nth 1 (split_on 61%N arg) []) with
         | Some n => ret (n, regold, new_args)
         | None => print (InvalidMaxfail arg) ;; sys_exit 1
         end
       else if str_eqb arg (u "--regold") then ret (maxfail, true, new_args)
       else ret (maxfail, regold, new_args ++ [arg]))
    (9223372036854775807%Z, false, []).

Definition main (argv : list str) : M unit :=
  '(maxfail, regold, args) <- parse_flags (tl argv) ;;
  tex_tests <- determine_tests args ;;
  if truthy tex_tests then run_latex_tests tex_tests maxfail regold
  else ret tt.

End Runner.

(* ================================================================== *)
(** ** The other methods of [FailureCounter] *)

(** The argument of a comparison: an integer or another counter. *)
Inductive operand : Type :=
| OfInt (n : Z)
| OfCounter (other : FailureCounter).

(** [__eq__], [__lt__], [__le__], [__gt__], [__ge__]: each tests
    [isinstance(other, FailureCounter)] and compares the counts. *)
Definition FailureCounter_eq (self : FailureCounter) (other : operand) : bool :=
  match other with
  | OfCounter other => (count self =? count other)%Z
  | OfInt other => (count self =? other)%Z
  end.

Definition FailureCounter_lt (self : FailureCounter) (other : operand) : bool :=
  match other with
  | OfCounter other => (count self <? count other)%Z
  | OfInt other => (count self <? other)%Z
  end.

Definition FailureCounter_le (self : FailureCounter) (other : operand) : bool :=
  match other with
  | OfCounter other => (count self <=? count other)%Z
  | OfInt other => (count self <=? other)%Z
  end.

Definition FailureCounter_gt (self : FailureCounter) (other : operand) : bool :=
  match other with
  | OfCounter other => (count self >? count other)%Z
  | OfInt other => (count self >? other)%Z
  end.

Definition FailureCounter_ge (self : FailureCounter) (other : operand) : bool :=
  match other with
  | OfCounter other => (count self >=? count other)%Z
  | OfInt other => (count self >=? other)%Z
  end.

(** [__int__] *)
Definition FailureCounter_int (self : FailureCounter) : Z := count self.

(* ================================================================== *)
(** ** Notions the statements use *)

(** A line without any non-whitespace character. *)
Definition blank (s : str) : bool := forallb is_space s.

(** The text without its whitespace characters. *)
Definition squash (s : str) : str := filter (fun c => negb (is_space c)) s.

(** The part of a text before its first line boundary, and the part
    after its last one. *)
Fixpoint line_head (s : str) : str :=
  match s with
  | [] => []
  | c :: s' => if is_linebreak c then [] else c :: line_head s'
  end.

Fixpoint line_tail (s : str) : str :=
  match s with
  | [] => []
  | c :: s' =>
      if existsb is_linebreak s' then line_tail s'
      else if is_linebreak c then s' else c :: s'
  end.

(** Inserting one whitespace character, anywhere. *)
Inductive ws_insert_any : str -> str -> Prop :=
| insert_any l c r :
    is_space c = true -> ws_insert_any (l ++ r) (l ++ c :: r).

(** Inserting one whitespace character without cutting a line between
    two of its non-whitespace characters: either the character is no
    line boundary (indentation, spacing inside a line), or the line is
    blank before or after the place (line spacing). *)
Inductive ws_insert : str -> str -> Prop :=
| insert_inline l c r :
    is_space c = true -> is_linebreak c = false ->
    ws_insert (l ++ r) (l ++ c :: r)
| insert_break l c r :
    is_linebreak c = true ->
    blank (line_tail l) || blank (line_head r) = true ->
    ws_insert (l ++ r) (l ++ c :: r).

(** Texts that differ only by such insertions and removals. *)
Definition ws_equiv : str -> str -> Prop := clos_refl_sym_trans str ws_insert.
Definition ws_equiv_any : str -> str -> Prop :=
  clos_refl_sym_trans str ws_insert_any.

(** A line that ends with the continuation marker, what it contributes
    to the buffer, and the buffer a run of such lines builds. *)
Definition marked (line : str) : bool := endswith (rstrip line) (u "~").
Definition payload (line : str) : str := drop_last 1 (rstrip line).
Definition buffered (run : list str) : str := concat (map payload run).

(** The fragments and lines the matcher compares: the first normalized
    line of every entry that is not blank. *)
Definition fragments (lines : list str) : list str :=
  map (fun line => hd [] (normalize_text line))
      (filter (fun line => truthy (strip line)) lines).

(** [embeds expected actual]: the fragments occur, in their order, as
    substrings of lines of [actual] at strictly increasing positions. *)
Inductive embeds : list str -> list str -> Prop :=
| embeds_nil actual : embeds [] actual
| embeds_here e es line rest :
    contains line e = true -> embeds es rest ->
    embeds (e :: es) (line :: rest)
| embeds_later e es line rest :
    embeds (e :: es) rest -> embeds (e :: es) (line :: rest).

(** The matcher's scan as a plain recursion on both lists. *)
Fixpoint greedy (expected actual : list str) : bool :=
  match expected, actual with
  | [], _ => true
  | _ :: _, [] => false
  | e :: es, line :: rest =>
      if contains line e then greedy es rest else greedy expected rest
  end.

(** The segments between the line boundaries of a text, every boundary
    counted; [segs_onto s k] lets the last segment of [s] run into the
    first entry of [k]. *)
Fixpoint segs_onto (s : str) (k : list str) : list str :=
  match s with
  | [] => k
  | c :: s' =>
      if is_linebreak c then [] :: segs_onto s' k
      else cons_head c (segs_onto s' k)
  end.

Definition segs (s : str) : list str := segs_onto s [[]].

Definition prepend (p : str) (l : list str) : list str :=
  match l with
  | [] => [p]
  | h :: t => (p ++ h) :: t
  end.

(** What [normalize_text] keeps of a list of lines. *)
Definition keep (l : list str) : list str :=
  map squash (filter (fun line => negb (blank line)) l).

(** Two lists of lines that are kept alike, whatever is put in front of
    their first line. *)
Definition kept_alike (l1 l2 : list str) : Prop :=
  forall p, keep (prepend p l1) = keep (prepend p l2).

(** [d[key] = v] for a key that is present: the entry is replaced where
    it stands. *)
Fixpoint dict_replace (key : str) (v : json) (d : dict) : dict :=
  match d with
  | [] => []
  | (k, w) :: d' =>
      if str_eqb key k then (k, v) :: d' else (k, w) :: dict_replace key v d'
  end.

Fixpoint forall2b {A B} (f : A -> B -> bool) (la : list A) (lb : list B)
  : bool :=
  match la, lb with
  | [], [] => true
  | x :: la', y :: lb' => f x y && forall2b f la' lb'
  | _, _ => false
  end.

(** The resets of a cell or an output that is a dict, spelled with
    [dict_replace]. *)
Definition reset_cell (d : dict) : dict :=
  dict_replace (u "metadata") (JDict [])
    (dict_replace (u "execution_count") JNull d).

(** The fields the normalizer resets, per level. *)
Definition cell_volatile : list str :=
  [u "execution_count"; u "metadata"; u "outputs"].
Definition output_volatile : list str := [u "execution_count"; u "metadata"].

(** [kept_except ks a b]: [b] has the keys of [a] in the same order, and
    the same value as [a] under every key outside [ks]; a value that is
    not a dict is unchanged. *)
Definition kept_except (ks : list str) (a b : json) : Prop :=
  match a, b with
  | JDict da, JDict db =>
      map fst db = map fst da
      /\ forall k, str_mem k ks = false -> dict_get k db = dict_get k da
  | _, _ => b = a
  end.

(** A cell after normalization: fields outside the volatile ones kept,
    and its outputs, when they are a list, kept one by one in order. *)
Definition cell_kept (c c' : json) : Prop :=
  kept_except cell_volatile c c'
  /\ forall d outs,
      c = JDict d -> dict_get (u "outputs") d = Some (JList outs) ->
      exists d' outs',
        c' = JDict d' /\ dict_get (u "outputs") d' = Some (JList outs')
        /\ Forall2 (kept_except output_volatile) outs outs'.

(** Two dicts with the same keys in the same order whose values agree
    outside the keys [ks]. *)
Definition agree_except (ks : list str) (da db : dict) : Prop :=
  Forall2 (fun x y => fst x = fst y
                      /\ (str_mem (fst x) ks = true \/ snd x = snd y)) da db.

Definition unique_keys (d : dict) : Prop := NoDup (map fst d).

(** Outputs, cells and notebooks that differ only in execution
    counters.  The dicts have unique keys, as every Python dict has. *)
Definition output_variant (a b : json) : Prop :=
  match a, b with
  | JDict da, JDict db =>
      unique_keys da /\ agree_except [u "execution_count"] da db
  | _, _ => a = b
  end.

Definition cell_variant (a b : json) : Prop :=
  match a, b with
  | JDict da, JDict db =>
      unique_keys da
      /\ agree_except [u "execution_count"; u "outputs"] da db
      /\ (dict_get (u "outputs") da = dict_get (u "outputs") db
          \/ exists la lb,
              dict_get (u "outputs") da = Some (JList la)
              /\ dict_get (u "outputs") db = Some (JList lb)
              /\ Forall2 output_variant la lb)
  | _, _ => a = b
  end.

Definition notebook_variant (a b : json) : Prop :=
  match a, b with
  | JDict da, JDict db =>
      unique_keys da
      /\ agree_except [u "cells"] da db
      /\ (dict_get (u "cells") da = dict_get (u "cells") db
          \/ exists la lb,
              dict_get (u "cells") da = Some (JList la)
              /\ dict_get (u "cells") db = Some (JList lb)
              /\ Forall2 cell_variant la lb)
  | _, _ => a = b
  end.

(** The value of field [key] of the [i]-th cell of a notebook. *)
Definition cell_field (key : str) (i : nat) (nb : json) : option json :=
  match nb with
  | JDict d =>
      match dict_get (u "cells") d with
      | Some (JList cells) =>
          match nth_error cells i with
          | Some (JDict c) => dict_get key c
          | _ => None
          end
      | _ => None
      end
  | _ => None
  end.

(** Every dict of a document has unique keys, as every dict built by
    [json.load] has. *)
Fixpoint well_keyed (j : json) : Prop :=
  match j with
  | JList l =>
      (fix all (l : list json) : Prop :=
         match l with
         | [] => True
         | x :: l' => well_keyed x /\ all l'
         end) l
  | JDict d =>
      NoDup (map fst d)
      /\ (fix all (d : dict) : Prop :=
            match d with
            | [] => True
            | (_, v) :: d' => well_keyed v /\ all d'
            end) d
  | _ => True
  end.

(** Induction on documents, through their lists and dicts. *)
Fixpoint json_induction (P : json -> Prop)
         (Hnull : P JNull) (Hbool : forall b, P (JBool b))
         (Hint : forall z, P (JInt z)) (Hstr : forall s, P (JStr s))
         (Hlist : forall l, Forall P l -> P (JList l))
         (Hdict : forall d, Forall (fun kv => P (snd kv)) d -> P (JDict d))
         (j : json) {struct j} : P j :=
  match j with
  | JNull => Hnull
  | JBool b => Hbool b
  | JInt z => Hint z
  | JStr s => Hstr s
  | JList l =>
      Hlist l
        ((fix go (l : list json) : Forall P l :=
            match l with
            | [] => Forall_nil P
            | x :: l' =>
                Forall_cons x
                  (json_induction P Hnull Hbool Hint Hstr Hlist Hdict x)
                  (go l')
            end) l)
  | JDict d =>
      Hdict d
        ((fix go (d : dict) : Forall (fun kv => P (snd kv)) d :=
            match d with
            | [] => Forall_nil _
            | (k, v) :: d' =>
                Forall_cons (k, v)
                  (json_induction P Hnull Hbool Hint Hstr Hlist Hdict v)
                  (go d')
            end) d)
  end.

(** A small notebook: a code cell with one output and a markdown cell. *)
Definition example_output (counter : Z) : json :=
  JDict [(u "output_type", JStr (u "execute_result"));
         (u "execution_count", JInt counter);
         (u "metadata", JDict [(u "scrolled", JBool true)]);
         (u "data", JDict [(u "text/plain", JStr (u "2"))])].

Definition example_notebook (counter : Z) (id source : str) : json :=
  JDict [(u "cells",
          JList [JDict [(u "cell_type", JStr (u "code"));
                        (u "execution_count", JInt counter);
                        (u "id", JStr id);
                        (u "metadata", JDict [(u "tags", JList [])]);
                        (u "outputs", JList [example_output counter]);
                        (u "source", JStr source)];
                 JDict [(u "cell_type", JStr (u "markdown"));
                        (u "id", JStr (u "b2"));
                        (u "metadata", JDict []);
                        (u "source", JStr (u "# Title"))]]);
         (u "metadata", JDict [(u "language", JStr (u "python"))]);
         (u "nbformat", JInt 4);
         (u "nbformat_minor", JInt 5)].

(** A path that lies under a directory whose name begins with
    [xsim-files]: one of its components before the last has the
    prefix. *)
Definition under_xsim_files_dir (path : str) : bool :=
  existsb (fun part => startswith part (u "xsim-files"))
          (removelast (split_on os_sep path)).

(** A simulated tool chain for concrete runs.  A command cannot be
    started in a working directory that does not exist.  [latexmk] fails
    on the documents listed in [failing] and otherwise leaves a PDF next
    to the source; [pdftotext] writes [page_text]; cleaning and every
    other command succeed without effect. *)
Definition simulated_run (failing : list str) (page_text : str)
           (command : list str) (cwd : str) (w : World)
  : (exn + Z * str * str) * World :=
  if negb (fs_isdir w cwd) then (inl (OSError cwd), w)
  else
  match command with
  | prog :: rest =>
      if str_eqb prog (u "latexmk") then
        if str_mem (u "-C") rest then (inr (0%Z, [], []), w)
        else
          let tex := last rest [] in
          if str_mem tex failing
          then (inr (1%Z, u "! Undefined control sequence.", []), w)
          else (inr (0%Z, [], []),
                fs_write (path_join cwd (drop_last 4 tex ++ u ".pdf"))
                         (u "%PDF") w)
      else if str_eqb prog (u "pdftotext") then
        (inr (0%Z, [], []),
         fs_write (path_join cwd (last rest [])) page_text w)
      else (inr (0%Z, [], []), w)
  | [] => (inl (IndexError), w)
  end.

Definition simulated (failing : list str) (page_text : str)
           (found : list str) : Externals :=
  mkExternals (simulated_run failing page_text)
              (fun _ _ => found)
              (fun _ => None)
              (fun _ => None)
              (u "/tmp/tmpf")
              false
              (fun _ w => w).

(** A file system given by its files and directories. *)
Definition lookup {V} (table : list (str * V)) (key : str) : option V :=
  match find (fun kv => str_eqb key (fst kv)) table with
  | Some kv => Some (snd kv)
  | None => None
  end.

Definition world_of (fs : list (str * str)) (ds : list (str * list str))
  : World :=
  mkWorld (lookup fs) (lookup ds).

Definition initial (w : World) : state :=
  mkState w [] [] (FailureCounter_init 9223372036854775807).

(** A test directory [t] with one test that requires [dep.tex]; the
    expected text of the test is recorded. *)
Definition world_with_requirement : World :=
  world_of
    [(u "t/test_a.tex", u "\input{dep}");
     (u "t/dep.tex", u "\undefined");
     (u "t/test_a.requires", u "dep.tex" ++ [10%N]);
     (u "t/expected/test_a.pdf.txt", u "Hello")]
    [(u "t", [u "test_a.tex"; u "dep.tex"; u "test_a.requires"; u "expected"]);
     (u "t/expected", [u "test_a.pdf.txt"])].

(** A test directory [t] with one test and no recorded expected text. *)
Definition world_without_expectation : World :=
  world_of
    [(u "t/test_b.tex", u "Hello")]
    [(u "t", [u "test_b.tex"; u "expected"]);
     (u "t/expected", [])].

(** A test file inside a directory of the exercise tool. *)
Definition world_with_xsim_file : World :=
  world_of
    [(u "t/test_b.tex", u "Hello");
     (u "t/xsim-files-exam/test_c.tex", u "Hello")]
    [(u "t", [u "test_b.tex"; u "xsim-files-exam"]);
     (u "t/xsim-files-exam", [u "test_c.tex"])].

(** The state of the second test directory after a successful main
    compile, and the file system after the conversion of its PDF. *)
Definition after_compile : state :=
  initial (fs_write (u "t/test_b.pdf") (u "%PDF") world_without_expectation).

Definition after_conversion (page_text : str) : World :=
  fs_write (u "t/test_b.pdf.txt") page_text (world after_compile).

(* ================================================================== *)
(** ** Further notions *)

(** A line as [normalize_text] returns it: not empty, no whitespace. *)
Definition clean_line (l : str) : bool :=
  truthy l && forallb (fun c => negb (is_space c)) l.

(** What a line contributes to the merged output. *)
Definition merged_content (line : str) : str :=
  if marked line then payload line else rstrip line.

(** [subsequence a b]: [a] is [b] with some entries left out. *)
Inductive subsequence {A : Type} : list A -> list A -> Prop :=
| subsequence_nil : subsequence [] []
| subsequence_keep x a b : subsequence a b -> subsequence (x :: a) (x :: b)
| subsequence_drop x a b : subsequence a b -> subsequence a (x :: b).

(** One when the buffer holds content that is still to be emitted. *)
Definition indicator (buffer : str) : nat := if truthy buffer then 1 else 0.

(** The value of field [key] of the [j]-th output of the [i]-th cell. *)
Definition output_field (key : str) (i j : nat) (nb : json) : option json :=
  match cell_field (u "outputs") i nb with
  | Some (JList outputs) =>
      match nth_error outputs j with
      | Some (JDict o) => dict_get key o
      | _ => None
      end
  | _ => None
  end.

(** [None], a boolean or a number: a value that can be neither searched
    with [in] nor iterated. *)
Definition scalar (j : json) : bool :=
  match j with
  | JNull | JBool _ | JInt _ => true
  | _ => false
  end.

(** A cell that is a dict whose [cell_type] is ["code"]. *)
Definition is_code_cell (c : json) : bool :=
  match c with
  | JDict d =>
      match dict_get (u "cell_type") d with
      | Some v => py_eqb v (JStr (u "code"))
      | None => false
      end
  | _ => false
  end.

Definition is_dict (c : json) : bool :=
  match c with JDict _ => true | _ => false end.

(** An argument [main] accepts: a file ending in [.tex], or a
    directory. *)
Definition supported (w : World) (path : str) : bool :=
  (fs_isfile w path && endswith path (u ".tex")) || fs_isdir w path.

(** The flags of the command line and the value of a ceiling flag. *)
Definition is_maxfail (arg : str) : bool := startswith arg (u "--maxfail=").
Definition is_regold (arg : str) : bool := str_eqb arg (u "--regold").
Definition maxfail_value (arg : str) : str := nth 1 (split_on 61%N arg) [].
Definition positional (arg : str) : bool :=
  negb (is_maxfail arg) && negb (is_regold arg).

(** The body of the loop over the path arguments in [main]. *)
Definition resolve_argument (ext : Externals) (tex_tests : list str)
           (path : str) : M (list str) :=
  w <- get_world ;;
  if fs_isfile w path && endswith path (u ".tex") then
    ret (tex_tests ++ [path])
  else if fs_isdir w path then
    filtered_files <-
      discover ext (path_join (path_join path (u "**")) (u "test_*.tex")) ;;
    ret (tex_tests ++ filtered_files)
  else
    print (NotFoundOrUnsupported path) ;; sys_exit 1.

(** The body of the loop over the command line in [main]. *)
Definition parse_flag (ext : Externals) (acc : Z * bool * list str)
  : str -> M (Z * bool * list str) :=
  let '(maxfail, regold, new_args) := acc in
  fun arg =>
  if startswith arg (u "--maxfail=") then
    match int_of_str ext (nth 1 (split_on 61%N arg) []) with
    | Some n => ret (n, regold, new_args)
    | None => print (InvalidMaxfail arg) ;; sys_exit 1
    end
  else if str_eqb arg (u "--regold") then ret (maxfail, true, new_args)
  else ret (maxfail, regold, new_args ++ [arg]).

Definition sys_maxsize : Z := 9223372036854775807.

(** [extends s s']: from [s] to [s'] the output and the log of calls
    were only appended to, the counter did not decrease and its ceiling
    did not change. *)
Definition extends (s s' : state) : Prop :=
  (exists out, stdout s' = stdout s ++ out)
  /\ (exists cs, calls s' = calls s ++ cs)
  /\ (count (failure_counter s) <= count (failure_counter s'))%Z
  /\ maxfail (failure_counter s') = maxfail (failure_counter s).

(** A statement of the test loop is [tidy] when, however it ends, the
    state was extended; it does not end by [break]; when it ends by
    [continue], a failure was counted; and when it ends the process,
    the status is 1, a failure was counted and the ceiling is
    reached, the last line printed saying so. *)
Definition stopped (s s' : state) (c : Z) : Prop :=
  c = 1%Z
  /\ (count (failure_counter s) < count (failure_counter s'))%Z
  /\ (maxfail (failure_counter s') <= count (failure_counter s'))%Z
  /\ exists out,
       stdout s'
       = stdout s ++ out ++ [MaxfailReached (maxfail (failure_counter s'))].

Definition tidy {A} (m : M A) : Prop :=
  forall s o s',
    m s = (o, s') ->
    extends s s'
    /\ o <> Break
    /\ (o = Continue ->
        (count (failure_counter s) < count (failure_counter s'))%Z)
    /\ (forall c, o = SysExit c -> stopped s s' c).

(** The second test directory after the main compile, with a recorded
    expected text. *)
Definition after_compile_with_expectation (exp : str) : state :=
  initial (fs_write (u "t/expected/test_b.pdf.txt") exp (world after_compile)).

(** A statement of [main] before the tests are run either returns and
    leaves the state as it was, or prints one line and ends the process
    with status 1. *)
Definition usage {A} (m : M A) : Prop :=
  forall s,
    (exists a, m s = (Return a, s))
    \/ (exists p, m s = (SysExit 1,
                         mkState (world s) (stdout s ++ [p]) (calls s)
                                 (failure_counter s))).

(** How a statement that only runs the commands [commands], one after
    the other, leaves the state [s] as [s'] with the outcome [o]: nothing
    is printed or counted, the commands attempted are a prefix of the
    list, all of them when the statement returns, and the only other way
    to end is the exception of one of them. *)
Definition ran_only {A} (ext : Externals) (commands : list (list str * str))
           (s : state) (o : outcome A) (s' : state) : Prop :=
  stdout s' = stdout s
  /\ failure_counter s' = failure_counter s
  /\ (exists attempted rest,
         commands = attempted ++ rest /\ calls s' = calls s ++ attempted)
  /\ match o with
     | Return _ => calls s' = calls s ++ commands
     | Raised e =>
         exists cmd w,
           In cmd commands
           /\ fst (run_command ext (fst cmd) (snd cmd) w) = inl e
     | Continue | Break | SysExit _ => False
     end.

(** The body of the loop over the notebooks in [compare_notebooks]. *)
Definition compare_pair (ext : Externals) (regold : bool)
           (test_dir ipynb_dir : str) (failed_ipynbs : list notebook_failure)
           (pair : str * str) : M (list notebook_failure) :=
  let generated_ipynb := path_join ipynb_dir (fst pair) in
  let expected_ipynb := path_join (u "expected") (snd pair) in
  ex <- path_exists (path_join test_dir expected_ipynb) ;;
  failed_ipynbs <-
    (if negb ex then
       copy (path_join test_dir generated_ipynb)
            (path_join test_dir expected_ipynb) ;;
       ret (failed_ipynbs
            ++ [NoExpectedNotebook (path_join test_dir expected_ipynb)])
     else ret failed_ipynbs) ;;
  exp_nb <- load_normalized ext (path_join test_dir expected_ipynb) ;;
  gen_nb <- load_normalized ext (path_join test_dir generated_ipynb) ;;
  if negb (py_eqb exp_nb gen_nb) then
    '(_, out, err) <-
      run ext (NBDIFF_CMD ext ++ [expected_ipynb; generated_ipynb]) test_dir ;;
    let out :=
      replace out (u "--- " ++ expected_ipynb)
              (u "--- " ++ path_join test_dir expected_ipynb) in
    let out :=
      replace out (u "+++ " ++ generated_ipynb)
              (u "+++ " ++ path_join test_dir generated_ipynb) in
    (if regold then
       copy (path_join test_dir generated_ipynb)
            (path_join test_dir expected_ipynb)
     else ret tt) ;;
    ret (failed_ipynbs
         ++ [NotebookDiffers (path_join test_dir generated_ipynb)
                             (out ++ err)])
  else ret failed_ipynbs.

(** A statement [ends P] when it prints nothing, leaves the failure
    counter alone, and ends either by returning a value that satisfies
    [P] or by an exception. *)
Definition ends {A} (P : A -> Prop) (m : M A) : Prop :=
  forall s o s',
    m s = (o, s') ->
    stdout s' = stdout s
    /\ failure_counter s' = failure_counter s
    /\ match o with
       | Return a => P a
       | Raised _ => True
       | Continue | Break | SysExit _ => False
       end.

(** [extended acc]: the lists that start with [acc]. *)
Definition extended {X} (acc : list X) (l : list X) : Prop :=
  exists more, l = acc ++ more.

(** The simulated tool chain with a JSON reader given by a table from
    file contents to notebooks. *)
Definition simulated_notebooks (table : list (str * json)) : Externals :=
  mkExternals (simulated_run [] [])
              (fun _ _ => [])
              (lookup table)
              (fun _ => None)
              (u "/tmp/tmpf")
              false
              (fun _ w => w).

(** A test directory whose test [test_b] has produced one notebook, for
    which an expected notebook is recorded. *)
Definition world_with_notebook (expected generated : str) : World :=
  world_of
    [(u "t/test_b.tex", u "Hello");
     (u "t/notebooks-test_b/nb.ipynb", generated);
     (u "t/expected/test_b.nb.ipynb", expected)]
    [(u "t", [u "test_b.tex"; u "expected"; u "notebooks-test_b"]);
     (u "t/expected", [u "test_b.nb.ipynb"]);
     (u "t/notebooks-test_b", [u "nb.ipynb"; u "notes.txt"])].

(* ================================================================== *)
(** ** Facts about strings *)

Lemma str_eqb_eq (a b : str) : str_eqb a b = true <-> a = b.
Proof.
  revert b; induction a as [|x a IH]; intros [|y b]; simpl; split;
    try congruence; try reflexivity.
  - intros H. apply andb_true_iff in H as [Hx Hr].
    apply N.eqb_eq in Hx. apply IH in Hr. congruence.
  - intros H. injection H as -> ->. apply andb_true_iff. split.
    + apply N.eqb_refl.
    + now apply IH.
Qed.

Lemma str_eqb_refl (a : str) : str_eqb a a = true.
Proof. now apply str_eqb_eq. Qed.

Lemma str_eqb_neq (a b : str) : str_eqb a b = false <-> a <> b.
Proof.
  split.
  - intros H E. apply str_eqb_eq in E. congruence.
  - intros H. destruct (str_eqb a b) eqn:E; [|reflexivity].
    apply str_eqb_eq in E. contradiction.
Qed.

Lemma linebreak_is_space (c : char) : is_linebreak c = true -> is_space c = true.
Proof.
  unfold is_linebreak. simpl. rewrite !orb_true_iff, !N.eqb_eq.
  intros H; repeat destruct H as [H | H]; try discriminate H;
    subst c; reflexivity.
Qed.

Lemma not_space_not_linebreak (c : char) :
  is_space c = false -> is_linebreak c = false.
Proof.
  intros H. destruct (is_linebreak c) eqn:E; [|reflexivity].
  apply linebreak_is_space in E. congruence.
Qed.

Lemma rstrip_nil (s : str) : rstrip s = [] <-> blank s = true.
Proof.
  induction s as [|c s IH]; simpl; [tauto|].
  destruct (rstrip s) as [|x r] eqn:E.
  - destruct (is_space c); simpl; split; try congruence.
    + intros _. now apply IH.
  - split; [congruence|]. intros H. apply andb_true_iff in H as [_ H].
    apply IH in H. congruence.
Qed.

Lemma blank_rstrip (s : str) : blank (rstrip s) = blank s.
Proof.
  induction s as [|c s IH]; simpl; [reflexivity|].
  destruct (rstrip s) as [|x r] eqn:E.
  - assert (Hb : blank s = true) by now apply rstrip_nil.
    rewrite Hb, andb_true_r. destruct (is_space c) eqn:Ec; simpl; [reflexivity|].
    now rewrite Ec.
  - cbn [blank forallb] in *. now rewrite IH.
Qed.

Lemma truthy_lstrip (s : str) : truthy (lstrip s) = negb (blank s).
Proof.
  induction s as [|c s IH]; simpl; [reflexivity|].
  destruct (is_space c); simpl; [assumption|reflexivity].
Qed.

Lemma truthy_strip (s : str) : truthy (strip s) = negb (blank s).
Proof. unfold strip. now rewrite truthy_lstrip, blank_rstrip. Qed.

Lemma join_nil_concat (l : list str) : join [] l = concat l.
Proof.
  induction l as [|p [|q l] IH]; simpl in *; [reflexivity| |].
  - now rewrite app_nil_r.
  - now rewrite IH.
Qed.

Lemma concat_split_from (w s : str) : concat (split_from w s) = w ++ squash s.
Proof.
  revert w; induction s as [|c s IH]; intros w; simpl.
  - destruct w; simpl; now rewrite ?app_nil_r.
  - destruct (is_space c); simpl.
    + destruct w; simpl; rewrite IH; reflexivity.
    + rewrite IH, <- app_assoc. reflexivity.
Qed.

Lemma join_split (s : str) : join [] (split s) = squash s.
Proof. unfold split. now rewrite join_nil_concat, concat_split_from. Qed.

(** [normalize_text] without the string methods. *)
Lemma normalize_text_eq (text : str) :
  normalize_text text
  = map squash (filter (fun l => negb (blank l)) (splitlines text)).
Proof.
  unfold normalize_text.
  rewrite (map_ext _ squash join_split).
  f_equal. apply filter_ext. intros l. apply truthy_strip.
Qed.

Lemma blank_app (a b : str) : blank (a ++ b) = blank a && blank b.
Proof. apply forallb_app. Qed.

Lemma squash_app (a b : str) : squash (a ++ b) = squash a ++ squash b.
Proof. apply filter_app. Qed.

Lemma cons_head_concat (c : char) (ls : list str) :
  concat (cons_head c ls) = c :: concat ls.
Proof. destruct ls; reflexivity. Qed.

Lemma splitlines_cons (c : char) (s : str) :
  splitlines (c :: s)
  = if is_linebreak c then
      [] :: match s with
            | d :: s'' => if ((c =? 13) && (d =? 10))%N then splitlines s''
                          else splitlines s
            | [] => []
            end
    else cons_head c (splitlines s).
Proof. reflexivity. Qed.

(** The lines of a text hold its characters other than line boundaries. *)
Lemma concat_splitlines (n : nat) (s : str) :
  length s <= n ->
  concat (splitlines s) = filter (fun c => negb (is_linebreak c)) s.
Proof.
  revert s; induction n as [|n IH]; intros [|c s] Hn;
    try reflexivity; try (simpl in Hn; lia).
  rewrite splitlines_cons. cbn [filter]. simpl in Hn.
  destruct (is_linebreak c) eqn:Ec; cbn [negb concat app].
  - destruct s as [|d s']; [reflexivity|].
    destruct ((c =? 13)%N && (d =? 10)%N) eqn:Ep.
    + apply andb_true_iff in Ep as [_ Ed]. apply N.eqb_eq in Ed. subst d.
      rewrite IH by (simpl in Hn; lia). reflexivity.
    + apply IH. lia.
  - rewrite cons_head_concat. f_equal. apply IH. lia.
Qed.

Lemma blank_concat (ls : list str) :
  blank (concat ls) = forallb blank ls.
Proof.
  induction ls as [|l ls IH]; simpl; [reflexivity|].
  now rewrite blank_app, IH.
Qed.

Lemma blank_filter_linebreak (s : str) :
  blank (filter (fun c => negb (is_linebreak c)) s) = blank s.
Proof.
  induction s as [|c s IH]; simpl; [reflexivity|].
  destruct (is_linebreak c) eqn:E; simpl.
  - rewrite (linebreak_is_space _ E). assumption.
  - now rewrite IH.
Qed.

(** A text with a non-whitespace character has a non-blank line. *)
Lemma normalize_text_nonempty (line : str) :
  truthy (strip line) = true -> normalize_text line <> [].
Proof.
  rewrite truthy_strip, normalize_text_eq. intros Hb E.
  apply map_eq_nil in E.
  assert (Hall : forallb blank (splitlines line) = true).
  { apply forallb_forall. intros l Hl.
    destruct (blank l) eqn:El; [reflexivity|].
    assert (In l (filter (fun l => negb (blank l)) (splitlines line))).
    { apply filter_In. split; [assumption|]. now rewrite El. }
    rewrite E in H. contradiction. }
  rewrite <- blank_concat, (concat_splitlines (length line)) in Hall by lia.
  rewrite blank_filter_linebreak in Hall. rewrite Hall in Hb. discriminate.
Qed.

Lemma normalized_heads_total (lines : list str) :
  exists heads, normalized_heads lines = Some heads.
Proof.
  induction lines as [|line rest [heads IH]]; simpl; [now exists []|].
  destruct (truthy (strip line)) eqn:E; [|now exists heads].
  destruct (normalize_text line) as [|h t] eqn:En.
  - now apply normalize_text_nonempty in E.
  - simpl. rewrite IH. now exists (h :: heads).
Qed.

(* ================================================================== *)
(** ** Facts about the continuation merger and the matcher *)

Lemma merge_step_marked_run (run : list str) (merged : list str) (buffer : str) :
  forallb marked run = true ->
  fold_left merge_step run (merged, buffer) = (merged, buffer ++ buffered run).
Proof.
  revert buffer; induction run as [|line run IH]; intros buffer H.
  - unfold buffered. simpl. now rewrite app_nil_r.
  - simpl in H. apply andb_true_iff in H as [Hm Hr].
    cbn [fold_left]. unfold merge_step at 2. unfold marked in Hm. rewrite Hm.
    rewrite IH by assumption. unfold buffered. cbn [map concat].
    now rewrite app_assoc.
Qed.

Lemma merge_step_unmarked_buffer (st : list str * str) (line : str) :
  marked line = false -> snd (merge_step st line) = [].
Proof.
  destruct st as [merged buffer]. unfold marked, merge_step. intros ->.
  destruct buffer; reflexivity.
Qed.

Lemma merge_buffer_after_unmarked (pre : list str) :
  marked (last pre []) = false ->
  snd (fold_left merge_step pre ([], [])) = [].
Proof.
  destruct pre as [|x pre'] using rev_ind; [reflexivity|].
  rewrite last_last, fold_left_app. cbn [fold_left].
  apply merge_step_unmarked_buffer.
Qed.

Lemma merge_trailing_run (pre run : list str) :
  marked (last pre []) = false ->
  forallb marked run = true ->
  merge_lines_with_continuation (pre ++ run)
  = merge_lines_with_continuation pre
    ++ (if truthy (buffered run) then [buffered run] else []).
Proof.
  intros Hpre Hrun. unfold merge_lines_with_continuation.
  rewrite fold_left_app.
  pose proof (merge_buffer_after_unmarked pre Hpre) as Hb.
  destruct (fold_left merge_step pre ([], [])) as [merged buffer].
  simpl in Hb. subst buffer.
  rewrite merge_step_marked_run by assumption. cbn [app merge_flush truthy].
  destruct (truthy (buffered run)); [reflexivity|now rewrite app_nil_r].
Qed.

Lemma fragments_heads (lines : list str) :
  normalized_heads lines = Some (fragments lines).
Proof.
  unfold fragments.
  induction lines as [|line rest IH]; [reflexivity|].
  cbn [normalized_heads filter].
  destruct (truthy (strip line)) eqn:E; [|assumption].
  destruct (normalize_text line) as [|h t] eqn:En.
  - now apply normalize_text_nonempty in E.
  - cbn [nth_error map hd]. rewrite IH, En. reflexivity.
Qed.

Lemma scan_greedy (expected actual : list str) (idx : nat) :
  idx <= length expected ->
  (scan expected idx actual =? length expected)
  = greedy (skipn idx expected) actual.
Proof.
  revert idx; induction actual as [|line rest IH]; intros idx Hle.
  - cbn [scan]. destruct (Nat.eqb_spec idx (length expected)) as [->|Hne].
    + now rewrite skipn_all.
    + destruct (skipn idx expected) as [|e es] eqn:Es; [|reflexivity].
      apply (f_equal (@length _)) in Es. rewrite length_skipn in Es.
      simpl in Es. lia.
  - cbn [scan]. destruct (Nat.leb_spec (length expected) idx) as [Hge|Hlt].
    + assert (idx = length expected) as -> by lia.
      rewrite skipn_all, Nat.eqb_refl. reflexivity.
    + assert (Hs : skipn idx expected
                   = nth idx expected [] :: skipn (S idx) expected).
      { clear - Hlt. revert idx Hlt.
        induction expected as [|e es IHe]; intros idx Hlt;
          [simpl in Hlt; lia|].
        destruct idx as [|idx]; [reflexivity|].
        simpl in Hlt. cbn [skipn nth]. apply IHe. lia. }
      rewrite Hs. cbn [greedy].
      destruct (contains line (nth idx expected [])).
      * apply IH. lia.
      * rewrite <- Hs. apply IH. lia.
Qed.

Lemma greedy_tail (e : str) (es actual : list str) :
  greedy (e :: es) actual = true -> greedy es actual = true.
Proof.
  revert e es; induction actual as [|line rest IH]; intros e es H.
  - discriminate.
  - destruct es as [|e' es']; [reflexivity|].
    cbn [greedy] in *.
    destruct (contains line e), (contains line e'); eauto.
Qed.

Lemma greedy_embeds (expected actual : list str) :
  greedy expected actual = true <-> embeds expected actual.
Proof.
  split.
  - revert expected; induction actual as [|line rest IH]; intros [|e es] H.
    + apply embeds_nil.
    + discriminate.
    + apply embeds_nil.
    + cbn [greedy] in H. destruct (contains line e) eqn:Ec.
      * apply embeds_here; auto.
      * apply embeds_later; auto.
  - induction 1 as [actual|e es line rest Hc _ IH|e es line rest _ IH].
    + destruct actual; reflexivity.
    + cbn [greedy]. now rewrite Hc.
    + cbn [greedy]. destruct (contains line e); [|assumption].
      now apply greedy_tail in IH.
Qed.

Lemma check_greedy (expected_lines actual_lines : list str) :
  check_ordered_subsequence_with_missing expected_lines actual_lines
  = Some (greedy (fragments expected_lines) (fragments actual_lines)).
Proof.
  unfold check_ordered_subsequence_with_missing.
  rewrite !fragments_heads. f_equal.
  apply (scan_greedy (fragments expected_lines) (fragments actual_lines) 0).
  lia.
Qed.

(* ================================================================== *)
(** ** Facts about [normalize_text] *)

Lemma keep_app (a b : list str) : keep (a ++ b) = keep a ++ keep b.
Proof. unfold keep. now rewrite filter_app, map_app. Qed.

Lemma keep_cons (x : str) (l : list str) : keep (x :: l) = keep [x] ++ keep l.
Proof. apply (keep_app [x] l). Qed.

Lemma keep_blank (x : str) : blank x = true -> keep [x] = [].
Proof. unfold keep. simpl. now intros ->. Qed.

Lemma keep_single_app_blank_l (x y : str) :
  blank x = true -> keep [x ++ y] = keep [y].
Proof.
  intros Hx. unfold keep. simpl. rewrite blank_app, Hx. simpl.
  destruct (blank y); simpl; [reflexivity|].
  rewrite squash_app. f_equal.
  assert (squash x = []) as ->; [|reflexivity].
  clear - Hx. induction x as [|c x IH]; simpl in *; [reflexivity|].
  apply andb_true_iff in Hx as [-> Hx]. simpl. auto.
Qed.

Lemma keep_single_app_blank_r (x y : str) :
  blank y = true -> keep [x ++ y] = keep [x].
Proof.
  intros Hy. unfold keep. simpl. rewrite blank_app, Hy, andb_true_r.
  destruct (blank x); simpl; [reflexivity|].
  rewrite squash_app. f_equal.
  assert (squash y = []) as ->; [|now rewrite app_nil_r].
  clear - Hy. induction y as [|c y IH]; simpl in *; [reflexivity|].
  apply andb_true_iff in Hy as [-> Hy]. simpl. auto.
Qed.

Lemma keep_prepend_nil (l : list str) : keep (prepend [] l) = keep l.
Proof. destruct l; reflexivity. Qed.

Lemma cons_head_prepend (c : char) (l : list str) :
  cons_head c l = prepend [c] l.
Proof. destruct l; reflexivity. Qed.

Lemma prepend_prepend (p q : str) (l : list str) :
  prepend p (prepend q l) = prepend (p ++ q) l.
Proof. destruct l; simpl; now rewrite <- ?app_assoc. Qed.

Lemma kept_alike_keep (l1 l2 : list str) :
  kept_alike l1 l2 -> keep l1 = keep l2.
Proof. intros H. specialize (H []). now rewrite !keep_prepend_nil in H. Qed.

Lemma kept_alike_break (l1 l2 : list str) :
  kept_alike l1 l2 -> kept_alike ([] :: l1) ([] :: l2).
Proof.
  intros H p. simpl. rewrite (keep_cons _ l1), (keep_cons _ l2).
  f_equal. now apply kept_alike_keep.
Qed.

Lemma kept_alike_cons_head (c : char) (l1 l2 : list str) :
  kept_alike l1 l2 -> kept_alike (cons_head c l1) (cons_head c l2).
Proof.
  intros H p. rewrite !cons_head_prepend, !prepend_prepend. apply H.
Qed.

Lemma kept_alike_segs_onto (s : str) (k1 k2 : list str) :
  kept_alike k1 k2 -> kept_alike (segs_onto s k1) (segs_onto s k2).
Proof.
  intros H. induction s as [|c s IH]; simpl; [assumption|].
  destruct (is_linebreak c).
  - now apply kept_alike_break.
  - now apply kept_alike_cons_head.
Qed.

(** [splitlines] and [segs] differ by empty lines only. *)
Lemma splitlines_segs (n : nat) (s : str) :
  length s <= n -> kept_alike (splitlines s) (segs s).
Proof.
  assert (Hnil : kept_alike (splitlines []) (segs [])).
  { intros p. simpl. now rewrite app_nil_r. }
  revert s; induction n as [|n IH]; intros [|c s] Hn;
    try exact Hnil; try (simpl in Hn; lia).
  rewrite splitlines_cons. unfold segs. cbn [segs_onto]. simpl in Hn.
  destruct (is_linebreak c) eqn:Ec.
  - destruct s as [|d s'].
    + intros p. cbn [prepend segs_onto]. rewrite app_nil_r.
      unfold keep. simpl. reflexivity.
    + destruct ((c =? 13)%N && (d =? 10)%N) eqn:Ep.
      * apply andb_true_iff in Ep as [_ Ed]. apply N.eqb_eq in Ed. subst d.
        cbn [segs_onto]. replace (is_linebreak 10%N) with true by reflexivity.
        intros p. cbn [prepend]. rewrite app_nil_r.
        rewrite (keep_cons p (splitlines s')), (keep_cons p ([] :: _)).
        rewrite (keep_cons [] (segs_onto s' [[]])).
        f_equal. simpl. apply kept_alike_keep. apply IH. simpl in Hn. lia.
      * apply kept_alike_break. apply IH. lia.
  - apply kept_alike_cons_head. apply IH. lia.
Qed.

(** [normalize_text] keeps the non-blank segments, whitespace removed. *)
Lemma normalize_text_segs (text : str) : normalize_text text = keep (segs text).
Proof.
  rewrite normalize_text_eq. apply kept_alike_keep.
  apply (splitlines_segs (length text)). lia.
Qed.

Lemma segs_onto_app (a b : str) (k : list str) :
  segs_onto (a ++ b) k = segs_onto a (segs_onto b k).
Proof.
  induction a as [|c a IH]; simpl; [reflexivity|]. now rewrite IH.
Qed.

Lemma segs_onto_cons (a : str) (h : str) (t : list str) :
  segs_onto a (h :: t) = segs_onto a [h] ++ t.
Proof.
  induction a as [|c a IH]; simpl; [reflexivity|].
  destruct (is_linebreak c); rewrite IH; [reflexivity|].
  destruct (segs_onto a [h]) eqn:E; [|reflexivity].
  exfalso. clear - E. destruct a as [|x a]; simpl in E; [discriminate|].
  destruct (is_linebreak x); [discriminate|].
  destruct (segs_onto a [h]); discriminate.
Qed.

Lemma segs_onto_no_break (a h : str) :
  existsb is_linebreak a = false -> segs_onto a [h] = [a ++ h].
Proof.
  induction a as [|c a IH]; simpl; [reflexivity|].
  intros H. apply orb_false_iff in H as [-> H]. now rewrite IH.
Qed.

Lemma line_tail_no_break (a : str) :
  existsb is_linebreak a = false -> line_tail a = a.
Proof.
  destruct a as [|c a]; simpl; [reflexivity|].
  intros H. apply orb_false_iff in H as [-> ->]. reflexivity.
Qed.

Lemma hd_segs (r : str) : exists t, segs r = line_head r :: t.
Proof.
  unfold segs. induction r as [|c r [t IH]]; simpl; [now exists []|].
  destruct (is_linebreak c); [eexists; reflexivity|].
  rewrite IH. simpl. eexists; reflexivity.
Qed.

(** After a blank line tail, what follows is kept on its own. *)
Lemma keep_after_blank_tail_multi (l : str) :
  existsb is_linebreak l = true ->
  blank (line_tail l) = true ->
  forall p h,
    keep (prepend p (segs_onto l [h]))
    = keep (prepend p (segs_onto l [[]])) ++ keep [h].
Proof.
  induction l as [|c l IH]; [discriminate|].
  cbn [existsb line_tail segs_onto]. intros Hex Hb p h.
  destruct (existsb is_linebreak l) eqn:El.
  - destruct (is_linebreak c).
    + cbn [prepend]. rewrite app_nil_r.
      rewrite (keep_cons p (segs_onto l [h])), (keep_cons p (segs_onto l [[]])).
      rewrite <- app_assoc. f_equal.
      specialize (IH eq_refl Hb [] h). now rewrite !keep_prepend_nil in IH.
    + rewrite !cons_head_prepend, !prepend_prepend. now apply IH.
  - rewrite orb_false_r in Hex. rewrite Hex in *.
    rewrite !segs_onto_no_break by assumption. cbn [prepend].
    rewrite !app_nil_r.
    rewrite (keep_cons p [l ++ h]), (keep_cons p [l]).
    rewrite (keep_single_app_blank_l _ _ Hb), (keep_blank _ Hb).
    now rewrite app_nil_r.
Qed.

Lemma keep_after_blank_tail (l h : str) :
  blank (line_tail l) = true ->
  keep (segs_onto l [h]) = keep (segs l) ++ keep [h].
Proof.
  intros Hb. destruct (existsb is_linebreak l) eqn:El.
  - pose proof (keep_after_blank_tail_multi l El Hb [] h) as H.
    now rewrite !keep_prepend_nil in H.
  - unfold segs. rewrite !segs_onto_no_break by assumption.
    rewrite line_tail_no_break in Hb by assumption.
    rewrite app_nil_r, (keep_single_app_blank_l _ _ Hb), (keep_blank _ Hb).
    reflexivity.
Qed.

Lemma kept_alike_space (c : char) (k : list str) :
  is_space c = true -> kept_alike (cons_head c k) k.
Proof.
  intros Hc p. rewrite cons_head_prepend, prepend_prepend.
  assert (Hs : forall x, keep [p ++ [c] ++ x] = keep [p ++ x]).
  { intros x. unfold keep. simpl.
    rewrite !blank_app. cbn [blank forallb]. rewrite Hc. cbn [andb].
    fold (blank x). destruct (negb (blank p && blank x)); [|reflexivity].
    cbn [map]. rewrite !squash_app. cbn [squash filter]. now rewrite Hc. }
  destruct k as [|h t]; cbn [prepend].
  - rewrite <- (app_nil_r (p ++ [c])), <- app_assoc, Hs. now rewrite app_nil_r.
  - rewrite (keep_cons _ t), (keep_cons (p ++ h) t).
    now rewrite <- app_assoc, Hs.
Qed.

Lemma kept_alike_blank_head (h : str) (t : list str) :
  blank h = true -> kept_alike ([] :: h :: t) (h :: t).
Proof.
  intros Hb p. cbn [prepend]. rewrite app_nil_r.
  rewrite (keep_cons p), (keep_cons h), (keep_cons (p ++ h)).
  now rewrite (keep_single_app_blank_r _ _ Hb), (keep_blank _ Hb).
Qed.

Lemma ws_insert_normalize (t1 t2 : str) :
  ws_insert t1 t2 -> normalize_text t1 = normalize_text t2.
Proof.
  intros H. rewrite !normalize_text_segs. unfold segs.
  destruct H as [l c r Hs Hl | l c r Hl Hb]; rewrite !segs_onto_app.
  - symmetry. apply kept_alike_keep, kept_alike_segs_onto.
    cbn [segs_onto]. rewrite Hl. now apply kept_alike_space.
  - cbn [segs_onto]. rewrite Hl.
    destruct (hd_segs r) as [t Hr]. unfold segs in Hr. rewrite Hr.
    apply orb_true_iff in Hb as [Hb | Hb].
    + rewrite (segs_onto_cons l [] (line_head r :: t)).
      rewrite (segs_onto_cons l (line_head r) t).
      rewrite !keep_app, (keep_after_blank_tail _ _ Hb).
      rewrite (keep_cons (line_head r) t). unfold segs.
      now rewrite <- app_assoc.
    + symmetry. apply kept_alike_keep, kept_alike_segs_onto.
      now apply kept_alike_blank_head.
Qed.

Lemma ws_equiv_normalize (t1 t2 : str) :
  ws_equiv t1 t2 -> normalize_text t1 = normalize_text t2.
Proof.
  induction 1 as [x y H | x | x y _ IH | x y z _ IH1 _ IH2].
  - now apply ws_insert_normalize.
  - reflexivity.
  - now symmetry.
  - now transitivity (normalize_text y).
Qed.

(* ================================================================== *)
(** ** Facts about dicts and Python equality *)

Lemma py_eqb_list (la lb : list json) :
  py_eqb (JList la) (JList lb) = forall2b py_eqb la lb.
Proof.
  revert lb; induction la as [|x la IH]; intros [|y lb]; try reflexivity.
  cbn [forall2b]. rewrite <- IH. reflexivity.
Qed.

Lemma py_eqb_dict (da db : dict) :
  py_eqb (JDict da) (JDict db)
  = (length da =? length db)
    && forallb (fun kv => match dict_get (fst kv) db with
                          | Some w => py_eqb (snd kv) w
                          | None => false
                          end) da.
Proof.
  cbn [py_eqb]. f_equal.
  induction da as [|[k v] da IH]; [reflexivity|].
  cbn [forallb fst snd]. rewrite <- IH. reflexivity.
Qed.

Lemma dict_get_In (k : str) (v : json) (d : dict) :
  dict_get k d = Some v -> In (k, v) d.
Proof.
  induction d as [|[k' w] d IH]; simpl; [discriminate|].
  destruct (str_eqb k k') eqn:E.
  - apply str_eqb_eq in E. subst. intros [= ->]. now left.
  - intros H. right. auto.
Qed.

Lemma py_eqb_dict_get (da db : dict) (k : str) (v : json) :
  py_eqb (JDict da) (JDict db) = true ->
  dict_get k da = Some v ->
  exists w, dict_get k db = Some w /\ py_eqb v w = true.
Proof.
  rewrite py_eqb_dict. intros H Hg.
  apply andb_true_iff in H as [_ H].
  apply dict_get_In in Hg.
  apply (proj1 (forallb_forall _ _) H) in Hg. cbn [fst snd] in Hg.
  destruct (dict_get k db) as [w|]; [|discriminate]. now exists w.
Qed.

Lemma forall2b_nth {A B} (f : A -> B -> bool) (la : list A) (lb : list B)
      (i : nat) (x : A) (y : B) :
  forall2b f la lb = true ->
  nth_error la i = Some x -> nth_error lb i = Some y -> f x y = true.
Proof.
  revert lb i; induction la as [|a la IH]; intros [|b lb] [|i] H Hx Hy;
    try discriminate; cbn in *; apply andb_true_iff in H as [H1 H2].
  - congruence.
  - eauto.
Qed.

Lemma dict_set_replace (k : str) (v : json) (d : dict) :
  dict_mem k d = true -> dict_set k v d = dict_replace k v d.
Proof.
  unfold dict_mem. induction d as [|[k' w] d IH]; simpl; [discriminate|].
  destruct (str_eqb k k'); [reflexivity|].
  intros H. now rewrite IH.
Qed.

Lemma dict_replace_absent (k : str) (v : json) (d : dict) :
  dict_mem k d = false -> dict_replace k v d = d.
Proof.
  unfold dict_mem. induction d as [|[k' w] d IH]; simpl; [reflexivity|].
  destruct (str_eqb k k'); [discriminate|].
  intros H. now rewrite IH.
Qed.

Lemma clear_field_dict (k : str) (v : json) (d : dict) :
  clear_field k v (JDict d) = Some (JDict (dict_replace k v d)).
Proof.
  unfold clear_field. cbn [py_in].
  destruct (dict_mem k d) eqn:E.
  - now rewrite dict_set_replace.
  - now rewrite dict_replace_absent.
Qed.

Lemma dict_get_replace_same (k : str) (v : json) (d : dict) :
  dict_get k (dict_replace k v d)
  = match dict_get k d with Some _ => Some v | None => None end.
Proof.
  induction d as [|[k' w] d IH]; simpl; [reflexivity|].
  destruct (str_eqb k k') eqn:E; simpl; rewrite E; [reflexivity|assumption].
Qed.

Lemma dict_get_replace_other (k k' : str) (v : json) (d : dict) :
  k <> k' -> dict_get k' (dict_replace k v d) = dict_get k' d.
Proof.
  intros Hne. induction d as [|[k0 w] d IH]; simpl; [reflexivity|].
  destruct (str_eqb k k0) eqn:E; simpl.
  - apply str_eqb_eq in E. subst k0.
    destruct (str_eqb k' k) eqn:E'; [|reflexivity].
    apply str_eqb_eq in E'. congruence.
  - destruct (str_eqb k' k0); [reflexivity|assumption].
Qed.

Lemma dict_replace_keys (k : str) (v : json) (d : dict) :
  map fst (dict_replace k v d) = map fst d.
Proof.
  induction d as [|[k' w] d IH]; simpl; [reflexivity|].
  destruct (str_eqb k k'); simpl; [reflexivity|now rewrite IH].
Qed.

Lemma dict_replace_twice (k : str) (v v' : json) (d : dict) :
  dict_replace k v (dict_replace k v' d) = dict_replace k v d.
Proof.
  induction d as [|[k' w] d IH]; simpl; [reflexivity|].
  destruct (str_eqb k k') eqn:E; simpl; rewrite E; [reflexivity|now rewrite IH].
Qed.

Lemma dict_replace_comm (k k' : str) (v v' : json) (d : dict) :
  k <> k' ->
  dict_replace k v (dict_replace k' v' d)
  = dict_replace k' v' (dict_replace k v d).
Proof.
  intros Hne. induction d as [|[k0 w] d IH]; simpl; [reflexivity|].
  destruct (str_eqb k' k0) eqn:E'; destruct (str_eqb k k0) eqn:E; simpl;
    rewrite ?E, ?E'; try reflexivity.
  - apply str_eqb_eq in E, E'. congruence.
  - now rewrite IH.
Qed.

Lemma dict_mem_get (k : str) (d : dict) :
  dict_mem k d = match dict_get k d with Some _ => true | None => false end.
Proof. reflexivity. Qed.

Lemma mapM_Forall2 {A B} (f : A -> option B) (l : list A) (l' : list B) :
  mapM f l = Some l' <-> Forall2 (fun x y => f x = Some y) l l'.
Proof.
  revert l'; induction l as [|x l IH]; intros l'; simpl.
  - split; [intros [= <-]; constructor|]. inversion 1. reflexivity.
  - destruct (f x) as [y|] eqn:E.
    + destruct (mapM f l) as [r|] eqn:Er; simpl.
      * split.
        -- intros [= <-]. constructor; [assumption|]. now apply IH.
        -- inversion 1; subst. f_equal.
           assert (y0 = y) by congruence. subst.
           f_equal. apply IH in H4. congruence.
      * split; [discriminate|]. inversion 1; subst.
        apply IH in H4. discriminate.
    + split; [discriminate|]. inversion 1; subst. congruence.
Qed.

Lemma mapM_same {A} (f : A -> option A) (l : list A) :
  Forall (fun x => f x = Some x) l -> mapM f l = Some l.
Proof.
  induction 1 as [|x l Hx _ IH]; simpl; [reflexivity|].
  now rewrite Hx, IH.
Qed.

Lemma well_keyed_list (l : list json) :
  well_keyed (JList l) <-> Forall well_keyed l.
Proof.
  cbn [well_keyed]. induction l as [|x l IH]; split; intros H.
  - constructor.
  - exact I.
  - destruct H as [Hx Hl]. constructor; [assumption|now apply IH].
  - inversion H; subst. split; [assumption|now apply IH].
Qed.

Lemma well_keyed_dict (d : dict) :
  well_keyed (JDict d)
  <-> NoDup (map fst d) /\ Forall (fun kv => well_keyed (snd kv)) d.
Proof.
  cbn [well_keyed].
  assert (H : (fix all (d : dict) : Prop :=
                 match d with
                 | [] => True
                 | (_, v) :: d' => well_keyed v /\ all d'
                 end) d <-> Forall (fun kv => well_keyed (snd kv)) d).
  { induction d as [|[k v] d IH]; split; intros H.
    - constructor.
    - exact I.
    - destruct H as [Hx Hl]. constructor; [assumption|now apply IH].
    - inversion H; subst. split; [assumption|now apply IH]. }
  tauto.
Qed.

Lemma dict_get_unique (k : str) (v : json) (d : dict) :
  NoDup (map fst d) -> In (k, v) d -> dict_get k d = Some v.
Proof.
  induction d as [|[k' w] d IH]; simpl; [contradiction|].
  intros Hu [H|H].
  - injection H as -> ->. now rewrite str_eqb_refl.
  - apply NoDup_cons_iff in Hu as [Hnotin Hu].
    destruct (str_eqb k k') eqn:E; [|auto].
    apply str_eqb_eq in E. subst k'. exfalso. apply Hnotin.
    apply in_map_iff. now exists (k, v).
Qed.

(** On documents with unique keys Python's [==] is reflexive. *)
Lemma py_eqb_refl (j : json) : well_keyed j -> py_eqb j j = true.
Proof.
  induction j as [| b | z | s | l IH | d IH] using json_induction;
    intros Hw; try reflexivity.
  - apply eqb_reflx.
  - apply Z.eqb_refl.
  - apply str_eqb_refl.
  - rewrite py_eqb_list. apply well_keyed_list in Hw.
    induction l as [|x l IHl]; [reflexivity|].
    inversion IH; subst. inversion Hw; subst. cbn [forall2b].
    apply andb_true_iff. split; auto.
  - rewrite py_eqb_dict, Nat.eqb_refl. cbn [andb].
    apply well_keyed_dict in Hw as [Hu Hw].
    apply forallb_forall. intros [k v] Hin. cbn [fst snd].
    rewrite (dict_get_unique k v d Hu Hin).
    rewrite Forall_forall in IH, Hw.
    apply (IH (k, v) Hin). apply (Hw (k, v) Hin).
Qed.

(* ================================================================== *)
(** ** Facts about [normalize_notebook] *)

Ltac key_neq :=
  let H := fresh in intros H; cbv in H; discriminate H.

Lemma clear_field_not_dict (k : str) (v obj obj' : json) :
  (forall d, obj <> JDict d) ->
  clear_field k v obj = Some obj' -> obj' = obj.
Proof.
  intros Hnd. unfold clear_field.
  destruct (py_in k obj) as [[|]|]; try discriminate.
  - destruct obj; try discriminate. now destruct (Hnd d).
  - now intros [= <-].
Qed.

Lemma clear_field_fixed (k : str) (v obj : json) :
  (forall d, obj <> JDict d) ->
  forall obj', clear_field k v obj = Some obj' ->
               clear_field k v obj = Some obj.
Proof.
  intros Hnd obj' H. pose proof (clear_field_not_dict _ _ _ _ Hnd H). congruence.
Qed.

Lemma normalize_output_dict (d : dict) :
  normalize_output (JDict d)
  = Some (JDict (dict_replace (u "metadata") (JDict [])
                   (dict_replace (u "execution_count") JNull d))).
Proof. unfold normalize_output. now rewrite !clear_field_dict. Qed.

Lemma normalize_output_not_dict (o o' : json) :
  (forall d, o <> JDict d) -> normalize_output o = Some o' -> o' = o.
Proof.
  intros Hnd. unfold normalize_output.
  destruct (clear_field (u "execution_count") JNull o) as [o1|] eqn:E1;
    [|discriminate].
  apply (clear_field_not_dict _ _ _ _ Hnd) in E1. subst o1.
  apply clear_field_not_dict. assumption.
Qed.

Lemma dict_or_not (o : json) : (exists d, o = JDict d) \/ forall d, o <> JDict d.
Proof. destruct o; try (right; intros; discriminate). left. eauto. Qed.

Lemma normalize_output_idem (o o' : json) :
  normalize_output o = Some o' -> normalize_output o' = Some o'.
Proof.
  destruct (dict_or_not o) as [[d ->]|Hnd].
  - rewrite normalize_output_dict. intros [= <-].
    rewrite normalize_output_dict. do 2 f_equal.
    rewrite (dict_replace_comm (u "execution_count") (u "metadata"))
      by key_neq.
    now rewrite !dict_replace_twice.
  - intros H. pose proof (normalize_output_not_dict _ _ Hnd H). congruence.
Qed.

Lemma for_in_place_list (f : json -> option json) (l : list json) :
  for_in_place f (JList l) = option_map JList (mapM f l).
Proof. reflexivity. Qed.

Lemma for_in_place_not_list (f : json -> option json) (c c' : json) :
  (forall l, c <> JList l) -> for_in_place f c = Some c' -> c' = c.
Proof.
  intros Hnl. destruct c; simpl; try discriminate.
  - destruct (mapM _ s); simpl; congruence.
  - now destruct (Hnl l).
  - destruct (mapM _ d); simpl; congruence.
Qed.

Lemma for_in_place_idem (f : json -> option json) (c c' : json) :
  (forall x y, f x = Some y -> f y = Some y) ->
  for_in_place f c = Some c' -> for_in_place f c' = Some c'.
Proof.
  intros Hf. destruct c; simpl; try discriminate.
  - destruct (mapM _ s) eqn:E; simpl; [|discriminate].
    intros [= <-]. simpl. now rewrite E.
  - destruct (mapM f l) as [l'|] eqn:E; simpl; [|discriminate].
    intros [= <-]. simpl.
    rewrite (mapM_same f l'); [reflexivity|].
    apply mapM_Forall2 in E. clear - E Hf.
    induction E; constructor; eauto.
  - destruct (mapM _ d) eqn:E; simpl; [|discriminate].
    intros [= <-]. simpl. now rewrite E.
Qed.

Lemma reset_cell_get (k : str) (d : dict) :
  k <> u "execution_count" -> k <> u "metadata" ->
  dict_get k (reset_cell d) = dict_get k d.
Proof.
  intros H1 H2. unfold reset_cell.
  rewrite !dict_get_replace_other; auto.
Qed.

Lemma reset_cell_idem (d : dict) : reset_cell (reset_cell d) = reset_cell d.
Proof.
  unfold reset_cell.
  rewrite (dict_replace_comm (u "execution_count") (u "metadata"))
    by key_neq.
  now rewrite !dict_replace_twice.
Qed.

Lemma reset_cell_replace_outputs (v : json) (d : dict) :
  reset_cell (dict_replace (u "outputs") v d)
  = dict_replace (u "outputs") v (reset_cell d).
Proof.
  unfold reset_cell.
  rewrite (dict_replace_comm (u "execution_count") (u "outputs")) by key_neq.
  now rewrite (dict_replace_comm (u "metadata") (u "outputs")) by key_neq.
Qed.

Lemma normalize_cell_dict (d : dict) :
  normalize_cell (JDict d)
  = match dict_get (u "outputs") d with
    | None => Some (JDict (reset_cell d))
    | Some outputs =>
        option_map
          (fun outputs' =>
             JDict (dict_replace (u "outputs") outputs' (reset_cell d)))
          (for_in_place normalize_output outputs)
    end.
Proof.
  unfold normalize_cell. rewrite !clear_field_dict. fold (reset_cell d).
  cbn [py_in]. rewrite dict_mem_get.
  rewrite (reset_cell_get (u "outputs") d) by key_neq.
  destruct (dict_get (u "outputs") d) as [outs|] eqn:E; [|reflexivity].
  destruct (for_in_place normalize_output outs) as [o'|]; simpl; [|reflexivity].
  rewrite dict_set_replace; [reflexivity|].
  rewrite dict_mem_get, (reset_cell_get (u "outputs") d) by key_neq.
  now rewrite E.
Qed.

Lemma normalize_cell_not_dict (c c' : json) :
  (forall d, c <> JDict d) -> normalize_cell c = Some c' -> c' = c.
Proof.
  intros Hnd. unfold normalize_cell.
  destruct (clear_field (u "execution_count") JNull c) as [c1|] eqn:E1;
    [|discriminate].
  apply (clear_field_not_dict _ _ _ _ Hnd) in E1. subst c1.
  destruct (clear_field (u "metadata") (JDict []) c) as [c2|] eqn:E2;
    [|discriminate].
  apply (clear_field_not_dict _ _ _ _ Hnd) in E2. subst c2.
  destruct (py_in (u "outputs") c) as [[|]|]; try discriminate.
  - destruct c; try discriminate. now destruct (Hnd d).
  - now intros [= <-].
Qed.

Lemma normalize_cell_idem (c c' : json) :
  normalize_cell c = Some c' -> normalize_cell c' = Some c'.
Proof.
  destruct (dict_or_not c) as [[d ->]|Hnd].
  - rewrite normalize_cell_dict.
    destruct (dict_get (u "outputs") d) as [outs|] eqn:E.
    + destruct (for_in_place normalize_output outs) as [o'|] eqn:Eo;
        simpl; [|discriminate].
      intros [= <-]. rewrite normalize_cell_dict.
      rewrite dict_get_replace_same,
        (reset_cell_get (u "outputs") d), E by key_neq.
      rewrite (for_in_place_idem _ _ _ normalize_output_idem Eo). simpl.
      do 2 f_equal.
      rewrite reset_cell_replace_outputs, reset_cell_idem.
      apply dict_replace_twice.
    + intros [= <-]. rewrite normalize_cell_dict.
      rewrite (reset_cell_get (u "outputs") d), E by key_neq.
      now rewrite reset_cell_idem.
  - intros H. pose proof (normalize_cell_not_dict _ _ Hnd H). congruence.
Qed.

Lemma normalize_notebook_dict (d : dict) :
  normalize_notebook (JDict d)
  = let d1 := dict_replace (u "metadata") (JDict []) d in
    match dict_get (u "cells") d with
    | None => Some (JDict d1)
    | Some cells =>
        option_map
          (fun cells' => JDict (dict_replace (u "cells") cells' d1))
          (for_in_place normalize_cell cells)
    end.
Proof.
  unfold normalize_notebook. rewrite clear_field_dict. cbv zeta.
  rewrite (dict_get_replace_other (u "metadata") (u "cells")) by key_neq.
  destruct (dict_get (u "cells") d) as [cells|] eqn:E; [|reflexivity].
  destruct (for_in_place normalize_cell cells) as [c'|]; simpl; [|reflexivity].
  rewrite dict_set_replace; [reflexivity|].
  rewrite dict_mem_get,
    (dict_get_replace_other (u "metadata") (u "cells")) by key_neq.
  now rewrite E.
Qed.

Lemma normalize_notebook_is_dict (nb n : json) :
  normalize_notebook nb = Some n -> exists d, nb = JDict d.
Proof.
  destruct (dict_or_not nb) as [H|Hnd]; [auto|].
  unfold normalize_notebook.
  destruct (clear_field (u "metadata") (JDict []) nb) as [nb1|] eqn:E;
    [|discriminate].
  apply (clear_field_not_dict _ _ _ _ Hnd) in E. subst nb1.
  destruct nb; try discriminate. now destruct (Hnd d).
Qed.

Lemma normalize_notebook_idem (nb n : json) :
  normalize_notebook nb = Some n -> normalize_notebook n = Some n.
Proof.
  intros H. destruct (normalize_notebook_is_dict _ _ H) as [d ->].
  revert H. rewrite normalize_notebook_dict. cbv zeta.
  destruct (dict_get (u "cells") d) as [cells|] eqn:E.
  - destruct (for_in_place normalize_cell cells) as [c'|] eqn:Ec;
      simpl; [|discriminate].
    intros [= <-]. rewrite normalize_notebook_dict. cbv zeta.
    rewrite dict_get_replace_same,
      (dict_get_replace_other (u "metadata") (u "cells")), E by key_neq.
    rewrite (for_in_place_idem _ _ _ normalize_cell_idem Ec). simpl.
    do 2 f_equal.
    rewrite (dict_replace_comm (u "metadata") (u "cells")) by key_neq.
    now rewrite !dict_replace_twice.
  - intros [= <-]. rewrite normalize_notebook_dict. cbv zeta.
    rewrite (dict_get_replace_other (u "metadata") (u "cells")), E by key_neq.
    now rewrite dict_replace_twice.
Qed.

(** *** What normalization keeps *)

Lemma kept_except_refl (ks : list str) (a : json) : kept_except ks a a.
Proof. destruct a; simpl; auto. Qed.

Lemma str_mem_cons_false (k x : str) (ks : list str) :
  str_mem k (x :: ks) = false -> k <> x /\ str_mem k ks = false.
Proof.
  unfold str_mem. simpl. intros H. apply orb_false_iff in H as [H1 H2].
  split; [now apply str_eqb_neq|assumption].
Qed.

Lemma normalize_output_kept (o o' : json) :
  normalize_output o = Some o' -> kept_except output_volatile o o'.
Proof.
  destruct (dict_or_not o) as [[d ->]|Hnd].
  - rewrite normalize_output_dict. intros [= <-]. cbn [kept_except]. split.
    + now rewrite !dict_replace_keys.
    + intros k Hk.
      apply str_mem_cons_false in Hk as [H1 Hk].
      apply str_mem_cons_false in Hk as [H2 _].
      rewrite !dict_get_replace_other; auto.
  - intros H. rewrite (normalize_output_not_dict _ _ Hnd H).
    apply kept_except_refl.
Qed.

Lemma normalize_cell_kept (c c' : json) :
  normalize_cell c = Some c' -> cell_kept c c'.
Proof.
  destruct (dict_or_not c) as [[d ->]|Hnd].
  - rewrite normalize_cell_dict.
    destruct (dict_get (u "outputs") d) as [outs|] eqn:E.
    + destruct (for_in_place normalize_output outs) as [o'|] eqn:Eo;
        simpl; [|discriminate].
      intros [= <-]. split.
      * cbn [kept_except]. split.
        -- unfold reset_cell. now rewrite !dict_replace_keys.
        -- intros k Hk.
           apply str_mem_cons_false in Hk as [H1 Hk].
           apply str_mem_cons_false in Hk as [H2 Hk].
           apply str_mem_cons_false in Hk as [H3 _].
           rewrite dict_get_replace_other by auto.
           now apply reset_cell_get.
      * intros d0 outs0 [= <-] Ho. rewrite E in Ho. injection Ho as ->.
        rewrite for_in_place_list in Eo.
        destruct (mapM normalize_output outs0) as [outs'|] eqn:Em;
          [|discriminate].
        injection Eo as <-. eexists _, outs'. split; [reflexivity|]. split.
        -- rewrite dict_get_replace_same,
             (reset_cell_get (u "outputs") d), E by key_neq.
           reflexivity.
        -- apply mapM_Forall2 in Em. clear - Em.
           induction Em; constructor; auto using normalize_output_kept.
    + intros [= <-]. split.
      * cbn [kept_except]. split.
        -- unfold reset_cell. now rewrite !dict_replace_keys.
        -- intros k Hk.
           apply str_mem_cons_false in Hk as [H1 Hk].
           apply str_mem_cons_false in Hk as [H2 _].
           now apply reset_cell_get.
      * intros d0 outs0 [= <-] Ho. congruence.
  - intros H. rewrite (normalize_cell_not_dict _ _ Hnd H). split.
    + apply kept_except_refl.
    + intros d outs Hd _. now destruct (Hnd d).
Qed.

Lemma normalize_notebook_cells (d : dict) (cells : list json) (n : json) :
  dict_get (u "cells") d = Some (JList cells) ->
  normalize_notebook (JDict d) = Some n ->
  exists d' cells',
    n = JDict d' /\ map fst d' = map fst d
    /\ dict_get (u "cells") d' = Some (JList cells')
    /\ Forall2 (fun c c' => normalize_cell c = Some c') cells cells'
    /\ forall k, k <> u "metadata" -> k <> u "cells" ->
                 dict_get k d' = dict_get k d.
Proof.
  intros Hc. rewrite normalize_notebook_dict. cbv zeta. rewrite Hc.
  rewrite for_in_place_list.
  destruct (mapM normalize_cell cells) as [cells'|] eqn:Em; [|discriminate].
  simpl. intros [= <-]. eexists _, cells'. split; [reflexivity|].
  split; [now rewrite !dict_replace_keys|]. split; [|split].
  - rewrite dict_get_replace_same,
      (dict_get_replace_other (u "metadata") (u "cells")), Hc by key_neq.
    reflexivity.
  - now apply mapM_Forall2.
  - intros k H1 H2. rewrite !dict_get_replace_other; auto.
Qed.

Lemma Forall2_nth_error {A B} (R : A -> B -> Prop) (la : list A) (lb : list B)
      (i : nat) (x : A) :
  Forall2 R la lb -> nth_error la i = Some x ->
  exists y, nth_error lb i = Some y /\ R x y.
Proof.
  intros H; revert i; induction H as [|a b la lb Hab _ IH]; intros [|i] Hx;
    try discriminate; simpl in *.
  - injection Hx as <-. eauto.
  - eauto.
Qed.

(** A field of a cell outside the volatile ones is found unchanged in
    the normalized notebook, at the same position. *)
Lemma normalize_notebook_cell_field (k : str) (i : nat) (nb n v : json) :
  str_mem k cell_volatile = false ->
  cell_field k i nb = Some v ->
  normalize_notebook nb = Some n ->
  cell_field k i n = Some v.
Proof.
  intros Hk Hf Hn. unfold cell_field in Hf.
  destruct nb as [| | | | |d]; try discriminate.
  destruct (dict_get (u "cells") d) as [[| | | |cells|]|] eqn:Ec;
    try discriminate.
  destruct (nth_error cells i) as [[| | | | |c]|] eqn:Ei; try discriminate.
  destruct (normalize_notebook_cells _ _ _ Ec Hn)
    as (d' & cells' & -> & _ & Hc' & Hall & _).
  destruct (Forall2_nth_error _ _ _ _ _ Hall Ei) as (c' & Hi' & Hnc).
  unfold cell_field. rewrite Hc', Hi'.
  apply normalize_cell_kept in Hnc. destruct Hnc as [Hkept _].
  destruct c' as [| | | | |dc']; try discriminate Hkept.
  destruct Hkept as [_ Hkept]. now rewrite Hkept.
Qed.

Lemma py_eqb_cell_field (k : str) (i : nat) (a b va vb : json) :
  py_eqb a b = true ->
  cell_field k i a = Some va -> cell_field k i b = Some vb ->
  py_eqb va vb = true.
Proof.
  intros Heq Ha Hb. unfold cell_field in *.
  destruct a as [| | | | |da]; try discriminate.
  destruct b as [| | | | |db]; try discriminate.
  destruct (dict_get (u "cells") da) as [[| | | |la|]|] eqn:Ea;
    try discriminate.
  destruct (dict_get (u "cells") db) as [[| | | |lb|]|] eqn:Eb;
    try discriminate.
  destruct (nth_error la i) as [[| | | | |ca]|] eqn:Eia; try discriminate.
  destruct (nth_error lb i) as [[| | | | |cb]|] eqn:Eib; try discriminate.
  destruct (py_eqb_dict_get _ _ _ _ Heq Ea) as (w & Hw & Hl).
  rewrite Eb in Hw. injection Hw as <-.
  rewrite py_eqb_list in Hl.
  pose proof (forall2b_nth _ _ _ _ _ _ Hl Eia Eib) as Hc.
  destruct (py_eqb_dict_get _ _ _ _ Hc Ha) as (w & Hw & Hv).
  congruence.
Qed.

Lemma normalized_differ_on_cell_field (k : str) (i : nat)
      (a b na nb va vb : json) :
  str_mem k cell_volatile = false ->
  cell_field k i a = Some va -> cell_field k i b = Some vb ->
  py_eqb va vb = false ->
  normalize_notebook a = Some na -> normalize_notebook b = Some nb ->
  py_eqb na nb = false.
Proof.
  intros Hk Ha Hb Hne Hna Hnb.
  destruct (py_eqb na nb) eqn:E; [|reflexivity].
  pose proof (normalize_notebook_cell_field _ _ _ _ _ Hk Ha Hna) as Ha'.
  pose proof (normalize_notebook_cell_field _ _ _ _ _ Hk Hb Hnb) as Hb'.
  pose proof (py_eqb_cell_field _ _ _ _ _ _ E Ha' Hb'). congruence.
Qed.

(** *** Notebooks that differ in execution counters only *)

Lemma agree_except_weaken (ks ks' : list str) (da db : dict) :
  agree_except ks da db ->
  (forall x, In x (map fst da) -> str_mem x ks = true -> str_mem x ks' = true) ->
  agree_except ks' da db.
Proof.
  induction 1 as [|x y da db [Hk Hv] _ IH]; intros Hw; constructor.
  - split; [assumption|]. destruct Hv as [Hv|Hv]; [left|now right].
    apply Hw; [now left|assumption].
  - apply IH. intros z Hz. apply Hw. now right.
Qed.

Lemma agree_except_replace (k : str) (v : json) (ks ks' : list str)
      (da db : dict) :
  (forall x, str_mem x ks = true -> x = k \/ str_mem x ks' = true) ->
  unique_keys da ->
  agree_except ks da db ->
  agree_except ks' (dict_replace k v da) (dict_replace k v db).
Proof.
  intros Hks Hu H. induction H as [|[ka va] [kb vb] da db [Hk Hv] Hall IH].
  - constructor.
  - cbn [fst snd] in *. subst kb. cbn [dict_replace].
    unfold unique_keys in Hu. cbn [map fst] in Hu.
    apply NoDup_cons_iff in Hu as [Hnotin Hu].
    destruct (str_eqb k ka) eqn:E.
    + apply str_eqb_eq in E. subst ka. constructor.
      * split; [reflexivity|now right].
      * apply (agree_except_weaken ks); [assumption|].
        intros x Hx Hm. destruct (Hks x Hm) as [->|]; [contradiction|assumption].
    + constructor; [|now apply IH].
      split; [reflexivity|]. cbn [fst snd].
      destruct Hv as [Hv|Hv]; [|now right]. left.
      destruct (Hks ka Hv) as [->|]; [|assumption].
      now rewrite str_eqb_refl in E.
Qed.

Lemma agree_except_nil (da db : dict) : agree_except [] da db -> da = db.
Proof.
  induction 1 as [|[ka va] [kb vb] da db [Hk Hv] _ IH]; [reflexivity|].
  cbn [fst snd] in *. destruct Hv as [Hv|Hv]; [discriminate|]. congruence.
Qed.

Lemma agree_except_get (k : str) (ks : list str) (da db : dict) :
  agree_except ks da db -> str_mem k ks = false ->
  dict_get k da = dict_get k db.
Proof.
  intros H Hk. induction H as [|[ka va] [kb vb] da db [Hkk Hv] _ IH];
    [reflexivity|].
  cbn [fst snd] in *. subst kb. cbn [dict_get].
  destruct (str_eqb k ka) eqn:E; [|assumption].
  apply str_eqb_eq in E. subst ka.
  destruct Hv as [Hv|Hv]; congruence.
Qed.

Lemma agree_except_mem (k : str) (ks : list str) (da db : dict) :
  agree_except ks da db -> dict_mem k da = dict_mem k db.
Proof.
  unfold dict_mem.
  induction 1 as [|[ka va] [kb vb] da db [Hkk _] _ IH]; [reflexivity|].
  cbn [fst snd] in *. subst kb. cbn [dict_get].
  destruct (str_eqb k ka); [reflexivity|assumption].
Qed.

Lemma unique_keys_replace (k : str) (v : json) (d : dict) :
  unique_keys d -> unique_keys (dict_replace k v d).
Proof. unfold unique_keys. now rewrite dict_replace_keys. Qed.

Ltac mem_cases :=
  let x := fresh "x" in
  let H := fresh "H" in
  intros x H; unfold str_mem in H; cbn [existsb] in H;
  repeat (apply orb_true_iff in H as [H|H]);
  try discriminate H;
  apply str_eqb_eq in H; subst x;
  first [ left; reflexivity | right; reflexivity ].

Lemma output_variant_normalize (a b : json) :
  output_variant a b -> normalize_output a = normalize_output b.
Proof.
  destruct a as [| | | | |da]; try (now intros <-).
  destruct b as [| | | | |db]; try (intros H; discriminate H).
  intros [Hu H]. rewrite !normalize_output_dict. do 3 f_equal.
  apply agree_except_nil.
  apply (agree_except_replace _ _ [u "execution_count"] []);
    [mem_cases|assumption|assumption].
Qed.

Lemma mapM_ext_Forall2 {A B} (f : A -> option B) (la lb : list A) :
  Forall2 (fun x y => f x = f y) la lb -> mapM f la = mapM f lb.
Proof.
  induction 1 as [|x y la lb Hxy _ IH]; [reflexivity|].
  simpl. now rewrite Hxy, IH.
Qed.

Lemma Forall2_impl {A B} (R R' : A -> B -> Prop) (la : list A) (lb : list B) :
  (forall x y, R x y -> R' x y) -> Forall2 R la lb -> Forall2 R' la lb.
Proof. intros HR. induction 1; constructor; auto. Qed.

Lemma cell_variant_normalize (a b : json) :
  cell_variant a b -> normalize_cell a = normalize_cell b.
Proof.
  destruct a as [| | | | |da]; try (now intros <-).
  destruct b as [| | | | |db]; try (intros H; discriminate H).
  intros (Hu & H & Ho). rewrite !normalize_cell_dict.
  assert (Hr : agree_except [u "outputs"] (reset_cell da) (reset_cell db)).
  { unfold reset_cell.
    apply (agree_except_replace _ _ [u "outputs"] [u "outputs"]);
      [mem_cases|now apply unique_keys_replace|].
    apply (agree_except_replace _ _ [u "execution_count"; u "outputs"]
                                [u "outputs"]);
      [mem_cases|assumption|assumption]. }
  assert (Hur : unique_keys (reset_cell da)).
  { unfold reset_cell. now do 2 apply unique_keys_replace. }
  assert (Hset : forall v, dict_replace (u "outputs") v (reset_cell da)
                           = dict_replace (u "outputs") v (reset_cell db)).
  { intros v. apply agree_except_nil.
    apply (agree_except_replace _ _ [u "outputs"] []);
      [mem_cases|assumption|assumption]. }
  assert (Hres : reset_cell da = reset_cell db
                 \/ dict_get (u "outputs") da <> None).
  { destruct (dict_get (u "outputs") da) eqn:E; [right; discriminate|].
    left. rewrite <- (dict_replace_absent (u "outputs") JNull (reset_cell da)),
            <- (dict_replace_absent (u "outputs") JNull (reset_cell db)).
    - apply Hset.
    - rewrite <- (agree_except_mem (u "outputs") _ _ _ Hr).
      rewrite dict_mem_get, reset_cell_get, E by key_neq. reflexivity.
    - rewrite dict_mem_get, reset_cell_get, E by key_neq. reflexivity. }
  destruct Ho as [Ho | (la & lb & Ha & Hb & Hl)].
  - rewrite <- Ho. destruct (dict_get (u "outputs") da) as [outs|].
    + destruct (for_in_place normalize_output outs); simpl; [|reflexivity].
      now rewrite Hset.
    + destruct Hres as [->|Hres]; [reflexivity|congruence].
  - rewrite Ha, Hb, !for_in_place_list.
    rewrite (mapM_ext_Forall2 normalize_output la lb).
    + destruct (mapM normalize_output lb); simpl; [|reflexivity].
      now rewrite Hset.
    + eapply Forall2_impl; [|exact Hl]. apply output_variant_normalize.
Qed.

Lemma notebook_variant_normalize (a b : json) :
  notebook_variant a b -> normalize_notebook a = normalize_notebook b.
Proof.
  destruct a as [| | | | |da]; try (now intros <-).
  destruct b as [| | | | |db]; try (intros H; discriminate H).
  intros (Hu & H & Hc). rewrite !normalize_notebook_dict. cbv zeta.
  set (ra := dict_replace (u "metadata") (JDict []) da).
  set (rb := dict_replace (u "metadata") (JDict []) db).
  assert (Hr : agree_except [u "cells"] ra rb).
  { apply (agree_except_replace _ _ [u "cells"] [u "cells"]);
      [mem_cases|assumption|assumption]. }
  assert (Hset : forall v, dict_replace (u "cells") v ra
                           = dict_replace (u "cells") v rb).
  { intros v. apply agree_except_nil.
    apply (agree_except_replace _ _ [u "cells"] []);
      [mem_cases|now apply unique_keys_replace|assumption]. }
  destruct Hc as [Hc | (la & lb & Ha & Hb & Hl)].
  - rewrite <- Hc. destruct (dict_get (u "cells") da) as [cells|] eqn:E.
    + destruct (for_in_place normalize_cell cells); simpl; [|reflexivity].
      now rewrite Hset.
    + do 2 f_equal.
      rewrite <- (dict_replace_absent (u "cells") JNull ra),
        <- (dict_replace_absent (u "cells") JNull rb).
      * apply Hset.
      * rewrite <- (agree_except_mem (u "cells") _ _ _ Hr).
        unfold ra. rewrite dict_mem_get, dict_get_replace_other, E by key_neq.
        reflexivity.
      * unfold ra. rewrite dict_mem_get, dict_get_replace_other, E by key_neq.
        reflexivity.
  - rewrite Ha, Hb, !for_in_place_list.
    rewrite (mapM_ext_Forall2 normalize_cell la lb).
    + destruct (mapM normalize_cell lb); simpl; [|reflexivity].
      now rewrite Hset.
    + eapply Forall2_impl; [|exact Hl]. apply cell_variant_normalize.
Qed.

(** *** Unique keys are kept *)

Lemma well_keyed_get (k : str) (v : json) (d : dict) :
  well_keyed (JDict d) -> dict_get k d = Some v -> well_keyed v.
Proof.
  intros Hw Hg. apply well_keyed_dict in Hw as [_ Hw].
  apply dict_get_In in Hg. rewrite Forall_forall in Hw.
  apply (Hw (k, v) Hg).
Qed.

Lemma well_keyed_replace (k : str) (v : json) (d : dict) :
  well_keyed (JDict d) -> well_keyed v ->
  well_keyed (JDict (dict_replace k v d)).
Proof.
  intros Hw Hv. apply well_keyed_dict in Hw as [Hu Hw].
  apply well_keyed_dict. split; [now rewrite dict_replace_keys|].
  clear Hu. induction Hw as [|[k' w] d Hx Hd IH]; [constructor|].
  cbn [dict_replace]. destruct (str_eqb k k'); constructor; auto.
Qed.

Lemma normalize_output_well_keyed (o o' : json) :
  normalize_output o = Some o' -> well_keyed o -> well_keyed o'.
Proof.
  destruct (dict_or_not o) as [[d ->]|Hnd].
  - rewrite normalize_output_dict. intros [= <-] Hw.
    apply well_keyed_replace; [apply well_keyed_replace|]; auto.
    + exact I.
    + apply well_keyed_dict. split; constructor.
  - intros H. now rewrite (normalize_output_not_dict _ _ Hnd H).
Qed.

Lemma for_in_place_well_keyed (f : json -> option json) (c c' : json) :
  (forall x y, f x = Some y -> well_keyed x -> well_keyed y) ->
  for_in_place f c = Some c' -> well_keyed c -> well_keyed c'.
Proof.
  intros Hf. destruct (c) as [| | | |l|] eqn:Ec;
    try (intros H Hw; rewrite <- Ec in H;
         rewrite (for_in_place_not_list f c c'); subst c;
         [assumption|intros l; discriminate|assumption]).
  rewrite for_in_place_list.
  destruct (mapM f l) as [l'|] eqn:E; [|discriminate].
  intros [= <-] Hw. apply well_keyed_list. apply well_keyed_list in Hw.
  apply mapM_Forall2 in E. clear - E Hw Hf.
  induction E; inversion Hw; subst; constructor; eauto.
Qed.

Lemma reset_cell_well_keyed (d : dict) :
  well_keyed (JDict d) -> well_keyed (JDict (reset_cell d)).
Proof.
  intros Hw. unfold reset_cell.
  apply well_keyed_replace; [apply well_keyed_replace|]; auto.
  - exact I.
  - apply well_keyed_dict. split; constructor.
Qed.

Lemma normalize_cell_well_keyed (c c' : json) :
  normalize_cell c = Some c' -> well_keyed c -> well_keyed c'.
Proof.
  destruct (dict_or_not c) as [[d ->]|Hnd].
  - rewrite normalize_cell_dict.
    destruct (dict_get (u "outputs") d) as [outs|] eqn:E.
    + destruct (for_in_place normalize_output outs) as [o'|] eqn:Eo;
        simpl; [|discriminate].
      intros [= <-] Hw.
      apply well_keyed_replace; [now apply reset_cell_well_keyed|].
      apply (for_in_place_well_keyed _ _ _ normalize_output_well_keyed Eo).
      apply (well_keyed_get _ _ _ Hw E).
    + intros [= <-]. apply reset_cell_well_keyed.
  - intros H. now rewrite (normalize_cell_not_dict _ _ Hnd H).
Qed.

Lemma normalize_notebook_well_keyed (nb n : json) :
  normalize_notebook nb = Some n -> well_keyed nb -> well_keyed n.
Proof.
  intros H. destruct (normalize_notebook_is_dict _ _ H) as [d ->].
  revert H. rewrite normalize_notebook_dict. cbv zeta.
  assert (Hm : well_keyed (JDict d) ->
               well_keyed (JDict (dict_replace (u "metadata") (JDict []) d))).
  { intros Hw. apply well_keyed_replace; [assumption|].
    apply well_keyed_dict. split; constructor. }
  destruct (dict_get (u "cells") d) as [cells|] eqn:E.
  - destruct (for_in_place normalize_cell cells) as [c'|] eqn:Ec;
      simpl; [|discriminate].
    intros [= <-] Hw. apply well_keyed_replace; [auto|].
    apply (for_in_place_well_keyed _ _ _ normalize_cell_well_keyed Ec).
    apply (well_keyed_get _ _ _ Hw E).
  - intros [= <-]. assumption.
Qed.

(* ================================================================== *)
(** ** Facts about test resolution and the runner *)

Lemma insert_sorted_In (x y : str) (l : list str) :
  In y (insert_sorted x l) <-> y = x \/ In y l.
Proof.
  induction l as [|z l IH]; simpl.
  - intuition congruence.
  - destruct (str_leb x z); simpl; [intuition congruence|].
    rewrite IH. intuition congruence.
Qed.

Lemma sorted_In (y : str) (l : list str) : In y (sorted l) <-> In y l.
Proof.
  unfold sorted. induction l as [|x l IH]; simpl; [tauto|].
  rewrite insert_sorted_In, IH. intuition congruence.
Qed.

Lemma existsb_removelast {A} (f : A -> bool) (l : list A) :
  existsb f (removelast l) = true -> existsb f l = true.
Proof.
  induction l as [|x l IH]; [discriminate|].
  destruct l as [|y l]; [discriminate|].
  cbn [removelast existsb] in *. intros H.
  apply orb_true_iff in H as [H|H]; [now rewrite H|].
  apply IH in H. rewrite H. apply orb_true_r.
Qed.

Lemma not_in_xsim_not_under (path : str) :
  is_in_xsim_files_dir path = false -> under_xsim_files_dir path = false.
Proof.
  unfold is_in_xsim_files_dir, under_xsim_files_dir. intros H.
  destruct (existsb _ (removelast _)) eqn:E; [|reflexivity].
  apply existsb_removelast in E. congruence.
Qed.

Lemma discover_spec (ext : Externals) (pattern : str) (s : state) :
  exists tests,
    discover ext pattern s = (Return tests, s)
    /\ (forall t, In t tests ->
                  is_in_xsim_files_dir t = false
                  /\ In t (glob ext pattern (world s))).
Proof.
  unfold discover, bind, get_world, ret. eexists. split; [reflexivity|].
  intros t Ht. apply filter_In in Ht as [Ht Hx].
  apply (proj1 (sorted_In _ _)) in Ht.
  apply (proj1 (negb_true_iff _)) in Hx. split; assumption.
Qed.

(** The loop over the path arguments keeps the invariant: a test under
    an [xsim-files] directory was named as a file argument. *)
Lemma determine_tests_loop (ext : Externals) (args : list str) :
  forall (acc tests : list str) (s s' : state) (P : str -> Prop),
    (forall t, In t acc -> is_in_xsim_files_dir t = true -> P t) ->
    (forall t, In t args -> fs_isfile (world s) t = true ->
               endswith t (u ".tex") = true -> P t) ->
    for_fold args
      (fun tex_tests path =>
         w <- get_world ;;
         if fs_isfile w path && endswith path (u ".tex") then
           ret (tex_tests ++ [path])
         else if fs_isdir w path then
           filtered_files <-
             discover ext (path_join (path_join path (u "**")) (u "test_*.tex")) ;;
           ret (tex_tests ++ filtered_files)
         else
           print (NotFoundOrUnsupported path) ;; sys_exit 1)
      acc s = (Return tests, s') ->
    s' = s /\ forall t, In t tests -> is_in_xsim_files_dir t = true -> P t.
Proof.
  induction args as [|path args IH]; intros acc tests s s' P Hacc Hargs.
  - cbn [for_fold]. unfold ret. intros [= <- <-]. auto.
  - cbn [for_fold]. unfold bind at 1. unfold bind at 1. unfold get_world at 1.
    destruct (fs_isfile (world s) path && endswith path (u ".tex")) eqn:Ef.
    + unfold ret at 1. intros H.
      apply (IH _ _ _ _ P) in H; [assumption| |].
      * intros t Ht Hx. apply in_app_or in Ht as [Ht|[<-|[]]]; [auto|].
        apply andb_true_iff in Ef as [E1 E2]. apply Hargs; [now left|auto|auto].
      * intros t Ht. apply Hargs. now right.
    + destruct (fs_isdir (world s) path).
      * destruct (discover_spec ext
                    (path_join (path_join path (u "**")) (u "test_*.tex")) s)
          as (found & Hd & Hfound).
        unfold bind at 1. rewrite Hd. unfold ret at 1. intros H.
        apply (IH _ _ _ _ P) in H; [assumption| |].
        -- intros t Ht Hx. apply in_app_or in Ht as [Ht|Ht]; [auto|].
           apply Hfound in Ht as [Ht _]. congruence.
        -- intros t Ht. apply Hargs. now right.
      * unfold bind, print, sys_exit. discriminate.
Qed.

Lemma count_failure_outcome (s : state) :
  let fc := failure_counter s in
  let fc' := mkFailureCounter (count fc + 1) (maxfail fc) in
  count_failure s
  = if (count fc + 1 >=? maxfail fc)%Z
    then (SysExit 1,
          mkState (world s) (stdout s ++ [MaxfailReached (maxfail fc)])
                  (calls s) fc')
    else (Return tt, mkState (world s) (stdout s) (calls s) fc').
Proof.
  cbv zeta. unfold count_failure, bind, FailureCounter_iadd.
  cbn [count maxfail world stdout calls failure_counter].
  destruct (count (failure_counter s) + 1 >=? maxfail (failure_counter s))%Z;
    reflexivity.
Qed.

Lemma for_each_cons {X} (x : X) (xs : list X) (body : X -> M unit) (s : state) :
  for_each (x :: xs) body s
  = match body x s with
    | (Return _, s') => for_each xs body s'
    | (Continue, s') => for_each xs body s'
    | (Break, s') => (Return tt, s')
    | (SysExit c, s') => (SysExit c, s')
    | (Raised e, s') => (Raised e, s')
    end.
Proof. reflexivity. Qed.

(** One requirement: the body of the loop ends normally, by [continue],
    by [sys.exit], or by the exception of a compiler that could not be
    started. *)
Lemma compile_require_outcome (ext : Externals) (require : str * str)
      (s : state) :
  exists o s',
    ('(ret_code, out, err) <-
       run ext (LATEXMK_CMD ++ [snd require]) (fst require) ;;
     if negb (ret_code =? 0)%Z then
       print (Verdict FAIL (Some (RequirementCompileError require))) ;;
       print (Log (out ++ err)) ;;
       count_failure ;;
       continue_
     else ret tt) s = (o, s')
    /\ (o = Return tt \/ o = Continue \/ o = SysExit 1
        \/ exists e, o = Raised e).
Proof.
  unfold bind at 1. unfold run at 1.
  destruct (run_command ext (LATEXMK_CMD ++ [snd require]) (fst require)
                        (world s)) as [[e|[[ret_code out] err]] w].
  { eauto 8. }
  destruct (negb (ret_code =? 0)%Z).
  - unfold bind at 1. unfold print at 1. unfold bind at 1.
    unfold print at 1. unfold bind at 1.
    rewrite count_failure_outcome.
    cbn [count maxfail world stdout calls failure_counter].
    match goal with
    | |- context [(?a >=? ?b)%Z] => destruct (a >=? b)%Z
    end; unfold continue_; eauto 8.
  - unfold ret. eauto 8.
Qed.

(** The loop over the requirements ends normally, by [sys.exit] or by
    an exception: its [continue] goes to the next requirement and never
    leaves the loop. *)
Lemma compile_requires_outcome (ext : Externals) (requires : list (str * str))
      (s : state) :
  (exists s', compile_requires ext requires s = (Return tt, s'))
  \/ (exists s', compile_requires ext requires s = (SysExit 1, s'))
  \/ (exists e s', compile_requires ext requires s = (Raised e, s')).
Proof.
  unfold compile_requires. revert s.
  induction requires as [|require requires IH]; intros s.
  - left. eexists. reflexivity.
  - rewrite for_each_cons.
    destruct (compile_require_outcome ext require s) as (o & s1 & -> & Ho).
    destruct Ho as [->| [->| [->|[e ->]]]]; eauto.
Qed.

Lemma for_fold_app {X Acc} (a b : list X) (body : Acc -> X -> M Acc)
      (acc : Acc) (s : state) :
  for_fold (a ++ b) body acc s
  = bind (for_fold a body acc) (fun acc' => for_fold b body acc') s.
Proof.
  revert acc s; induction a as [|x a IH]; intros acc s; [reflexivity|].
  cbn [app for_fold]. unfold bind in *.
  destruct (body acc x s) as [[acc'| | |c|e] s']; try reflexivity.
  apply IH.
Qed.

(** The state after a failure is counted and the test is left. *)
Lemma fail_outcome {A} (s : state) :
  let fc := failure_counter s in
  let fc' := mkFailureCounter (count fc + 1) (maxfail fc) in
  (count_failure ;; @continue_ A) s
  = if (count fc + 1 >=? maxfail fc)%Z
    then (SysExit 1,
          mkState (world s) (stdout s ++ [MaxfailReached (maxfail fc)])
                  (calls s) fc')
    else (Continue, mkState (world s) (stdout s) (calls s) fc').
Proof.
  cbv zeta. unfold bind. rewrite count_failure_outcome. cbv zeta.
  destruct (_ >=? _)%Z; reflexivity.
Qed.


(* ================================================================== *)
(** ** The comparison of the notebooks *)

Lemma compare_notebooks_unfold (ext : Externals) (regold : bool)
      (test_dir ipynb_dir : str) (pairs : list (str * str)) :
  compare_notebooks ext regold test_dir ipynb_dir pairs
  = for_fold pairs (compare_pair ext regold test_dir ipynb_dir) [].
Proof. reflexivity. Qed.

Lemma bind_return {A B} (m : M A) (k : A -> M B) (s : state) (a : A)
      (s1 : state) :
  m s = (Return a, s1) -> bind m k s = k a s1.
Proof. intros H. unfold bind. now rewrite H. Qed.

Lemma bind_raised {A B} (m : M A) (k : A -> M B) (s : state) (e : exn)
      (s1 : state) :
  m s = (Raised e, s1) -> bind m k s = (Raised e, s1).
Proof. intros H. unfold bind. now rewrite H. Qed.

Lemma bind_continue {A B} (m : M A) (k : A -> M B) (s s1 : state) :
  m s = (Continue, s1) -> bind m k s = (Continue, s1).
Proof. intros H. unfold bind. now rewrite H. Qed.

Lemma bind_sys_exit {A B} (m : M A) (k : A -> M B) (s : state) (c : Z)
      (s1 : state) :
  m s = (SysExit c, s1) -> bind m k s = (SysExit c, s1).
Proof. intros H. unfold bind. now rewrite H. Qed.

Lemma path_exists_eq (p : str) (s : state) :
  path_exists p s = (Return (fs_exists (world s) p), s).
Proof. reflexivity. Qed.

Lemma path_isdir_eq (p : str) (s : state) :
  path_isdir p s = (Return (fs_isdir (world s) p), s).
Proof. reflexivity. Qed.

Lemma listdir_eq (p : str) (s : state) (entries : list str) :
  dirs (world s) p = Some entries -> listdir p s = (Return entries, s).
Proof.
  intros H. unfold listdir, bind, get_world. now rewrite H.
Qed.

Lemma load_normalized_eq (ext : Externals) (p content : str) (nb nb' : json)
      (s : state) :
  files (world s) p = Some content ->
  json_loads ext (universal_newlines content) = Some nb ->
  normalize_notebook nb = Some nb' ->
  load_normalized ext p s = (Return nb', s).
Proof.
  intros Hf Hj Hn. unfold load_normalized, open_read, bind, get_world.
  rewrite Hf. unfold ret. now rewrite Hj, Hn.
Qed.

(** A failed verdict: the line is printed, the failure is counted and
    the test is left. *)
Lemma print_fail_outcome {A} (p : printed) (s : state) :
  let fc := failure_counter s in
  let stop := (count fc + 1 >=? maxfail fc)%Z in
  (print p ;; count_failure ;; @continue_ A) s
  = (if stop then SysExit 1 else Continue,
     mkState (world s)
             (stdout s ++ [p]
              ++ (if stop then [MaxfailReached (maxfail fc)] else []))
             (calls s)
             (mkFailureCounter (count fc + 1) (maxfail fc))).
Proof.
  cbv zeta. unfold bind at 1. unfold print at 1. rewrite fail_outcome.
  cbv zeta. cbn [world stdout calls failure_counter].
  destruct (_ >=? _)%Z; [now rewrite <- app_assoc|reflexivity].
Qed.

Lemma ends_ret {A} (P : A -> Prop) (a : A) : P a -> ends P (ret a).
Proof. intros H s o s' [= <- <-]. now repeat split. Qed.

Lemma ends_raise {A} (P : A -> Prop) (e : exn) : ends P (@raise A e).
Proof. intros s o s' [= <- <-]. now repeat split. Qed.

Lemma ends_weaken {A} (P Q : A -> Prop) (m : M A) :
  ends P m -> (forall a, P a -> Q a) -> ends Q m.
Proof.
  intros Hm HPQ s o s' E. destruct (Hm s o s' E) as (H1 & H2 & H3).
  split; [assumption|]. split; [assumption|].
  destruct o; try exact H3. now apply HPQ.
Qed.

Lemma ends_bind {A B} (Q : A -> Prop) (P : B -> Prop) (m : M A)
      (k : A -> M B) :
  ends Q m -> (forall a, Q a -> ends P (k a)) -> ends P (bind m k).
Proof.
  intros Hm Hk s o s'. unfold bind.
  destruct (m s) as [o1 s1] eqn:E1.
  destruct (Hm s o1 s1 E1) as (H1 & H2 & H3).
  destruct o1 as [a| | |c|e]; try contradiction.
  - intros E2. destruct (Hk a H3 s1 o s' E2) as (G1 & G2 & G3).
    split; [congruence|]. split; [congruence|]. exact G3.
  - intros [= <- <-]. now repeat split.
Qed.

Lemma ends_get_world : ends (fun _ => True) get_world.
Proof. intros s o s' [= <- <-]. now repeat split. Qed.

Lemma ends_modify_world (f : World -> World) :
  ends (fun _ => True) (modify_world f).
Proof. intros s o s' [= <- <-]. now repeat split. Qed.

Lemma ends_run (ext : Externals) (command : list str) (cwd : str) :
  ends (fun _ => True) (run ext command cwd).
Proof.
  intros s o s'. unfold run.
  destruct (run_command ext command cwd (world s)) as [[e|r] w];
    intros [= <- <-]; now repeat split.
Qed.

Lemma ends_path_exists (p : str) : ends (fun _ => True) (path_exists p).
Proof. intros s o s' [= <- <-]. now repeat split. Qed.

Lemma ends_open_read (p : str) : ends (fun _ => True) (open_read p).
Proof.
  unfold open_read. apply (ends_bind (fun _ => True)); [apply ends_get_world|].
  intros w _. destruct (files w p); [now apply ends_ret|apply ends_raise].
Qed.

Lemma ends_copy (src dst : str) : ends (fun _ => True) (copy src dst).
Proof.
  unfold copy. apply (ends_bind (fun _ => True)); [apply ends_get_world|].
  intros w _.
  destruct (files w src); [apply ends_modify_world|apply ends_raise].
Qed.

Lemma ends_load_normalized (ext : Externals) (p : str) :
  ends (fun _ => True) (load_normalized ext p).
Proof.
  unfold load_normalized.
  apply (ends_bind (fun _ => True)); [apply ends_open_read|].
  intros content _. destruct (json_loads ext content); [|apply ends_raise].
  destruct (normalize_notebook j); [now apply ends_ret|apply ends_raise].
Qed.

(** One notebook compared: failures are only added to the list. *)
Lemma compare_pair_extends (ext : Externals) (regold : bool)
      (test_dir ipynb_dir : str) (acc : list notebook_failure)
      (pair : str * str) :
  ends (extended acc) (compare_pair ext regold test_dir ipynb_dir acc pair).
Proof.
  unfold compare_pair. cbv zeta.
  apply (ends_bind (fun _ => True)); [apply ends_path_exists|intros ex _].
  apply (ends_bind (extended acc)).
  { destruct (negb ex).
    - apply (ends_bind (fun _ => True)); [apply ends_copy|intros _ _].
      apply ends_ret. now eexists.
    - apply ends_ret. exists []. now rewrite app_nil_r. }
  intros failed Hf.
  apply (ends_bind (fun _ => True)); [apply ends_load_normalized|].
  intros exp_nb _.
  apply (ends_bind (fun _ => True)); [apply ends_load_normalized|].
  intros gen_nb _.
  destruct (negb (py_eqb exp_nb gen_nb)); [|now apply ends_ret].
  apply (ends_bind (fun _ => True)); [apply ends_run|].
  intros [[rc out] err] _.
  apply (ends_bind (fun _ => True)).
  { destruct regold; [apply ends_copy|now apply ends_ret]. }
  intros _ _. apply ends_ret. destruct Hf as [more ->].
  eexists. now rewrite <- app_assoc.
Qed.

Lemma compare_loop_extends (ext : Externals) (regold : bool)
      (test_dir ipynb_dir : str) (pairs : list (str * str))
      (acc : list notebook_failure) :
  ends (extended acc)
       (for_fold pairs (compare_pair ext regold test_dir ipynb_dir) acc).
Proof.
  revert acc. induction pairs as [|pair pairs IH]; intros acc.
  - apply ends_ret. exists []. now rewrite app_nil_r.
  - cbn [for_fold].
    apply (ends_bind (extended acc)); [apply compare_pair_extends|].
    intros acc' [more ->].
    apply (ends_weaken (extended (acc ++ more))); [apply IH|].
    intros l [more' ->]. exists (more ++ more'). now rewrite app_assoc.
Qed.

(** One notebook compared, when both files hold notebooks that
    normalize to different values: the failure is added, unless the
    comparison ends by an exception. *)
Lemma compare_pair_differs (ext : Externals) (regold : bool)
      (test_dir ipynb_dir g e ce cg : str) (acc : list notebook_failure)
      (a b na nb : json) (s1 : state) :
  let generated := path_join test_dir (path_join ipynb_dir g) in
  let expected := path_join test_dir (path_join (u "expected") e) in
  files (world s1) expected = Some ce ->
  files (world s1) generated = Some cg ->
  json_loads ext (universal_newlines ce) = Some a ->
  json_loads ext (universal_newlines cg) = Some b ->
  normalize_notebook a = Some na ->
  normalize_notebook b = Some nb ->
  py_eqb na nb = false ->
  exists o s2,
    compare_pair ext regold test_dir ipynb_dir acc (g, e) s1 = (o, s2)
    /\ stdout s2 = stdout s1
    /\ failure_counter s2 = failure_counter s1
    /\ ((exists ex, o = Raised ex)
        \/ exists diff, o = Return (acc ++ [NotebookDiffers generated diff])).
Proof.
  cbv zeta. intros Hce Hcg Ha Hb Hna Hnb Hne.
  unfold compare_pair. cbv zeta. cbn [fst snd].
  rewrite (bind_return _ _ s1 _ s1 (path_exists_eq _ s1)).
  assert (fs_exists (world s1)
            (path_join test_dir (path_join (u "expected") e)) = true) as ->.
  { unfold fs_exists, fs_isfile. now rewrite Hce. }
  cbn [negb]. rewrite (bind_return _ _ s1 acc s1) by reflexivity.
  rewrite (bind_return _ _ s1 na s1)
    by (now apply (load_normalized_eq ext _ ce a)).
  rewrite (bind_return _ _ s1 nb s1)
    by (now apply (load_normalized_eq ext _ cg b)).
  rewrite Hne. cbn [negb].
  unfold bind at 1. unfold run at 1.
  destruct (run_command ext _ test_dir (world s1))
    as [[ex|[[rc out] err]] w1].
  { eexists _, _. split; [reflexivity|]. cbn [stdout failure_counter].
    repeat split. left. now eexists. }
  set (s' := mkState w1 (stdout s1) _ (failure_counter s1)).
  unfold bind at 1.
  destruct regold.
  - destruct (copy _ _ s') as [o c] eqn:Ec.
    destruct (ends_copy _ _ _ _ _ Ec) as (H1 & H2 & H3).
    destruct o as [[]| | |c0|ex]; try contradiction.
    + eexists _, _. split; [reflexivity|]. repeat split; try assumption.
      right. now eexists.
    + eexists _, _. split; [reflexivity|]. repeat split; try assumption.
      left. now eexists.
  - unfold ret at 1. eexists _, _. split; [reflexivity|].
    cbn [stdout failure_counter]. repeat split. right. now eexists.
Qed.

Lemma combine_map_app {X Y} (f : X -> Y) (l1 l2 : list X) :
  combine (l1 ++ l2) (map f (l1 ++ l2))
  = combine l1 (map f l1) ++ combine l2 (map f l2).
Proof.
  induction l1 as [|x l1 IH]; [reflexivity|].
  cbn [app map combine]. now rewrite IH.
Qed.

(** The comparison loop of a directory that holds a notebook whose
    normalized form differs from that of its expected counterpart: the
    loop ends by an exception, or returns a list of failures that names
    the notebook. *)
Lemma compare_notebooks_differs (ext : Externals) (regold : bool)
      (test_dir ipynb_dir base g ce cg : str) (earlier later : list str)
      (acc : list notebook_failure) (a b na nb : json) (s s1 : state) :
  let expected_of := fun g => base ++ u "." ++ g in
  let generated := path_join test_dir (path_join ipynb_dir g) in
  let expected :=
    path_join test_dir (path_join (u "expected") (expected_of g)) in
  compare_notebooks ext regold test_dir ipynb_dir
                    (combine earlier (map expected_of earlier)) s
  = (Return acc, s1) ->
  files (world s1) expected = Some ce ->
  files (world s1) generated = Some cg ->
  json_loads ext (universal_newlines ce) = Some a ->
  json_loads ext (universal_newlines cg) = Some b ->
  normalize_notebook a = Some na ->
  normalize_notebook b = Some nb ->
  py_eqb na nb = false ->
  exists o s3,
    compare_notebooks ext regold test_dir ipynb_dir
                      (combine (earlier ++ g :: later)
                               (map expected_of (earlier ++ g :: later))) s
    = (o, s3)
    /\ stdout s3 = stdout s
    /\ failure_counter s3 = failure_counter s
    /\ ((exists ex, o = Raised ex)
        \/ exists failed diff,
             o = Return failed /\ In (NotebookDiffers generated diff) failed).
Proof.
  cbv zeta. intros Hpre Hce Hcg Ha Hb Hna Hnb Hne.
  destruct (compare_loop_extends ext regold test_dir ipynb_dir _ [] s _ _ Hpre)
    as (Hout1 & Hfc1 & _).
  rewrite compare_notebooks_unfold in *.
  rewrite combine_map_app, for_fold_app.
  rewrite (bind_return _ _ s acc s1 Hpre).
  cbn [map combine for_fold].
  destruct (compare_pair_differs ext regold test_dir ipynb_dir g
              (base ++ u "." ++ g) ce cg acc a b na nb s1
              Hce Hcg Ha Hb Hna Hnb Hne)
    as (o & s2 & E & Hout2 & Hfc2 & [[ex ->]|[diff ->]]).
  - rewrite (bind_raised _ _ s1 ex s2 E).
    eexists _, _. split; [reflexivity|].
    split; [congruence|]. split; [congruence|]. left. now eexists.
  - rewrite (bind_return _ _ s1 _ s2 E).
    destruct (for_fold (combine later _) _ _ s2) as [o3 s3] eqn:E3.
    destruct (compare_loop_extends _ _ _ _ _ _ _ _ _ E3) as (Hout3 & Hfc3 & H3).
    exists o3, s3. split; [reflexivity|].
    split; [congruence|]. split; [congruence|].
    destruct o3 as [failed| | |c|ex]; try contradiction.
    + right. destruct H3 as [more ->]. eexists _, diff.
      split; [reflexivity|]. apply in_or_app. left.
      apply in_or_app. right. now left.
    + left. now eexists.
Qed.

(** The notebooks of a test compared, when one of them differs from its
    expected counterpart after normalization: the comparison is not
    passed.  Either it ends by an exception, or the verdict is printed,
    FAIL with the reasons in strict mode and REGOLDED in regold mode,
    and the failure is counted. *)
Lemma verify_records_differs (ext : Externals) (regold : bool)
      (test_dir base g ce cg : str) (entries earlier later : list str)
      (acc : list notebook_failure) (a b na nb : json) (s s1 : state) :
  let ipynb_dir := u "notebooks-" ++ base in
  let expected_of := fun g => base ++ u "." ++ g in
  let generated := path_join test_dir (path_join ipynb_dir g) in
  let expected :=
    path_join test_dir (path_join (u "expected") (expected_of g)) in
  let fc := failure_counter s in
  let stop := (count fc + 1 >=? maxfail fc)%Z in
  let r := verify_records ext regold test_dir base s in
  dirs (world s) (path_join test_dir ipynb_dir) = Some entries ->
  filter (fun f => endswith f (u ".ipynb")) entries = earlier ++ g :: later ->
  compare_notebooks ext regold test_dir ipynb_dir
                    (combine earlier (map expected_of earlier)) s
  = (Return acc, s1) ->
  files (world s1) expected = Some ce ->
  files (world s1) generated = Some cg ->
  json_loads ext (universal_newlines ce) = Some a ->
  json_loads ext (universal_newlines cg) = Some b ->
  normalize_notebook a = Some na ->
  normalize_notebook b = Some nb ->
  py_eqb na nb = false ->
  (exists ex, fst r = Raised ex)
  \/ exists failed diff,
       In (NotebookDiffers generated diff) failed
       /\ fst r = (if stop then SysExit 1 else Continue)
       /\ stdout (snd r)
          = stdout s
            ++ [Verdict (if regold then REGOLDED else FAIL)
                        (Some (NotebookComparison
                                 (if regold then [] else failed)))]
            ++ (if stop then [MaxfailReached (maxfail fc)] else [])
       /\ count (failure_counter (snd r)) = (count fc + 1)%Z.
Proof.
  cbv zeta. intros Hdir Hgen Hpre Hce Hcg Ha Hb Hna Hnb Hne.
  remember (verify_records ext regold test_dir base s) as r eqn:Er.
  unfold verify_records in Er. cbv zeta in Er.
  rewrite (bind_return _ _ s _ s (path_isdir_eq _ s)) in Er.
  assert (fs_isdir (world s) (path_join test_dir (u "notebooks-" ++ base))
          = true) as Hisd.
  { unfold fs_isdir. now rewrite Hdir. }
  rewrite Hisd in Er.
  rewrite (bind_return _ _ s entries s (listdir_eq _ s entries Hdir)) in Er.
  rewrite Hgen in Er.
  destruct (compare_notebooks_differs ext regold test_dir
              (u "notebooks-" ++ base) base g ce cg earlier later acc
              a b na nb s s1 Hpre Hce Hcg Ha Hb Hna Hnb Hne)
    as (o & s3 & E & Hout & Hfc & [[ex ->]|(failed & diff & -> & Hin)]).
  - rewrite (bind_raised _ _ s ex s3 E) in Er. subst r.
    left. now exists ex.
  - rewrite (bind_return _ _ s failed s3 E) in Er.
    assert ((0 <? length failed) = true) as Hlen.
    { destruct failed; [contradiction|reflexivity]. }
    rewrite Hlen in Er.
    right. exists failed, diff. split; [assumption|].
    destruct regold; cbn [negb] in Er.
    + match type of Er with
      | r = bind ?m _ s3 =>
          assert (Hm : m s3 = _) by apply print_fail_outcome
      end.
      cbv zeta in Hm. rewrite Hfc in Hm.
      destruct (_ >=? _)%Z.
      * rewrite (bind_sys_exit _ _ s3 1 _ Hm) in Er. subst r.
        cbn [fst snd stdout failure_counter count].
        rewrite Hout. now repeat split.
      * rewrite (bind_continue _ _ s3 _ Hm) in Er. subst r.
        cbn [fst snd stdout failure_counter count].
        rewrite Hout. now repeat split.
    + match type of Er with
      | r = bind ?m _ s3 =>
          assert (Hm : m s3 = _) by apply print_fail_outcome
      end.
      cbv zeta in Hm. rewrite Hfc in Hm.
      destruct (_ >=? _)%Z.
      * rewrite (bind_sys_exit _ _ s3 1 _ Hm) in Er. subst r.
        cbn [fst snd stdout failure_counter count].
        rewrite Hout. now repeat split.
      * rewrite (bind_continue _ _ s3 _ Hm) in Er. subst r.
        cbn [fst snd stdout failure_counter count].
        rewrite Hout. now repeat split.
Qed.

(* ================================================================== *)
(** ** Sanity checks of the embedding *)

Example merge_example :
  merge_lines_with_continuation [u "foo~"; u "bar"; u "baz~"; u "qux"]
  = [u "foobar"; u "bazqux"].
Proof. reflexivity. Qed.

Example normalize_example :
  normalize_text (u "  a b  " ++ [10%N; 10%N; 9%N] ++ u "c") = [u "ab"; u "c"].
Proof. reflexivity. Qed.

Example dirname_example :
  dirname (u "tests/exam/test_a.tex") = u "tests/exam"
  /\ basename (u "tests/exam/test_a.tex") = u "test_a.tex"
  /\ dirname (u "test_a.tex") = [] /\ dirname (u "/a") = u "/"
  /\ basename (u "a/b/") = [] /\ dirname (u "a//b") = u "a".
Proof. repeat split; reflexivity. Qed.

Example splitlines_example :
  splitlines (u "a" ++ [13; 10]%N ++ u "b" ++ [10; 10]%N ++ u "c" ++ [10]%N)
  = [u "a"; u "b"; []; u "c"]
  /\ splitlines [] = [] /\ splitlines [10%N] = [[]].
Proof. repeat split; reflexivity. Qed.

Example strip_example :
  strip (u "  a b  ") = u "a b" /\ rstrip (u " x ~ ") = u " x ~"
  /\ split (u "  a  b c ") = [u "a"; u "b"; u "c"].
Proof. repeat split; reflexivity. Qed.

(** Each actual line serves one fragment at most. *)
Example matcher_one_fragment_per_line :
  check_ordered_subsequence_with_missing [u "a"; u "b"] [u "a b"] = Some false
  /\ check_ordered_subsequence_with_missing [u "a"; u "b"] [u "a"; u "x"; u "b"]
     = Some true.
Proof. split; reflexivity. Qed.

Example is_in_xsim_files_dir_example :
  is_in_xsim_files_dir (u "exam/xsim-files-test_a/test_b.tex") = true
  /\ is_in_xsim_files_dir (u "exam/test_xsim-files.tex") = false.
Proof. split; reflexivity. Qed.

Example sorted_example :
  sorted [u "b/test_x.tex"; u "a/test_z.tex"; u "a/test_y.tex"]
  = [u "a/test_y.tex"; u "a/test_z.tex"; u "b/test_x.tex"].
Proof. reflexivity. Qed.

Example replace_example :
  replace (u "--- a.ipynb, --- a.ipynb.bak") (u "--- a.ipynb") (u "--- t/a.ipynb")
  = u "--- t/a.ipynb, --- t/a.ipynb.bak"
  /\ replace (u "aaa") (u "aa") (u "b") = u "ba"
  /\ replace (u "ab") [] (u "-") = u "-a-b-".
Proof. repeat split. Qed.

(* ================================================================== *)
(** ** The failure counter *)

(** C4. Adding [n] to the counter ends the process at once with exit
    status 1, a non-zero status, as soon as the new count is at least
    the ceiling, the ceiling itself included: the new count is stored,
    the stop notice is printed, no statement after the addition runs
    and no subprocess is called.  Below the ceiling the addition
    returns the counter with the new count and changes nothing else. *)
Theorem FailureCounter_iadd_fail_fast (n : Z) (s : state) :
  let self := failure_counter s in
  let updated := mkFailureCounter (count self + n) (maxfail self) in
  ((maxfail self <= count self + n)%Z ->
   forall (A : Type) (rest : FailureCounter -> M A),
     bind (FailureCounter_iadd n) rest s
     = (SysExit 1,
        mkState (world s) (stdout s ++ [MaxfailReached (maxfail self)])
                (calls s) updated)
     /\ (1 <> 0)%Z)
  /\ ((count self + n < maxfail self)%Z ->
      FailureCounter_iadd n s
      = (Return updated, mkState (world s) (stdout s) (calls s) updated)).
Proof.
  cbv zeta. split.
  - intros Hge A rest. split; [|discriminate].
    unfold bind, FailureCounter_iadd. cbn [count maxfail].
    destruct (Z.geb_spec (count (failure_counter s) + n)
                         (maxfail (failure_counter s))) as [_|Hlt]; [|lia].
    reflexivity.
  - intros Hlt. unfold FailureCounter_iadd. cbn [count maxfail].
    destruct (Z.geb_spec (count (failure_counter s) + n)
                         (maxfail (failure_counter s))) as [Hge|_]; [lia|].
    reflexivity.
Qed.

Lemma FailureCounter_iadd_fail_fast_witness :
  (bind (FailureCounter_iadd 1) (fun _ => print (Verdict PASS None))
        (mkState (world_of [] []) [] [] (mkFailureCounter 2 3))
   = (SysExit 1,
      mkState (world_of [] []) [MaxfailReached 3] [] (mkFailureCounter 3 3))
   /\ (1 <> 0)%Z)
  /\ FailureCounter_iadd 1
       (mkState (world_of [] []) [] [] (mkFailureCounter 1 3))
     = (Return (mkFailureCounter 2 3),
        mkState (world_of [] []) [] [] (mkFailureCounter 2 3)).
Proof.
  split.
  - apply (proj1 (FailureCounter_iadd_fail_fast 1
                    (mkState (world_of [] []) [] [] (mkFailureCounter 2 3)))).
    reflexivity.
  - apply (proj2 (FailureCounter_iadd_fail_fast 1
                    (mkState (world_of [] []) [] [] (mkFailureCounter 1 3)))).
    reflexivity.
Defined.

(* ================================================================== *)
(** ** Totality of the matcher *)

(** C10. [check_ordered_subsequence_with_missing] returns a boolean on
    every pair of lists of strings: the subscript
    [normalize_text(line)[0]] never fails, because a line kept by the
    comprehension has a non-empty [strip()], and [normalize_text] of
    such a line is a non-empty list. *)
Theorem check_ordered_subsequence_total :
  (forall line : str,
      truthy (strip line) = true ->
      exists h, nth_error (normalize_text line) 0 = Some h)
  /\ (forall expected_lines actual_lines : list str,
         exists b : bool,
           check_ordered_subsequence_with_missing expected_lines actual_lines
           = Some b).
Proof.
  split.
  - intros line H. apply normalize_text_nonempty in H.
    destruct (normalize_text line) as [|h t]; [contradiction|].
    now exists h.
  - intros e a. unfold check_ordered_subsequence_with_missing.
    destruct (normalized_heads_total e) as [he ->].
    destruct (normalized_heads_total a) as [ha ->].
    eexists. reflexivity.
Qed.

Lemma check_ordered_subsequence_total_witness :
  exists h, nth_error (normalize_text (u "  ! Emergency stop.  ")) 0 = Some h.
Proof.
  apply (proj1 check_ordered_subsequence_total). reflexivity.
Defined.

(* ================================================================== *)
(** ** The continuation merger *)

(** C8 (as amended). [merge_lines_with_continuation] maps
    ["foo~", "bar", "baz~", "qux"] to ["foobar", "bazqux"]; and when the
    input ends with a run of marker-terminated lines that follows an
    unmarked line or starts the input, and the content buffered from
    that run is not empty, the output is the output for the lines
    before the run followed by the buffered content as its last line. *)
Theorem merge_continuation_emits_buffer :
  merge_lines_with_continuation [u "foo~"; u "bar"; u "baz~"; u "qux"]
  = [u "foobar"; u "bazqux"]
  /\ (forall pre run : list str,
         marked (last pre []) = false ->
         forallb marked run = true ->
         truthy (buffered run) = true ->
         merge_lines_with_continuation (pre ++ run)
         = merge_lines_with_continuation pre ++ [buffered run]).
Proof.
  split; [reflexivity|].
  intros pre run Hpre Hrun Hbuf.
  rewrite merge_trailing_run by assumption. now rewrite Hbuf.
Qed.

Lemma merge_continuation_emits_buffer_witness :
  merge_lines_with_continuation
    ([u "intro"; u "text "] ++ [u "Overfull ~  "; u "hbox~"])
  = merge_lines_with_continuation [u "intro"; u "text "]
    ++ [buffered [u "Overfull ~  "; u "hbox~"]].
Proof.
  apply (proj2 merge_continuation_emits_buffer); reflexivity.
Defined.

(** C8, the claim as stated, fails when the buffered content is empty:
    after the unmarked line ["foo"], the trailing marked line ["~"]
    leaves an empty buffer, and no final line is emitted for it. *)
Lemma merge_continuation_empty_buffer_dropped :
  marked (last [u "foo"] []) = false
  /\ forallb marked [u "~"] = true
  /\ merge_lines_with_continuation ([u "foo"] ++ [u "~"]) = [u "foo"]
  /\ merge_lines_with_continuation ([u "foo"] ++ [u "~"])
     <> merge_lines_with_continuation [u "foo"] ++ [buffered [u "~"]].
Proof. repeat split; try reflexivity. discriminate. Qed.

(* ================================================================== *)
(** ** The ordered subsequence matcher *)

(** C5 (as amended). With no expected fragment the matcher answers
    true for every list of actual lines; it answers true when the
    whitespace-normalized fragments occur, in their order, as substrings
    of actual lines at strictly increasing positions (one line per
    fragment); and it answers false whenever the fragments, in the order
    they are given, have no such occurrence. *)
Theorem check_ordered_subsequence_spec :
  (forall actual_lines : list str,
      check_ordered_subsequence_with_missing [] actual_lines = Some true)
  /\ (forall expected_lines actual_lines : list str,
         embeds (fragments expected_lines) (fragments actual_lines) ->
         check_ordered_subsequence_with_missing expected_lines actual_lines
         = Some true)
  /\ (forall expected_lines actual_lines : list str,
         ~ embeds (fragments expected_lines) (fragments actual_lines) ->
         check_ordered_subsequence_with_missing expected_lines actual_lines
         = Some false).
Proof.
  split; [|split].
  - intros a. rewrite check_greedy.
    destruct (fragments a); reflexivity.
  - intros e a H. rewrite check_greedy. f_equal. now apply greedy_embeds.
  - intros e a H. rewrite check_greedy. f_equal.
    destruct (greedy (fragments e) (fragments a)) eqn:E; [|reflexivity].
    apply greedy_embeds in E. contradiction.
Qed.

Lemma check_ordered_subsequence_spec_witness :
  check_ordered_subsequence_with_missing
    [u "Error: undefined control sequence"; u "! Emergency stop"]
    [u "This is pdfTeX"; u "! Error:  undefined control sequence."; u "";
     u "l.12 \foo"; u "!  Emergency stop."]
  = Some true
  /\ check_ordered_subsequence_with_missing
       [u "! Emergency stop"; u "Error: undefined control sequence"]
       [u "This is pdfTeX"; u "! Error:  undefined control sequence."; u "";
        u "l.12 \foo"; u "!  Emergency stop."]
     = Some false.
Proof.
  destruct check_ordered_subsequence_spec as (_ & Htrue & Hfalse).
  split.
  - apply Htrue. apply greedy_embeds. reflexivity.
  - apply Hfalse. intros H. apply greedy_embeds in H. discriminate H.
Defined.

(** C5, the claim as stated, fails in its last part: a reordering of the
    expected fragments need not make the result false.  The fragments
    ["a"], ["b"] are found in ["a"; "b"; "a"], and so are ["b"], ["a"].
    Nor do two fragments that occur in order inside one actual line
    count as found: each line serves one fragment at most. *)
Lemma check_ordered_subsequence_reordered_still_true :
  check_ordered_subsequence_with_missing
    [u "a"; u "b"] [u "a"; u "b"; u "a"] = Some true
  /\ Permutation [u "a"; u "b"] [u "b"; u "a"]
  /\ [u "b"; u "a"] <> [u "a"; u "b"]
  /\ check_ordered_subsequence_with_missing
       [u "b"; u "a"] [u "a"; u "b"; u "a"] = Some true
  /\ contains (u "ab") (u "a") = true /\ contains (u "ab") (u "b") = true
  /\ check_ordered_subsequence_with_missing [u "a"; u "b"] [u "a b"]
     = Some false.
Proof.
  repeat split; try reflexivity.
  - apply perm_swap.
  - discriminate.
Qed.

(* ================================================================== *)
(** ** Whitespace insensitivity of [normalize_text] *)

(** C3 (as amended). Two texts that differ only by inserted or removed
    whitespace characters normalize to the same sequence of lines,
    provided no line boundary is inserted or removed between two
    non-whitespace characters of one line: the characters concerned are
    either no line boundaries (indentation, spacing inside a line), or
    line boundaries at a place where the line is blank before or after
    it (line spacing). *)
Theorem normalize_text_whitespace_insensitive (t1 t2 : str) :
  ws_equiv t1 t2 -> normalize_text t1 = normalize_text t2.
Proof. apply ws_equiv_normalize. Qed.

Lemma normalize_text_whitespace_insensitive_witness :
  normalize_text (u "a b" ++ [10; 10; 9]%N ++ u "c")
  = normalize_text (u "ab" ++ [10]%N ++ u "c" ++ [10]%N).
Proof.
  apply normalize_text_whitespace_insensitive.
  apply rst_trans with (y := u "ab" ++ [10]%N ++ u "c").
  - apply rst_sym.
    apply rst_trans with (y := u "a b" ++ [10]%N ++ u "c").
    { apply rst_step.
      change (ws_insert (u "a" ++ u "b" ++ [10]%N ++ u "c")
                        (u "a" ++ 32%N :: u "b" ++ [10]%N ++ u "c")).
      apply insert_inline; reflexivity. }
    apply rst_trans with (y := u "a b" ++ [10; 10]%N ++ u "c").
    { apply rst_step.
      change (ws_insert ((u "a b" ++ [10]%N) ++ u "c")
                        ((u "a b" ++ [10]%N) ++ 10%N :: u "c")).
      apply insert_break; reflexivity. }
    apply rst_step.
    change (ws_insert ((u "a b" ++ [10; 10]%N) ++ u "c")
                      ((u "a b" ++ [10; 10]%N) ++ 9%N :: u "c")).
    apply insert_inline; reflexivity.
  - apply rst_step.
    change (ws_insert ((u "ab" ++ [10]%N ++ u "c") ++ [])
                      ((u "ab" ++ [10]%N ++ u "c") ++ 10%N :: [])).
    apply insert_break; reflexivity.
Defined.

(** C3, the claim as stated, fails for a line boundary, which is a
    whitespace character: ["ab"] and ["a\nb"] differ by one inserted
    whitespace character and have the same non-whitespace characters,
    yet the first normalizes to one line and the second to two. *)
Lemma normalize_text_line_break_counterexample :
  ws_equiv_any (u "ab") (u "a" ++ 10%N :: u "b")
  /\ squash (u "ab") = squash (u "a" ++ 10%N :: u "b")
  /\ normalize_text (u "ab") = [u "ab"]
  /\ normalize_text (u "a" ++ 10%N :: u "b") = [u "a"; u "b"]
  /\ normalize_text (u "ab") <> normalize_text (u "a" ++ 10%N :: u "b").
Proof.
  split; [|repeat split; try reflexivity; discriminate].
  apply rst_step. change (ws_insert_any (u "a" ++ u "b") (u "a" ++ 10%N :: u "b")).
  apply insert_any. reflexivity.
Qed.

(* ================================================================== *)
(** ** Notebook normalization *)

(** C6. [normalize_notebook] is idempotent: normalizing a normalized
    notebook returns it unchanged.  It keeps the keys of the notebook in
    order and its cells in order, each cell with every field outside
    [execution_count], [metadata] and [outputs] unchanged and with its
    outputs in order, each output with every field outside
    [execution_count] and [metadata] unchanged; in particular the source
    text of the cell at each position is kept.  Two notebooks that
    differ only in execution counters have the same normalized form,
    equal under Python's [==].  Two notebooks that differ in the source
    text of a cell have normalized forms that are not equal under
    Python's [==]. *)
Theorem normalize_notebook_spec :
  (forall nb n : json,
      normalize_notebook nb = Some n -> normalize_notebook n = Some n)
  /\ (forall (d : dict) (cells : list json) (n : json),
         dict_get (u "cells") d = Some (JList cells) ->
         normalize_notebook (JDict d) = Some n ->
         exists d' cells',
           n = JDict d' /\ map fst d' = map fst d
           /\ dict_get (u "cells") d' = Some (JList cells')
           /\ Forall2 cell_kept cells cells')
  /\ (forall (i : nat) (nb n source : json),
         cell_field (u "source") i nb = Some source ->
         normalize_notebook nb = Some n ->
         cell_field (u "source") i n = Some source)
  /\ (forall a b : json,
         notebook_variant a b ->
         normalize_notebook a = normalize_notebook b
         /\ forall na nb,
             well_keyed a ->
             normalize_notebook a = Some na ->
             normalize_notebook b = Some nb ->
             py_eqb na nb = true)
  /\ (forall (i : nat) (a b na nb source_a source_b : json),
         cell_field (u "source") i a = Some source_a ->
         cell_field (u "source") i b = Some source_b ->
         py_eqb source_a source_b = false ->
         normalize_notebook a = Some na ->
         normalize_notebook b = Some nb ->
         py_eqb na nb = false).
Proof.
  split; [|split; [|split; [|split]]].
  - apply normalize_notebook_idem.
  - intros d cells n Hc Hn.
    destruct (normalize_notebook_cells _ _ _ Hc Hn)
      as (d' & cells' & -> & Hk & Hc' & Hall & _).
    exists d', cells'. repeat split; try assumption.
    eapply Forall2_impl; [|exact Hall]. apply normalize_cell_kept.
  - intros i nb n source. now apply normalize_notebook_cell_field.
  - intros a b Hv. pose proof (notebook_variant_normalize _ _ Hv) as Heq.
    split; [assumption|]. intros na nb Hw Ha Hb.
    assert (na = nb) as <- by congruence.
    apply py_eqb_refl. exact (normalize_notebook_well_keyed _ _ Ha Hw).
  - intros i a b na nb sa sb. now apply normalized_differ_on_cell_field.
Qed.

(** C9. [normalize_notebook] leaves the [id] field of every cell as it
    is; two notebooks whose cells at some position carry different [id]
    values have normalized forms that are not equal under Python's
    [==], whatever else they contain; and the runner reports such a
    difference as a mismatch.  When the notebook directory of a test
    holds a notebook that differs in a cell [id] from its expected
    counterpart, the comparison of the notebooks is never passed: it
    ends by an exception (a notebook that cannot be read, or [nbdiff]
    that cannot be run), or it prints the verdict, FAIL in strict mode
    with a list of reasons that names this notebook as differing from
    the expected output, REGOLDED in regold mode, counts one failure
    and leaves the test, or ends the run at the ceiling. *)
Theorem normalize_notebook_keeps_cell_id :
  (forall (i : nat) (nb n id : json),
      cell_field (u "id") i nb = Some id ->
      normalize_notebook nb = Some n ->
      cell_field (u "id") i n = Some id)
  /\ (forall (i : nat) (a b na nb id_a id_b : json),
         cell_field (u "id") i a = Some id_a ->
         cell_field (u "id") i b = Some id_b ->
         py_eqb id_a id_b = false ->
         normalize_notebook a = Some na ->
         normalize_notebook b = Some nb ->
         py_eqb na nb = false)
  /\ (forall (ext : Externals) (regold : bool) (test_dir base g ce cg : str)
             (entries earlier later : list str)
             (acc : list notebook_failure) (i : nat)
             (a b na nb id_a id_b : json) (s s1 : state),
         let ipynb_dir := u "notebooks-" ++ base in
         let generated := path_join test_dir (path_join ipynb_dir g) in
         let expected :=
           path_join test_dir
                     (path_join (u "expected") (base ++ u "." ++ g)) in
         let fc := failure_counter s in
         let stop := (count fc + 1 >=? maxfail fc)%Z in
         let r := verify_records ext regold test_dir base s in
         dirs (world s) (path_join test_dir ipynb_dir) = Some entries ->
         filter (fun f => endswith f (u ".ipynb")) entries
         = earlier ++ g :: later ->
         compare_notebooks ext regold test_dir ipynb_dir
           (combine earlier (map (fun g => base ++ u "." ++ g) earlier)) s
         = (Return acc, s1) ->
         files (world s1) expected = Some ce ->
         files (world s1) generated = Some cg ->
         json_loads ext (universal_newlines ce) = Some a ->
         json_loads ext (universal_newlines cg) = Some b ->
         cell_field (u "id") i a = Some id_a ->
         cell_field (u "id") i b = Some id_b ->
         py_eqb id_a id_b = false ->
         normalize_notebook a = Some na ->
         normalize_notebook b = Some nb ->
         (exists ex, fst r = Raised ex)
         \/ exists failed diff,
              In (NotebookDiffers generated diff) failed
              /\ fst r = (if stop then SysExit 1 else Continue)
              /\ stdout (snd r)
                 = stdout s
                   ++ [Verdict (if regold then REGOLDED else FAIL)
                               (Some (NotebookComparison
                                        (if regold then [] else failed)))]
                   ++ (if stop then [MaxfailReached (maxfail fc)] else [])
              /\ count (failure_counter (snd r)) = (count fc + 1)%Z).
Proof.
  split; [|split].
  - intros i nb n id. now apply normalize_notebook_cell_field.
  - intros i a b na nb ia ib. now apply normalized_differ_on_cell_field.
  - intros ext regold test_dir base g ce cg entries earlier later acc i
           a b na nb id_a id_b s s1.
    cbv zeta. intros Hdir Hgen Hpre Hce Hcg Ha Hb Hia Hib Hid Hna Hnb.
    assert (Hne : py_eqb na nb = false).
    { now apply (normalized_differ_on_cell_field (u "id") i a b na nb
                   id_a id_b). }
    exact (verify_records_differs ext regold test_dir base g ce cg entries
             earlier later acc a b na nb s s1
             Hdir Hgen Hpre Hce Hcg Ha Hb Hna Hnb Hne).
Qed.

Lemma normalize_notebook_keeps_cell_id_witness :
  (exists n, normalize_notebook (example_notebook 3 (u "a1") (u "x = 1")) = Some n
             /\ cell_field (u "id") 0 n = Some (JStr (u "a1")))
  /\ (exists na nb,
         normalize_notebook (example_notebook 3 (u "a1") (u "x = 1")) = Some na
         /\ normalize_notebook (example_notebook 3 (u "c7") (u "x = 1")) = Some nb
         /\ py_eqb na nb = false)
  /\ (let ext :=
        simulated_notebooks
          [(u "A", example_notebook 3 (u "a1") (u "x = 1"));
           (u "B", example_notebook 3 (u "c7") (u "x = 1"))] in
      let r := verify_records ext false (u "t") (u "test_b")
                              (initial (world_with_notebook (u "A") (u "B"))) in
      ((exists ex, fst r = Raised ex)
       \/ exists failed diff,
            In (NotebookDiffers (u "t/notebooks-test_b/nb.ipynb") diff) failed
            /\ fst r = Continue
            /\ stdout (snd r)
               = [Verdict FAIL (Some (NotebookComparison failed))]
            /\ count (failure_counter (snd r)) = 1%Z)
      /\ fst r = Continue
      /\ stdout (snd r)
         = [Verdict FAIL
                    (Some (NotebookComparison
                             [NotebookDiffers
                                (u "t/notebooks-test_b/nb.ipynb") []]))]).
Proof.
  destruct normalize_notebook_keeps_cell_id as (Hkeep & Hdiff & Hreport).
  split; [|split].
  - eexists. split; [reflexivity|].
    apply (Hkeep 0 (example_notebook 3 (u "a1") (u "x = 1"))); reflexivity.
  - eexists _, _. split; [reflexivity|]. split; [reflexivity|].
    apply (Hdiff 0 (example_notebook 3 (u "a1") (u "x = 1"))
                 (example_notebook 3 (u "c7") (u "x = 1"))
                 _ _ (JStr (u "a1")) (JStr (u "c7"))); reflexivity.
  - cbv zeta. split; [|split; vm_compute; reflexivity].
    exact (Hreport
             (simulated_notebooks
                [(u "A", example_notebook 3 (u "a1") (u "x = 1"));
                 (u "B", example_notebook 3 (u "c7") (u "x = 1"))])
             false (u "t") (u "test_b") (u "nb.ipynb") (u "A") (u "B")
             [u "nb.ipynb"; u "notes.txt"] [] [] [] 0%nat
             (example_notebook 3 (u "a1") (u "x = 1"))
             (example_notebook 3 (u "c7") (u "x = 1"))
             _ _ (JStr (u "a1")) (JStr (u "c7"))
             (initial (world_with_notebook (u "A") (u "B")))
             (initial (world_with_notebook (u "A") (u "B")))
             eq_refl eq_refl eq_refl eq_refl eq_refl eq_refl eq_refl
             eq_refl eq_refl eq_refl eq_refl eq_refl).
Defined.

Ltac concrete_unique_keys :=
  unfold unique_keys; cbn [map fst];
  repeat (apply NoDup_cons; [intros H; cbv in H; intuition discriminate|]);
  apply NoDup_nil.

Ltac concrete_agree :=
  repeat (apply Forall2_cons;
          [split; [reflexivity|first [right; reflexivity|left; reflexivity]]|]);
  apply Forall2_nil.

Lemma example_notebook_variant :
  notebook_variant (example_notebook 3 (u "a1") (u "x = 1"))
                   (example_notebook 8 (u "a1") (u "x = 1")).
Proof.
  unfold example_notebook, example_output. cbn [notebook_variant].
  split; [concrete_unique_keys|]. split; [concrete_agree|].
  right. eexists _, _. split; [reflexivity|]. split; [reflexivity|].
  apply Forall2_cons; [|apply Forall2_cons; [|apply Forall2_nil]].
  - cbn [cell_variant].
    split; [concrete_unique_keys|]. split; [concrete_agree|].
    right. eexists _, _. split; [reflexivity|]. split; [reflexivity|].
    apply Forall2_cons; [|apply Forall2_nil].
    cbn [output_variant]. split; [concrete_unique_keys|concrete_agree].
  - cbn [cell_variant].
    split; [concrete_unique_keys|]. split; [concrete_agree|].
    left. reflexivity.
Defined.

Lemma normalize_notebook_spec_witness :
  (exists n,
      normalize_notebook (example_notebook 3 (u "a1") (u "x = 1")) = Some n
      /\ normalize_notebook n = Some n
      /\ cell_field (u "source") 0 n = Some (JStr (u "x = 1")))
  /\ normalize_notebook (example_notebook 3 (u "a1") (u "x = 1"))
     = normalize_notebook (example_notebook 8 (u "a1") (u "x = 1"))
  /\ (exists na nb,
         normalize_notebook (example_notebook 3 (u "a1") (u "x = 1")) = Some na
         /\ normalize_notebook (example_notebook 3 (u "a1") (u "x = 2")) = Some nb
         /\ py_eqb na nb = false).
Proof.
  destruct normalize_notebook_spec as (Hidem & _ & Hsrc & Hvar & Hdiff).
  split; [|split].
  - eexists. split; [reflexivity|]. split.
    + apply (Hidem (example_notebook 3 (u "a1") (u "x = 1"))). reflexivity.
    + apply (Hsrc 0 (example_notebook 3 (u "a1") (u "x = 1"))); reflexivity.
  - apply (Hvar _ _ example_notebook_variant).
  - eexists _, _. split; [reflexivity|]. split; [reflexivity|].
    apply (Hdiff 0 (example_notebook 3 (u "a1") (u "x = 1"))
                 (example_notebook 3 (u "a1") (u "x = 2"))
                 _ _ (JStr (u "x = 1")) (JStr (u "x = 2"))); reflexivity.
Defined.

(* ================================================================== *)
(** ** Test resolution *)

(** C2 (as amended). In autodiscovery mode and for a directory
    argument, every path under a directory whose name begins with
    [xsim-files] is excluded from the resolved list of tests: a resolved
    test either has no path component with that prefix, or it was given
    as a file argument ending in [.tex].  Such a file argument is used
    as it is given, wherever it lies.  ([is_in_xsim_files_dir] looks at
    every component of the path, the file name included.) *)
Theorem determine_tests_excludes_xsim_files (ext : Externals) :
  (forall (args tests : list str) (s s' : state) (t : str),
      determine_tests ext args s = (Return tests, s') ->
      In t tests ->
      (is_in_xsim_files_dir t = false /\ under_xsim_files_dir t = false)
      \/ (In t args /\ fs_isfile (world s) t = true
          /\ endswith t (u ".tex") = true))
  /\ (forall (path : str) (s : state),
         fs_isfile (world s) path = true ->
         endswith path (u ".tex") = true ->
         determine_tests ext [path] s = (Return [path], s)).
Proof.
  split.
  - intros args tests s s' t H Ht.
    destruct (is_in_xsim_files_dir t) eqn:Ex;
      [right|left; split; [reflexivity|now apply not_in_xsim_not_under]].
    unfold determine_tests in H. destruct (truthy args) eqn:Ea.
    + apply (determine_tests_loop ext args [] tests s s'
               (fun t => In t args /\ fs_isfile (world s) t = true
                         /\ endswith t (u ".tex") = true)) in H.
      * destruct H as [_ H]. now apply H.
      * intros x [].
      * auto.
    + destruct (discover_spec ext (u "**/test_*.tex") s) as (found & Hd & Hf).
      rewrite Hd in H. injection H as <- <-.
      apply Hf in Ht as [Ht _]. congruence.
  - intros path s Hf He. unfold determine_tests. cbn [truthy for_fold].
    unfold bind, get_world, ret. now rewrite Hf, He.
Qed.

Lemma determine_tests_excludes_xsim_files_witness :
  (is_in_xsim_files_dir (u "t/test_b.tex") = false
   /\ under_xsim_files_dir (u "t/test_b.tex") = false)
  \/ (In (u "t/test_b.tex") [u "t"; u "t/xsim-files-exam/test_c.tex"]
      /\ fs_isfile world_with_xsim_file (u "t/test_b.tex") = true
      /\ endswith (u "t/test_b.tex") (u ".tex") = true).
Proof.
  apply (proj1 (determine_tests_excludes_xsim_files
                  (simulated [] []
                     [u "t/xsim-files-exam/test_c.tex"; u "t/test_b.tex"]))
               [u "t"; u "t/xsim-files-exam/test_c.tex"]
               [u "t/test_b.tex"; u "t/xsim-files-exam/test_c.tex"]
               (initial world_with_xsim_file) (initial world_with_xsim_file)).
  - reflexivity.
  - left. reflexivity.
Defined.

(** C2, the claim as stated, fails in the single-file mode: a file
    argument under an [xsim-files] directory is resolved as a test. *)
Lemma determine_tests_keeps_xsim_file_argument :
  under_xsim_files_dir (u "t/xsim-files-exam/test_c.tex") = true
  /\ is_in_xsim_files_dir (u "t/xsim-files-exam/test_c.tex") = true
  /\ determine_tests (simulated [] [] [])
       [u "t/xsim-files-exam/test_c.tex"] (initial world_with_xsim_file)
     = (Return [u "t/xsim-files-exam/test_c.tex"],
        initial world_with_xsim_file).
Proof. repeat split; reflexivity. Qed.

(* ================================================================== *)
(** ** The per-test pipeline *)

(** C7 (as amended). For a normal test whose compile succeeds, whose
    PDF exists, whose conversion succeeds and leaves a text without the
    marker of unprocessed PythonTeX code, and that has no recorded
    expected text: the verdict printed is FAIL in strict mode and
    REGOLDED in regold mode; in both modes the converted text is copied
    in as the expected file and the failure counter is incremented; the
    test is then left by [continue], or the run is ended when the
    ceiling is reached. *)
Theorem verify_text_missing_expectation
        (ext : Externals) (regold : bool)
        (test_dir base out err o e text : str) (w1 : World) (s : state) :
  let pdf_file := base ++ u ".pdf" in
  let out_txt := base ++ u ".pdf.txt" in
  let expected := path_join test_dir (path_join (u "expected") out_txt) in
  let fc := failure_counter s in
  let stop := (count fc + 1 >=? maxfail fc)%Z in
  fs_exists (world s) (path_join test_dir pdf_file) = true ->
  run_command ext (PDFTOTEXT_CMD ++ [pdf_file; out_txt]) test_dir (world s)
  = (inr (0%Z, o, e), w1) ->
  files w1 (path_join test_dir out_txt) = Some text ->
  contains (universal_newlines text) (u "?? PythonTeX ??") = false ->
  fs_exists w1 expected = false ->
  exists s',
    verify_text ext regold test_dir base 0 out err s
    = (if stop then SysExit 1 else Continue, s')
    /\ stdout s'
       = stdout s
         ++ [Verdict (if regold then REGOLDED else FAIL)
                     (Some (NoExpectedOutput expected));
             Hint CopiedForReview; Hint (GitAdd expected)]
         ++ (if stop then [MaxfailReached (maxfail fc)] else [])
    /\ files (world s') expected = Some text
    /\ count (failure_counter s') = (count fc + 1)%Z.
Proof.
  cbv zeta. intros Hpdf Hrun Htext Hmarker Hexp.
  assert (Hdir : fs_isdir w1 (path_join test_dir
                   (path_join (u "expected") (base ++ u ".pdf.txt"))) = false).
  { unfold fs_exists in Hexp. now apply orb_false_iff in Hexp as [_ ?]. }
  unfold verify_text.
  unfold bind at 1. cbn [Z.eqb negb]. unfold ret at 1.
  unfold bind at 1. unfold path_exists at 1. unfold bind at 1.
  unfold get_world at 1. unfold ret at 1. rewrite Hpdf. cbn [negb].
  unfold bind at 1. unfold ret at 1.
  unfold bind at 1. unfold run at 1. rewrite Hrun. cbn [Z.eqb negb].
  unfold bind at 1. unfold ret at 1.
  unfold bind at 1. unfold open_read at 1. unfold bind at 1.
  unfold get_world at 1. cbn [world]. rewrite Htext. unfold ret at 1.
  unfold bind at 1. rewrite Hmarker. unfold ret at 1.
  unfold bind at 1. unfold path_exists at 1. unfold bind at 1.
  unfold get_world at 1. unfold ret at 1. cbn [world]. rewrite Hexp.
  unfold bind at 1. unfold print at 1.
  unfold bind at 1. unfold print at 1.
  unfold bind at 1. unfold print at 1.
  unfold bind at 1. unfold copy at 1. unfold bind at 1.
  unfold get_world at 1. cbn [world]. rewrite Htext, Hdir.
  unfold modify_world at 1. cbn [world stdout calls failure_counter].
  unfold bind at 1. rewrite count_failure_outcome.
  cbn [world stdout calls failure_counter].
  set (stop := (count (failure_counter s) + 1 >=? maxfail (failure_counter s))%Z).
  assert (Hfile : files (fs_write
                    (path_join test_dir
                       (path_join (u "expected") (base ++ u ".pdf.txt")))
                    text w1)
                    (path_join test_dir
                       (path_join (u "expected") (base ++ u ".pdf.txt")))
                  = Some text).
  { unfold fs_write, add_entry. cbn [dirs files].
    match goal with
    | |- context [match ?x with Some _ => _ | None => _ end] => destruct x
    end.
    - match goal with
      | |- context [if ?b then _ else _] => destruct b
      end; cbn [files]; unfold upd; now rewrite str_eqb_refl.
    - cbn [files]. unfold upd. now rewrite str_eqb_refl. }
  destruct stop; eexists; (split; [reflexivity|]);
    cbn [world stdout calls failure_counter count];
    unfold verdict_of; destruct regold; cbn [negb];
    rewrite <- ?app_assoc; cbn [app]; rewrite ?app_nil_r; auto.
Qed.

Lemma verify_text_missing_expectation_witness :
  exists s',
    verify_text (simulated [] (u "Hello") []) true (u "t") (u "test_b")
                0 [] [] after_compile
    = (Continue, s')
    /\ stdout s'
       = [Verdict REGOLDED
                  (Some (NoExpectedOutput (u "t/expected/test_b.pdf.txt")));
          Hint CopiedForReview;
          Hint (GitAdd (u "t/expected/test_b.pdf.txt"))]
    /\ files (world s') (u "t/expected/test_b.pdf.txt") = Some (u "Hello")
    /\ count (failure_counter s') = 1%Z.
Proof.
  exact (verify_text_missing_expectation
           (simulated [] (u "Hello") []) true (u "t") (u "test_b")
           [] [] [] [] (u "Hello") (after_conversion (u "Hello")) after_compile
           eq_refl eq_refl eq_refl eq_refl eq_refl).
Defined.

(** C7, the claim as stated, fails when the converted text holds the
    marker of unprocessed PythonTeX code: the compile and the conversion
    succeed and no expected text is recorded, yet in regold mode the
    verdict is FAIL, not REGOLDED, and no expected file is written. *)
Lemma missing_expectation_with_unprocessed_marker :
  let ext := simulated [] (u "?? PythonTeX ??") [] in
  let r := verify_text ext true (u "t") (u "test_b") 0 [] [] after_compile in
  fs_exists (world after_compile) (u "t/test_b.pdf") = true
  /\ run_command ext (PDFTOTEXT_CMD ++ [u "test_b.pdf"; u "test_b.pdf.txt"])
                 (u "t") (world after_compile)
     = (inr (0%Z, [], []), after_conversion (u "?? PythonTeX ??"))
  /\ fs_exists (after_conversion (u "?? PythonTeX ??"))
               (u "t/expected/test_b.pdf.txt") = false
  /\ fst r = Continue
  /\ stdout (snd r) = [Verdict FAIL (Some UnprocessedPythonTeX)]
  /\ files (world (snd r)) (u "t/expected/test_b.pdf.txt") = None
  /\ count (failure_counter (snd r)) = 1%Z.
Proof. cbv zeta. repeat split; reflexivity. Qed.

(** The same test run from the start, in strict and in regold mode. *)
Example missing_expectation_end_to_end :
  let run regold :=
    run_latex_tests (simulated [] (u "Hello") []) [u "t/test_b.tex"]
                    9223372036854775807 regold
                    (initial world_without_expectation) in
  let lines v :=
    [Running (u "t/test_b.tex");
     Verdict v (Some (NoExpectedOutput (u "t/expected/test_b.pdf.txt")));
     Hint CopiedForReview;
     Hint (GitAdd (u "t/expected/test_b.pdf.txt"));
     Summary FAIL (Some 1%Z)] in
  stdout (snd (run false)) = lines FAIL
  /\ stdout (snd (run true)) = lines REGOLDED
  /\ files (world (snd (run false))) (u "t/expected/test_b.pdf.txt")
     = Some (u "Hello")
  /\ files (world (snd (run true))) (u "t/expected/test_b.pdf.txt")
     = Some (u "Hello").
Proof. cbv zeta. repeat split; vm_compute; reflexivity. Qed.

(** C1 (the code departs from it). A prerequisite compile failure
    prints a FAIL verdict and counts a failure, but the [continue] that
    follows belongs to the loop over the requirements: that loop ends
    normally or by [sys.exit], never by leaving the test, so the
    remaining steps are not skipped.  On a test whose requirement
    [dep.tex] fails to compile, the runner prints FAIL, then runs the
    main compile, the conversion and the comparison, prints PASS for the
    same test and runs the cleanup.  When the main compile fails as
    well, the test gets a second FAIL verdict and is left before the
    cleanup. *)
Theorem prerequisite_failure_does_not_skip_the_test :
  (forall (ext : Externals) (requires : list (str * str)) (s : state),
      fst (compile_requires ext requires s) <> Continue)
  /\ (let r := run_latex_tests (simulated [u "dep.tex"] (u "Hello") [])
                               [u "t/test_a.tex"] 9223372036854775807 false
                               (initial world_with_requirement) in
      fst r = SysExit 1
      /\ stdout (snd r)
         = [Running (u "t/test_a.tex");
            Verdict FAIL (Some (RequirementCompileError (u "t", u "dep.tex")));
            Log (u "! Undefined control sequence.");
            Verdict PASS None;
            Summary FAIL (Some 1%Z)]
      /\ calls (snd r)
         = [(CLEAN_CMD ++ [u "test_a.tex"], u "t");
            (CLEAN_CMD ++ [u "dep.tex"], u "t");
            (LATEXMK_CMD ++ [u "dep.tex"], u "t");
            (LATEXMK_CMD ++ [u "test_a.tex"], u "t");
            (PDFTOTEXT_CMD ++ [u "test_a.pdf"; u "test_a.pdf.txt"], u "t");
            (CLEAN_CMD ++ [u "test_a.tex"], u "t");
            (CLEAN_CMD ++ [u "dep.tex"], u "t")])
  /\ (let r := run_latex_tests
                 (simulated [u "dep.tex"; u "test_a.tex"] (u "Hello") [])
                 [u "t/test_a.tex"] 9223372036854775807 false
                 (initial world_with_requirement) in
      stdout (snd r)
      = [Running (u "t/test_a.tex");
         Verdict FAIL (Some (RequirementCompileError (u "t", u "dep.tex")));
         Log (u "! Undefined control sequence.");
         Verdict FAIL (Some CompileError);
         Log (u "! Undefined control sequence.");
         Summary FAIL (Some 2%Z)]
      /\ calls (snd r)
         = [(CLEAN_CMD ++ [u "test_a.tex"], u "t");
            (CLEAN_CMD ++ [u "dep.tex"], u "t");
            (LATEXMK_CMD ++ [u "dep.tex"], u "t");
            (LATEXMK_CMD ++ [u "test_a.tex"], u "t")]).
Proof.
  split; [|split].
  - intros ext requires s.
    destruct (compile_requires_outcome ext requires s)
      as [[s' ->]|[[s' ->]|[e [s' ->]]]]; discriminate.
  - cbv zeta. repeat split; vm_compute; reflexivity.
  - cbv zeta. repeat split; vm_compute; reflexivity.
Qed.

(* ================================================================== *)
(** ** More about [normalize_text] *)

Lemma squash_clean (l : str) :
  blank l = false -> clean_line (squash l) = true.
Proof.
  intros Hb. unfold clean_line. apply andb_true_iff. split.
  - induction l as [|c l IH]; [discriminate|].
    cbn [blank forallb] in Hb. cbn [squash filter].
    destruct (is_space c) eqn:Ec; cbn [negb andb] in *; [|reflexivity].
    apply IH. exact Hb.
  - unfold squash. apply forallb_forall. intros c Hc.
    apply filter_In in Hc. tauto.
Qed.

Lemma keep_clean (ls : list str) :
  Forall (fun l => clean_line l = true) (keep ls).
Proof.
  unfold keep. induction ls as [|l ls IH]; cbn [filter map]; [constructor|].
  destruct (blank l) eqn:Eb; cbn [negb map]; [assumption|].
  constructor; [now apply squash_clean|assumption].
Qed.

Lemma clean_line_facts (l : str) :
  clean_line l = true ->
  blank l = false /\ squash l = l /\ existsb is_linebreak l = false.
Proof.
  unfold clean_line. intros H. apply andb_true_iff in H as [Ht Hs].
  induction l as [|c l IH]; [discriminate|].
  cbn [forallb] in Hs. apply andb_true_iff in Hs as [Hc Hs].
  apply negb_true_iff in Hc.
  assert (Hrest : squash l = l /\ existsb is_linebreak l = false).
  { destruct l as [|d l']; [split; reflexivity|].
    destruct (IH eq_refl Hs) as (_ & H1 & H2). split; assumption. }
  destruct Hrest as [H1 H2]. repeat split.
  - cbn [blank forallb]. now rewrite Hc.
  - cbn [squash filter]. rewrite Hc. cbn [negb]. f_equal. exact H1.
  - cbn [existsb]. rewrite (not_space_not_linebreak _ Hc). exact H2.
Qed.

Lemma keep_segs_break (a b : str) (c : char) :
  is_linebreak c = true ->
  keep (segs (a ++ c :: b)) = keep (segs a) ++ keep (segs b).
Proof.
  intros Hc. unfold segs. rewrite segs_onto_app. cbn [segs_onto]. rewrite Hc.
  rewrite (segs_onto_cons a [] (segs_onto b [[]])).
  apply keep_app.
Qed.

Lemma normalize_text_clean_line (l : str) :
  clean_line l = true -> normalize_text l = [l].
Proof.
  intros H. destruct (clean_line_facts l H) as (Hb & Hs & Hl).
  rewrite normalize_text_segs. unfold segs.
  rewrite (segs_onto_no_break l [] Hl), app_nil_r.
  unfold keep. cbn [filter]. rewrite Hb. cbn [negb map]. now rewrite Hs.
Qed.

Lemma normalize_text_join_clean (ls : list str) :
  Forall (fun l => clean_line l = true) ls ->
  normalize_text (join [10%N] ls) = ls.
Proof.
  induction 1 as [|l ls Hl Hls IH]; [reflexivity|].
  destruct ls as [|l' ls'].
  - cbn [join]. now apply normalize_text_clean_line.
  - change (join [10%N] (l :: l' :: ls')) with (l ++ 10%N :: join [10%N] (l' :: ls')).
    rewrite normalize_text_segs, keep_segs_break by reflexivity.
    rewrite <- !normalize_text_segs, IH.
    now rewrite (normalize_text_clean_line l Hl).
Qed.

Lemma ws_equiv_append_blank (s w : str) :
  blank w = true -> ws_equiv s (s ++ w).
Proof.
  revert s; induction w as [|c w IH]; intros s Hb.
  - rewrite app_nil_r. apply rst_refl.
  - cbn [blank forallb] in Hb. apply andb_true_iff in Hb as [Hc Hw].
    apply rst_trans with (y := s ++ [c]).
    + apply rst_step.
      rewrite <- (app_nil_r s) at 1.
      destruct (is_linebreak c) eqn:El.
      * apply insert_break; [assumption|]. apply orb_true_r.
      * now apply insert_inline.
    + replace (s ++ c :: w) with ((s ++ [c]) ++ w)
        by (now rewrite <- app_assoc).
      now apply IH.
Qed.

Lemma ws_equiv_prepend_blank (s w : str) :
  blank w = true -> ws_equiv s (w ++ s).
Proof.
  induction w as [|c w IH]; intros Hb; [apply rst_refl|].
  cbn [blank forallb] in Hb. apply andb_true_iff in Hb as [Hc Hw].
  apply rst_trans with (y := w ++ s); [now apply IH|].
  apply rst_step.
  change (ws_insert ([] ++ (w ++ s)) ([] ++ c :: (w ++ s))).
  destruct (is_linebreak c) eqn:El.
  - apply insert_break; [assumption|reflexivity].
  - now apply insert_inline.
Qed.

Lemma rstrip_decompose (s : str) :
  exists w, blank w = true /\ s = rstrip s ++ w.
Proof.
  induction s as [|c s (w & Hw & IH)]; [now exists []|].
  cbn [rstrip]. destruct (rstrip s) as [|x r] eqn:Er.
  - destruct (is_space c) eqn:Ec.
    + exists (c :: s). split; [|reflexivity].
      cbn [blank forallb]. rewrite Ec. now apply rstrip_nil.
    + exists w. split; [assumption|]. cbn [app]. now rewrite IH at 1.
  - exists w. split; [assumption|]. cbn [app]. now rewrite IH at 1.
Qed.

Lemma lstrip_decompose (s : str) :
  exists w, blank w = true /\ s = w ++ lstrip s.
Proof.
  induction s as [|c s (w & Hw & IH)]; [now exists []|].
  cbn [lstrip]. destruct (is_space c) eqn:Ec.
  - exists (c :: w). split.
    + cbn [blank forallb]. now rewrite Ec.
    + cbn [app]. now rewrite IH at 1.
  - now exists [].
Qed.

Lemma strip_ws_equiv (s : str) : ws_equiv (strip s) s.
Proof.
  unfold strip.
  destruct (lstrip_decompose (rstrip s)) as (w1 & Hw1 & H1).
  destruct (rstrip_decompose s) as (w2 & Hw2 & H2).
  apply rst_trans with (y := rstrip s).
  - rewrite H1 at 2. now apply ws_equiv_prepend_blank.
  - rewrite H2 at 2. now apply ws_equiv_append_blank.
Qed.

Lemma blank_ws_equiv_nil (s : str) : blank s = true -> ws_equiv [] s.
Proof. intros H. now apply (ws_equiv_append_blank [] s). Qed.

Lemma normalize_text_nil_iff (text : str) :
  normalize_text text = [] <-> blank text = true.
Proof.
  split.
  - intros E. destruct (blank text) eqn:Eb; [reflexivity|].
    exfalso. apply (normalize_text_nonempty text); [|assumption].
    now rewrite truthy_strip, Eb.
  - intros Hb. symmetry.
    apply (ws_equiv_normalize [] text), blank_ws_equiv_nil, Hb.
Qed.

(** X1. Every line [normalize_text] returns is non-empty and holds no
    whitespace character, so no line boundary either. *)
Theorem normalize_text_lines_clean (text : str) :
  Forall (fun l => l <> []
                   /\ forallb (fun c => negb (is_space c)) l = true
                   /\ existsb is_linebreak l = false)
         (normalize_text text).
Proof.
  rewrite normalize_text_segs.
  eapply Forall_impl; [|apply keep_clean].
  intros l Hl. destruct (clean_line_facts l Hl) as (Hb & _ & Hbr).
  unfold clean_line in Hl. apply andb_true_iff in Hl as [Ht Hs].
  repeat split; try assumption. intros ->. discriminate.
Qed.

(** X2. [normalize_text] is idempotent: the lines it returns, joined by
    line feeds into one text, normalize to themselves. *)
Theorem normalize_text_idempotent (text : str) :
  normalize_text (join [10%N] (normalize_text text)) = normalize_text text.
Proof.
  apply normalize_text_join_clean.
  rewrite normalize_text_segs. apply keep_clean.
Qed.

(** X3. Stripping a text before normalizing it changes nothing, so the
    [strip()] the runner applies to both texts before comparing them is
    redundant; and a text without any non-whitespace character, the
    empty text included, normalizes to no line at all, and only such a
    text does. *)
Theorem normalize_text_strip_and_blank (text : str) :
  normalize_text (strip text) = normalize_text text
  /\ (normalize_text text = [] <-> blank text = true).
Proof.
  split.
  - apply ws_equiv_normalize, strip_ws_equiv.
  - apply normalize_text_nil_iff.
Qed.

(** X4. A line boundary separates: the normalization of two texts put
    together with a line boundary between them is the normalization of
    the first followed by that of the second. *)
Theorem normalize_text_line_boundary (a b : str) (c : char) :
  is_linebreak c = true ->
  normalize_text (a ++ c :: b) = normalize_text a ++ normalize_text b.
Proof.
  intros Hc. rewrite !normalize_text_segs. now apply keep_segs_break.
Qed.

Lemma normalize_text_line_boundary_witness :
  normalize_text (u "a b" ++ 12%N :: u " c" ++ [10%N] ++ u "d")
  = normalize_text (u "a b") ++ normalize_text (u " c" ++ [10%N] ++ u "d").
Proof. apply normalize_text_line_boundary. reflexivity. Defined.

(* ================================================================== *)
(** ** More about the continuation merger and the matcher *)

Lemma merge_step_unmarked_run (lines merged : list str) :
  forallb (fun l => negb (marked l)) lines = true ->
  fold_left merge_step lines (merged, [])
  = (merged ++ map rstrip lines, []).
Proof.
  revert merged; induction lines as [|line lines IH]; intros merged H.
  - cbn. now rewrite app_nil_r.
  - cbn [forallb] in H. apply andb_true_iff in H as [Hm Hr].
    apply negb_true_iff in Hm. cbn [fold_left]. unfold merge_step at 2.
    unfold marked in Hm. rewrite Hm. cbn [truthy].
    rewrite IH by assumption. cbn [map]. now rewrite <- app_assoc.
Qed.

Lemma merge_step_content (st : list str * str) (line : str) :
  concat (fst (merge_step st line)) ++ snd (merge_step st line)
  = (concat (fst st) ++ snd st) ++ merged_content line.
Proof.
  destruct st as [merged buffer]. unfold merge_step, merged_content, marked, payload.
  destruct (endswith (rstrip line) (u "~")); cbn [fst snd].
  - now rewrite app_assoc.
  - destruct buffer as [|x buffer]; cbn [truthy fst snd];
      rewrite concat_app; cbn [concat]; rewrite !app_nil_r;
      now rewrite <- ?app_assoc.
Qed.

Lemma merge_step_size (st : list str * str) (line : str) :
  length (fst (merge_step st line)) + indicator (snd (merge_step st line))
  <= length (fst st) + indicator (snd st) + 1.
Proof.
  destruct st as [merged buffer]. unfold merge_step, indicator.
  destruct (endswith (rstrip line) (u "~")); cbn [fst snd].
  - destruct (truthy (buffer ++ _)), (truthy buffer); lia.
  - destruct (truthy buffer) eqn:E; cbn [fst snd truthy];
      rewrite length_app, ?E; cbn [length]; lia.
Qed.

Lemma merge_fold_content (lines : list str) (st : list str * str) :
  concat (fst (fold_left merge_step lines st))
  ++ snd (fold_left merge_step lines st)
  = (concat (fst st) ++ snd st) ++ concat (map merged_content lines).
Proof.
  revert st; induction lines as [|line lines IH]; intros st.
  - cbn. now rewrite app_nil_r.
  - cbn [fold_left map concat]. rewrite IH, merge_step_content.
    now rewrite <- !app_assoc.
Qed.

Lemma merge_fold_size (lines : list str) (st : list str * str) :
  length (fst (fold_left merge_step lines st))
  + indicator (snd (fold_left merge_step lines st))
  <= length (fst st) + indicator (snd st) + length lines.
Proof.
  revert st; induction lines as [|line lines IH]; intros st.
  - cbn. lia.
  - cbn [fold_left length]. specialize (IH (merge_step st line)).
    pose proof (merge_step_size st line). lia.
Qed.

(** X5. On lines none of which ends with the continuation marker, the
    merger only removes trailing whitespace: the output is the input
    with [rstrip] applied to every line. *)
Theorem merge_without_marker (lines : list str) :
  forallb (fun l => negb (marked l)) lines = true ->
  merge_lines_with_continuation lines = map rstrip lines.
Proof.
  intros H. unfold merge_lines_with_continuation.
  now rewrite merge_step_unmarked_run.
Qed.

Lemma merge_without_marker_witness :
  merge_lines_with_continuation [u "! Error  "; u ""; u "l.3 \x"]
  = map rstrip [u "! Error  "; u ""; u "l.3 \x"].
Proof. apply merge_without_marker. reflexivity. Defined.

(** X6. The merger only concatenates.  The output lines, put end to
    end, are the input lines put end to end, each without its trailing
    whitespace and without its marker; and the output never has more
    lines than the input. *)
Theorem merge_keeps_content (lines : list str) :
  concat (merge_lines_with_continuation lines)
  = concat (map merged_content lines)
  /\ length (merge_lines_with_continuation lines) <= length lines.
Proof.
  unfold merge_lines_with_continuation.
  pose proof (merge_fold_content lines ([], [])) as Hc.
  pose proof (merge_fold_size lines ([], [])) as Hs.
  destruct (fold_left merge_step lines ([], [])) as [merged buffer].
  cbn [fst snd concat app length indicator truthy] in Hc, Hs.
  unfold merge_flush, indicator in *.
  destruct buffer as [|x buffer]; cbn [truthy] in *.
  - rewrite app_nil_r in Hc. split; [assumption|lia].
  - rewrite concat_app. cbn [concat]. rewrite app_nil_r.
    split; [assumption|]. rewrite length_app. cbn [length]. lia.
Qed.

Lemma startswith_refl (s : str) : startswith s s = true.
Proof.
  induction s as [|c s IH]; [reflexivity|].
  cbn [startswith]. unfold char_eqb. now rewrite N.eqb_refl.
Qed.

Lemma contains_refl (s : str) : contains s s = true.
Proof. destruct s; cbn [contains]; now rewrite startswith_refl. Qed.

Lemma greedy_refl (ls : list str) : greedy ls ls = true.
Proof.
  induction ls as [|l ls IH]; [reflexivity|].
  cbn [greedy]. now rewrite contains_refl.
Qed.

Lemma embeds_cons_actual (expected actual : list str) (line : str) :
  embeds expected actual -> embeds expected (line :: actual).
Proof.
  intros H. destruct expected as [|e es]; [apply embeds_nil|].
  now apply embeds_later.
Qed.

Lemma embeds_actual_mono (expected a a' : list str) :
  subsequence a a' -> embeds expected a -> embeds expected a'.
Proof.
  intros Hs. revert expected.
  induction Hs as [|x a a' _ IH|x a a' _ IH]; intros expected H.
  - assumption.
  - inversion H; subst.
    + apply embeds_nil.
    + apply embeds_here; auto.
    + apply embeds_later; auto.
  - apply embeds_cons_actual. auto.
Qed.

Lemma embeds_expected_mono (e e' actual : list str) :
  subsequence e' e -> embeds e actual -> embeds e' actual.
Proof.
  intros Hs H. revert e' Hs.
  induction H as [actual|x es line rest Hc _ IH|x es line rest _ IH];
    intros e' Hs.
  - inversion Hs; subst. apply embeds_nil.
  - inversion Hs; subst.
    + apply embeds_here; auto.
    + apply embeds_cons_actual. auto.
  - apply embeds_cons_actual. auto.
Qed.

Lemma embeds_length (expected actual : list str) :
  embeds expected actual -> length expected <= length actual.
Proof. induction 1; cbn [length] in *; lia. Qed.

Lemma fragments_subsequence (a a' : list str) :
  subsequence a a' -> subsequence (fragments a) (fragments a').
Proof.
  unfold fragments. induction 1 as [|x a a' _ IH|x a a' _ IH].
  - constructor.
  - cbn [filter]. destruct (truthy (strip x)); cbn [map];
      [now apply subsequence_keep|assumption].
  - cbn [filter]. destruct (truthy (strip x)); cbn [map];
      [now apply subsequence_drop|assumption].
Qed.

Lemma fragments_app (a b : list str) :
  fragments (a ++ b) = fragments a ++ fragments b.
Proof. unfold fragments. now rewrite filter_app, map_app. Qed.

Lemma fragments_blank (x : str) : blank x = true -> fragments [x] = [].
Proof.
  intros H. unfold fragments. cbn [filter]. now rewrite truthy_strip, H.
Qed.

Lemma fragments_insert_blank (a b : list str) (x : str) :
  blank x = true -> fragments (a ++ x :: b) = fragments (a ++ b).
Proof.
  intros H. change (x :: b) with ([x] ++ b).
  now rewrite !fragments_app, (fragments_blank x H).
Qed.

Lemma fragments_same_normal_form (l l' : list str) :
  Forall2 (fun x y => normalize_text x = normalize_text y) l l' ->
  fragments l = fragments l'.
Proof.
  unfold fragments. induction 1 as [|x y l l' Hxy _ IH]; [reflexivity|].
  cbn [filter]. rewrite !truthy_strip.
  assert (Hb : blank x = blank y).
  { destruct (blank x) eqn:Ex, (blank y) eqn:Ey; try reflexivity.
    - apply normalize_text_nil_iff in Ex. rewrite Hxy in Ex.
      apply normalize_text_nil_iff in Ex. congruence.
    - apply normalize_text_nil_iff in Ey. rewrite <- Hxy in Ey.
      apply normalize_text_nil_iff in Ey. congruence. }
  rewrite <- Hb. destruct (blank x); cbn [negb map]; [assumption|].
  now rewrite Hxy, IH.
Qed.

Lemma length_fragments (l : list str) :
  length (fragments l) = length (filter (fun x => negb (blank x)) l).
Proof.
  unfold fragments. rewrite length_map. f_equal.
  apply filter_ext. intros x. apply truthy_strip.
Qed.

(** X7. A log matches itself: with the actual lines as expected
    fragments the matcher answers true. *)
Theorem check_ordered_subsequence_reflexive (lines : list str) :
  check_ordered_subsequence_with_missing lines lines = Some true.
Proof. rewrite check_greedy. now rewrite greedy_refl. Qed.

(** X8. A match survives more log and fewer expectations: when the
    matcher answers true, it still does after any lines are inserted
    into the actual lines, and after any of the expected fragments are
    left out. *)
Theorem check_ordered_subsequence_monotone
        (expected expected' actual actual' : list str) :
  subsequence actual actual' ->
  subsequence expected' expected ->
  check_ordered_subsequence_with_missing expected actual = Some true ->
  check_ordered_subsequence_with_missing expected' actual' = Some true.
Proof.
  intros Ha He. rewrite !check_greedy. intros [= H]. f_equal.
  apply greedy_embeds. apply greedy_embeds in H.
  apply (embeds_actual_mono _ (fragments actual)).
  - now apply fragments_subsequence.
  - apply (embeds_expected_mono (fragments expected)); [|assumption].
    now apply fragments_subsequence.
Qed.

Lemma check_ordered_subsequence_monotone_witness :
  check_ordered_subsequence_with_missing
    [u "! Emergency stop"]
    [u "This is pdfTeX"; u "! Undefined control sequence."; u "l.3";
     u "! Emergency stop."; u "No pages of output."]
  = Some true.
Proof.
  apply (check_ordered_subsequence_monotone
           [u "! Undefined"; u "! Emergency stop"] [u "! Emergency stop"]
           [u "! Undefined control sequence."; u "! Emergency stop."]).
  - apply subsequence_drop, subsequence_keep, subsequence_drop,
      subsequence_keep, subsequence_drop, subsequence_nil.
  - apply subsequence_drop, subsequence_keep, subsequence_nil.
  - reflexivity.
Defined.

(** X9. The matcher sees its arguments only through [normalize_text]:
    entries replaced by entries with the same normalization, such as
    the same text with other spacing, give the same answer; and a blank
    entry, among the expected fragments or among the actual lines, is
    ignored. *)
Theorem check_ordered_subsequence_whitespace
        (expected expected' actual actual' : list str) :
  Forall2 (fun x y => normalize_text x = normalize_text y) expected expected' ->
  Forall2 (fun x y => normalize_text x = normalize_text y) actual actual' ->
  check_ordered_subsequence_with_missing expected actual
  = check_ordered_subsequence_with_missing expected' actual'
  /\ (forall x e1 e2,
         blank x = true ->
         check_ordered_subsequence_with_missing (e1 ++ x :: e2) actual
         = check_ordered_subsequence_with_missing (e1 ++ e2) actual)
  /\ (forall x a1 a2,
         blank x = true ->
         check_ordered_subsequence_with_missing expected (a1 ++ x :: a2)
         = check_ordered_subsequence_with_missing expected (a1 ++ a2)).
Proof.
  intros He Ha. rewrite !check_greedy. split; [|split].
  - now rewrite (fragments_same_normal_form _ _ He),
      (fragments_same_normal_form _ _ Ha).
  - intros x e1 e2 Hb. now rewrite !check_greedy, fragments_insert_blank.
  - intros x a1 a2 Hb. now rewrite !check_greedy, fragments_insert_blank.
Qed.

Lemma check_ordered_subsequence_whitespace_witness :
  check_ordered_subsequence_with_missing
    [u "! Emergency stop"] [u "l.3"; u "!  Emergency stop."]
  = check_ordered_subsequence_with_missing
      [u " !Emergency   stop "] [u "l. 3"; u "!Emergencystop."].
Proof.
  apply (check_ordered_subsequence_whitespace
           [u "! Emergency stop"] [u " !Emergency   stop "]
           [u "l.3"; u "!  Emergency stop."] [u "l. 3"; u "!Emergencystop."]).
  - repeat constructor.
  - repeat constructor.
Defined.

(** X10. Each actual line serves one expected fragment at most: when
    the matcher answers true, there are at least as many non-blank
    actual lines as non-blank expected fragments. *)
Theorem check_ordered_subsequence_needs_lines (expected actual : list str) :
  check_ordered_subsequence_with_missing expected actual = Some true ->
  length (filter (fun x => negb (blank x)) expected)
  <= length (filter (fun x => negb (blank x)) actual).
Proof.
  rewrite check_greedy. intros [= H]. apply greedy_embeds in H.
  rewrite <- !length_fragments. now apply embeds_length.
Qed.

Lemma check_ordered_subsequence_needs_lines_witness :
  length (filter (fun x => negb (blank x)) [u "a"; u " "; u "b"])
  <= length (filter (fun x => negb (blank x)) [u "xa"; u "c"; u ""; u "b"]).
Proof. apply check_ordered_subsequence_needs_lines. reflexivity. Defined.

(* ================================================================== *)
(** ** More about notebooks *)

Lemma mapM_fixed {A} (f : A -> option A) (l : list A) :
  mapM f l = Some l -> Forall (fun x => f x = Some x) l.
Proof.
  intros H. apply mapM_Forall2 in H.
  induction l as [|x l IH]; [constructor|].
  inversion H; subst. constructor; auto.
Qed.

Lemma normalize_output_fixed_fields (o : dict) :
  normalize_output (JDict o) = Some (JDict o) ->
  (forall v, dict_get (u "execution_count") o = Some v -> v = JNull)
  /\ (forall v, dict_get (u "metadata") o = Some v -> v = JDict []).
Proof.
  rewrite normalize_output_dict. intros [= H]. split; intros v Hv.
  - rewrite <- H in Hv.
    rewrite (dict_get_replace_other (u "metadata") (u "execution_count")) in Hv
      by key_neq.
    rewrite dict_get_replace_same in Hv.
    destruct (dict_get (u "execution_count") o); congruence.
  - rewrite <- H in Hv. rewrite dict_get_replace_same in Hv.
    destruct (dict_get (u "metadata") _); congruence.
Qed.

Lemma normalize_cell_fixed_fields (c : dict) :
  normalize_cell (JDict c) = Some (JDict c) ->
  (forall v, dict_get (u "execution_count") c = Some v -> v = JNull)
  /\ (forall v, dict_get (u "metadata") c = Some v -> v = JDict [])
  /\ (forall outs, dict_get (u "outputs") c = Some (JList outs) ->
                   Forall (fun o => normalize_output o = Some o) outs).
Proof.
  intros H.
  assert (Hreset : forall k, k <> u "outputs" ->
                             dict_get k c = dict_get k (reset_cell c)).
  { intros k Hk. rewrite normalize_cell_dict in H.
    destruct (dict_get (u "outputs") c) as [outs|].
    - destruct (for_in_place normalize_output outs) as [o'|];
        [|discriminate]. cbn [option_map] in H. injection H as H.
      rewrite <- H at 1. now rewrite dict_get_replace_other by auto.
    - injection H as H. now rewrite H. }
  split; [|split].
  - intros v Hv. rewrite Hreset in Hv by key_neq. unfold reset_cell in Hv.
    rewrite (dict_get_replace_other (u "metadata") (u "execution_count")) in Hv
      by key_neq.
    rewrite dict_get_replace_same in Hv.
    destruct (dict_get (u "execution_count") c); congruence.
  - intros v Hv. rewrite Hreset in Hv by key_neq. unfold reset_cell in Hv.
    rewrite dict_get_replace_same in Hv.
    destruct (dict_get (u "metadata") _); congruence.
  - intros outs Ho. rewrite normalize_cell_dict, Ho, for_in_place_list in H.
    destruct (mapM normalize_output outs) as [outs'|] eqn:Em; [|discriminate].
    cbn [option_map] in H. injection H as H.
    assert (Hget : dict_get (u "outputs") c = Some (JList outs')).
    { rewrite <- H at 1. rewrite dict_get_replace_same.
      rewrite (reset_cell_get (u "outputs") c), Ho by key_neq. reflexivity. }
    rewrite Ho in Hget. injection Hget as <-. now apply mapM_fixed.
Qed.

Lemma normalize_notebook_fixed_fields (d : dict) :
  normalize_notebook (JDict d) = Some (JDict d) ->
  (forall v, dict_get (u "metadata") d = Some v -> v = JDict [])
  /\ (forall cells, dict_get (u "cells") d = Some (JList cells) ->
                    Forall (fun c => normalize_cell c = Some c) cells).
Proof.
  intros H. split.
  - intros v Hv. rewrite normalize_notebook_dict in H. cbv zeta in H.
    assert (Hm : dict_get (u "metadata") d
                 = dict_get (u "metadata")
                            (dict_replace (u "metadata") (JDict []) d)).
    { destruct (dict_get (u "cells") d) as [cells|].
      - destruct (for_in_place normalize_cell cells) as [c'|];
          [|discriminate]. cbn [option_map] in H. injection H as H.
        rewrite <- H at 1. now rewrite dict_get_replace_other by key_neq.
      - injection H as H. now rewrite H. }
    rewrite Hm, dict_get_replace_same in Hv.
    destruct (dict_get (u "metadata") d); congruence.
  - intros cells Hc. rewrite normalize_notebook_dict in H. cbv zeta in H.
    rewrite Hc, for_in_place_list in H.
    destruct (mapM normalize_cell cells) as [cells'|] eqn:Em; [|discriminate].
    cbn [option_map] in H. injection H as H.
    assert (Hget : dict_get (u "cells") d = Some (JList cells')).
    { rewrite <- H at 1. rewrite dict_get_replace_same.
      rewrite (dict_get_replace_other (u "metadata") (u "cells")), Hc
        by key_neq. reflexivity. }
    rewrite Hc in Hget. injection Hget as <-. now apply mapM_fixed.
Qed.

Lemma Forall_nth_error {A} (P : A -> Prop) (l : list A) (i : nat) (x : A) :
  Forall P l -> nth_error l i = Some x -> P x.
Proof.
  intros H Hi. rewrite Forall_forall in H. apply H.
  now apply nth_error_In with (n := i).
Qed.

Lemma normalized_cell_fixed (i : nat) (d : dict) (cells : list json) (c : dict) :
  normalize_notebook (JDict d) = Some (JDict d) ->
  dict_get (u "cells") d = Some (JList cells) ->
  nth_error cells i = Some (JDict c) ->
  normalize_cell (JDict c) = Some (JDict c).
Proof.
  intros H Hc Hi.
  destruct (normalize_notebook_fixed_fields d H) as [_ Hcells].
  apply (Forall_nth_error _ _ _ _ (Hcells cells Hc) Hi).
Qed.

(** X11. What normalization guarantees: in a normalized notebook the
    top-level metadata, when present, is the empty dict; the execution
    counter of every cell and of every output, when present, is [None];
    and the metadata of every cell and of every output, when present,
    is the empty dict. *)
Theorem normalize_notebook_resets (nb n : json) :
  normalize_notebook nb = Some n ->
  (forall d v, n = JDict d -> dict_get (u "metadata") d = Some v ->
               v = JDict [])
  /\ (forall i v, cell_field (u "execution_count") i n = Some v -> v = JNull)
  /\ (forall i v, cell_field (u "metadata") i n = Some v -> v = JDict [])
  /\ (forall i j v,
         output_field (u "execution_count") i j n = Some v -> v = JNull)
  /\ (forall i j v,
         output_field (u "metadata") i j n = Some v -> v = JDict []).
Proof.
  intros H. apply normalize_notebook_idem in H.
  destruct (normalize_notebook_is_dict _ _ H) as [d ->].
  assert (Hcell : forall k i v,
             cell_field k i (JDict d) = Some v ->
             exists c, normalize_cell (JDict c) = Some (JDict c)
                       /\ dict_get k c = Some v).
  { intros k i v Hv. unfold cell_field in Hv.
    destruct (dict_get (u "cells") d) as [[| | | |cells|]|] eqn:Ec;
      try discriminate.
    destruct (nth_error cells i) as [[| | | | |c]|] eqn:Ei; try discriminate.
    exists c. split; [|assumption].
    apply (normalized_cell_fixed i d cells c H Ec Ei). }
  assert (Hout : forall k i j v,
             output_field k i j (JDict d) = Some v ->
             exists o, normalize_output (JDict o) = Some (JDict o)
                       /\ dict_get k o = Some v).
  { intros k i j v Hv. unfold output_field in Hv.
    destruct (cell_field (u "outputs") i (JDict d)) as [[| | | |outs|]|] eqn:Eo;
      try discriminate.
    destruct (Hcell _ _ _ Eo) as (c & Hc & Hg).
    destruct (nth_error outs j) as [[| | | | |o]|] eqn:Ej; try discriminate.
    exists o. split; [|assumption].
    destruct (normalize_cell_fixed_fields c Hc) as (_ & _ & Houts).
    apply (Forall_nth_error _ _ _ _ (Houts outs Hg) Ej). }
  split; [|split; [|split; [|split]]].
  - intros d' v [= <-] Hv.
    now apply (proj1 (normalize_notebook_fixed_fields d H)).
  - intros i v Hv. destruct (Hcell _ _ _ Hv) as (c & Hc & Hg).
    now apply (proj1 (normalize_cell_fixed_fields c Hc)).
  - intros i v Hv. destruct (Hcell _ _ _ Hv) as (c & Hc & Hg).
    now apply (proj1 (proj2 (normalize_cell_fixed_fields c Hc))).
  - intros i j v Hv. destruct (Hout _ _ _ _ Hv) as (o & Ho & Hg).
    now apply (proj1 (normalize_output_fixed_fields o Ho)).
  - intros i j v Hv. destruct (Hout _ _ _ _ Hv) as (o & Ho & Hg).
    now apply (proj2 (normalize_output_fixed_fields o Ho)).
Qed.

Lemma normalize_notebook_resets_witness :
  exists n v w,
    normalize_notebook (example_notebook 3 (u "a1") (u "x = 1")) = Some n
    /\ cell_field (u "execution_count") 0 n = Some v /\ v = JNull
    /\ output_field (u "metadata") 0 0 n = Some w /\ w = JDict [].
Proof.
  eexists _, _, _. split; [reflexivity|].
  split; [reflexivity|]. split; [|split; [reflexivity|]].
  - apply (proj1 (proj2 (normalize_notebook_resets
                           (example_notebook 3 (u "a1") (u "x = 1"))
                           _ eq_refl)) 0).
    reflexivity.
  - apply (proj2 (proj2 (proj2 (proj2 (normalize_notebook_resets
                           (example_notebook 3 (u "a1") (u "x = 1"))
                           _ eq_refl)))) 0 0).
    reflexivity.
Defined.

Lemma any_code_cell_normalized (cells cells' : list json) :
  Forall2 (fun c c' => normalize_cell c = Some c') cells cells' ->
  any_code_cell cells' = any_code_cell cells.
Proof.
  induction 1 as [|c c' cells cells' Hc _ IH]; [reflexivity|].
  destruct (dict_or_not c) as [[d ->]|Hnd].
  - pose proof (normalize_cell_kept _ _ Hc) as [Hk _].
    destruct c' as [| | | | |d']; try discriminate Hk.
    destruct Hk as [_ Hk]. cbn [any_code_cell].
    rewrite (Hk (u "cell_type")) by reflexivity. now rewrite IH.
  - rewrite (normalize_cell_not_dict _ _ Hnd Hc).
    destruct c; try reflexivity. now destruct (Hnd d).
Qed.

(** X12. Normalizing a notebook does not change whether it has code
    cells: [notebook_has_code_cells] gives the same answer, or raises
    alike, before and after [normalize_notebook]. *)
Theorem notebook_has_code_cells_normalized (nb n : json) :
  normalize_notebook nb = Some n ->
  notebook_has_code_cells n = notebook_has_code_cells nb.
Proof.
  intros H. destruct (normalize_notebook_is_dict _ _ H) as [d ->].
  revert H. rewrite normalize_notebook_dict. cbv zeta.
  destruct (dict_get (u "cells") d) as [cells|] eqn:Ec.
  - destruct (for_in_place normalize_cell cells) as [cells'|] eqn:Ef;
      [|discriminate].
    cbn [option_map]. intros [= <-]. cbn [notebook_has_code_cells].
    rewrite dict_get_replace_same,
      (dict_get_replace_other (u "metadata") (u "cells")), Ec by key_neq.
    destruct cells as [| | | |l|];
      try (apply for_in_place_not_list in Ef;
           [subst cells'; reflexivity|intros; discriminate]).
    rewrite for_in_place_list in Ef.
    destruct (mapM normalize_cell l) as [l'|] eqn:Em; [|discriminate].
    injection Ef as <-. cbn [iter_values].
    apply any_code_cell_normalized. now apply mapM_Forall2.
  - intros [= <-]. cbn [notebook_has_code_cells].
    now rewrite (dict_get_replace_other (u "metadata") (u "cells")), Ec
      by key_neq.
Qed.

Lemma notebook_has_code_cells_normalized_witness :
  exists n,
    normalize_notebook (example_notebook 3 (u "a1") (u "x = 1")) = Some n
    /\ notebook_has_code_cells n = Some true.
Proof.
  eexists. split; [reflexivity|].
  etransitivity.
  - apply (notebook_has_code_cells_normalized
             (example_notebook 3 (u "a1") (u "x = 1"))).
    reflexivity.
  - reflexivity.
Defined.

Lemma clear_field_scalar (k : str) (v c : json) :
  scalar c = true -> clear_field k v c = None.
Proof. destruct c; try discriminate; reflexivity. Qed.

Lemma normalize_cell_scalar (c : json) :
  scalar c = true -> normalize_cell c = None.
Proof.
  intros H. unfold normalize_cell. now rewrite clear_field_scalar.
Qed.

Lemma mapM_none {A B} (f : A -> option B) (l : list A) (x : A) :
  In x l -> f x = None -> mapM f l = None.
Proof.
  induction l as [|y l IH]; [contradiction|].
  intros [->|Hin] Hx; cbn [mapM].
  - now rewrite Hx.
  - destruct (f y); [|reflexivity]. now rewrite IH.
Qed.

(** X13. Where [normalize_notebook] raises and where it does nothing.
    A value that is not a dict raises.  A dict with neither ["metadata"]
    nor ["cells"] is returned as it is.  A notebook whose ["cells"] is
    [None], a boolean or a number raises, and so does a notebook one of
    whose cells is such a value. *)
Theorem normalize_notebook_edges :
  (forall nb, is_dict nb = false -> normalize_notebook nb = None)
  /\ (forall d,
         dict_mem (u "metadata") d = false ->
         dict_mem (u "cells") d = false ->
         normalize_notebook (JDict d) = Some (JDict d))
  /\ (forall d cells,
         dict_get (u "cells") d = Some cells -> scalar cells = true ->
         normalize_notebook (JDict d) = None)
  /\ (forall d cells c,
         dict_get (u "cells") d = Some (JList cells) ->
         In c cells -> scalar c = true ->
         normalize_notebook (JDict d) = None).
Proof.
  split; [|split; [|split]].
  - intros nb Hnd. destruct (normalize_notebook nb) as [n|] eqn:E;
      [|reflexivity].
    destruct (normalize_notebook_is_dict _ _ E) as [d ->]. discriminate.
  - intros d Hm Hc. rewrite normalize_notebook_dict. cbv zeta.
    rewrite dict_mem_get in Hc.
    destruct (dict_get (u "cells") d); [discriminate|].
    now rewrite dict_replace_absent.
  - intros d cells Hc Hs. rewrite normalize_notebook_dict. cbv zeta.
    rewrite Hc. destruct cells; try discriminate; reflexivity.
  - intros d cells c Hc Hin Hs. rewrite normalize_notebook_dict. cbv zeta.
    rewrite Hc, for_in_place_list.
    now rewrite (mapM_none normalize_cell cells c Hin (normalize_cell_scalar c Hs)).
Qed.

Lemma normalize_notebook_edges_witness :
  normalize_notebook (JList [JStr (u "x")]) = None
  /\ normalize_notebook (JDict [(u "nbformat", JInt 4)])
     = Some (JDict [(u "nbformat", JInt 4)])
  /\ normalize_notebook (JDict [(u "cells", JNull)]) = None
  /\ normalize_notebook
       (JDict [(u "cells", JList [JDict []; JInt 1])]) = None.
Proof.
  destruct normalize_notebook_edges as (H1 & H2 & H3 & H4).
  split; [|split; [|split]].
  - apply H1. reflexivity.
  - apply H2; reflexivity.
  - apply (H3 _ JNull); reflexivity.
  - apply (H4 _ [JDict []; JInt 1] (JInt 1)); [reflexivity| |reflexivity].
    right. now left.
Defined.

Lemma any_code_cell_none (cells : list json) :
  forallb is_dict cells = true ->
  existsb is_code_cell cells = false ->
  any_code_cell cells = Some false.
Proof.
  induction cells as [|c cells IH]; [reflexivity|].
  cbn [forallb existsb]. intros Hd He.
  apply andb_true_iff in Hd as [Hc Hd]. apply orb_false_iff in He as [Hn He].
  destruct c; try discriminate Hc. cbn [any_code_cell].
  unfold is_code_cell in Hn.
  destruct (dict_get (u "cell_type") d) as [v|].
  - rewrite Hn. auto.
  - cbn [py_eqb]. auto.
Qed.

Lemma any_code_cell_first (before after : list json) (c : json) :
  forallb is_dict before = true ->
  existsb is_code_cell before = false ->
  is_code_cell c = true ->
  any_code_cell (before ++ c :: after) = Some true.
Proof.
  induction before as [|b before IH]; cbn [forallb existsb app].
  - intros _ _ Hc. destruct c; try discriminate Hc. cbn [any_code_cell].
    unfold is_code_cell in Hc.
    destruct (dict_get (u "cell_type") d) as [v|]; [|discriminate].
    now rewrite Hc.
  - intros Hd He Hc.
    apply andb_true_iff in Hd as [Hb Hd]. apply orb_false_iff in He as [Hn He].
    destruct b; try discriminate Hb. cbn [any_code_cell].
    unfold is_code_cell in Hn.
    destruct (dict_get (u "cell_type") d) as [v|].
    + rewrite Hn. auto.
    + cbn [py_eqb]. auto.
Qed.

(** X14. [notebook_has_code_cells] on a notebook dict: without a
    ["cells"] key the answer is false; with a list of dict cells none of
    which has [cell_type] ["code"] the answer is false; and the answer is
    true as soon as a code cell follows dict cells that are not code,
    whatever comes after it, since [any] stops at the first code cell. *)
Theorem notebook_has_code_cells_spec (d : dict) :
  (dict_get (u "cells") d = None ->
   notebook_has_code_cells (JDict d) = Some false)
  /\ (forall cells,
         dict_get (u "cells") d = Some (JList cells) ->
         forallb is_dict cells = true ->
         existsb is_code_cell cells = false ->
         notebook_has_code_cells (JDict d) = Some false)
  /\ (forall before c after,
         dict_get (u "cells") d = Some (JList (before ++ c :: after)) ->
         forallb is_dict before = true ->
         existsb is_code_cell before = false ->
         is_code_cell c = true ->
         notebook_has_code_cells (JDict d) = Some true).
Proof.
  split; [|split].
  - intros H. cbn [notebook_has_code_cells]. now rewrite H.
  - intros cells H Hd He. cbn [notebook_has_code_cells]. rewrite H.
    cbn [iter_values]. now apply any_code_cell_none.
  - intros before c after H Hd He Hc. cbn [notebook_has_code_cells].
    rewrite H. cbn [iter_values]. now apply any_code_cell_first.
Qed.

Lemma notebook_has_code_cells_spec_witness :
  notebook_has_code_cells
    (JDict [(u "cells",
             JList [JDict [(u "cell_type", JStr (u "markdown"))];
                    JDict [(u "cell_type", JStr (u "code"))];
                    JInt 7])])
  = Some true.
Proof.
  apply (proj2 (proj2 (notebook_has_code_cells_spec _))
               [JDict [(u "cell_type", JStr (u "markdown"))]]
               (JDict [(u "cell_type", JStr (u "code"))])
               [JInt 7]); reflexivity.
Defined.

(* ================================================================== *)
(** ** More about paths and test resolution *)

Lemma split_on_hd_tl (sep : char) (p : str) :
  split_on sep p = hd [] (split_on sep p) :: tl (split_on sep p).
Proof.
  induction p as [|c p IH]; [reflexivity|].
  cbn [split_on]. destruct (char_eqb c sep); [reflexivity|].
  rewrite IH. reflexivity.
Qed.

Lemma split_on_cons_other (sep c : char) (p : str) :
  char_eqb c sep = false ->
  hd [] (split_on sep (c :: p)) = c :: hd [] (split_on sep p)
  /\ tl (split_on sep (c :: p)) = tl (split_on sep p).
Proof.
  intros H. cbn [split_on]. rewrite H.
  rewrite (split_on_hd_tl sep p). split; reflexivity.
Qed.

Lemma char_eqb_sym (a b : char) : char_eqb a b = char_eqb b a.
Proof. apply N.eqb_sym. Qed.

(** The first component of a path starts with a separator-free prefix
    exactly when the path does. *)
Lemma startswith_first_component (sep : char) (p y : str) :
  existsb (char_eqb sep) y = false ->
  startswith (hd [] (split_on sep p)) y = startswith p y.
Proof.
  revert y; induction p as [|c p IH]; intros y Hy; [reflexivity|].
  destruct (char_eqb c sep) eqn:Ec.
  - cbn [split_on]. rewrite Ec. cbn [hd].
    destruct y as [|x y]; [reflexivity|].
    cbn [startswith existsb] in *. apply orb_false_iff in Hy as [Hx _].
    apply N.eqb_eq in Ec. subst c. rewrite char_eqb_sym, Hx. reflexivity.
  - destruct (split_on_cons_other sep c p Ec) as [-> _].
    destruct y as [|x y]; [reflexivity|].
    cbn [startswith existsb] in *. apply orb_false_iff in Hy as [_ Hy].
    now rewrite IH.
Qed.

Lemma later_components (sep : char) (p x : str) :
  existsb (char_eqb sep) x = false ->
  existsb (fun part => startswith part x) (tl (split_on sep p))
  = contains p (sep :: x).
Proof.
  intros Hx. induction p as [|c p IH]; [reflexivity|].
  cbn [contains startswith].
  destruct (char_eqb c sep) eqn:Ec.
  - cbn [split_on]. rewrite Ec. cbn [tl].
    rewrite (split_on_hd_tl sep p). cbn [existsb].
    rewrite IH, (startswith_first_component sep p x Hx).
    rewrite char_eqb_sym, Ec. reflexivity.
  - destruct (split_on_cons_other sep c p Ec) as [_ ->].
    rewrite IH, char_eqb_sym, Ec. reflexivity.
Qed.

(** X15. What [is_in_xsim_files_dir] flags: exactly the paths that
    start with [xsim-files] or contain [/xsim-files], that is, the paths
    with a component, directory or file name, that begins with the
    prefix. *)
Theorem is_in_xsim_files_dir_substring (path : str) :
  is_in_xsim_files_dir path
  = startswith path (u "xsim-files")
    || contains path (os_sep :: u "xsim-files").
Proof.
  unfold is_in_xsim_files_dir. rewrite (split_on_hd_tl os_sep path).
  cbn [existsb].
  rewrite (startswith_first_component os_sep path (u "xsim-files"))
    by reflexivity.
  now rewrite (later_components os_sep path (u "xsim-files")) by reflexivity.
Qed.

Lemma str_leb_total (a b : str) : str_leb a b = true \/ str_leb b a = true.
Proof.
  revert b; induction a as [|x a IH]; intros [|y b]; cbn [str_leb]; auto.
  destruct (N.lt_trichotomy x y) as [H|[H|H]].
  - left. apply orb_true_iff. left. now apply N.ltb_lt.
  - subst y. destruct (IH b) as [Hab|Hba]; [left|right];
      apply orb_true_iff; right; rewrite N.eqb_refl; assumption.
  - right. apply orb_true_iff. left. now apply N.ltb_lt.
Qed.

Lemma str_leb_trans (a b c : str) :
  str_leb a b = true -> str_leb b c = true -> str_leb a c = true.
Proof.
  revert b c; induction a as [|x a IH]; intros [|y b] [|z c];
    cbn [str_leb]; try discriminate; auto.
  intros H1 H2.
  apply orb_true_iff in H1 as [H1|H1]; apply orb_true_iff in H2 as [H2|H2];
    apply orb_true_iff.
  - left. apply N.ltb_lt in H1, H2. apply N.ltb_lt. lia.
  - apply andb_true_iff in H2 as [E2 _]. apply N.eqb_eq in E2. subst z.
    now left.
  - apply andb_true_iff in H1 as [E1 _]. apply N.eqb_eq in E1. subst y.
    now left.
  - apply andb_true_iff in H1 as [E1 H1]. apply andb_true_iff in H2 as [E2 H2].
    apply N.eqb_eq in E1, E2. subst y z. right.
    rewrite N.eqb_refl. cbn [andb]. eauto.
Qed.

Lemma str_leb_antisym (a b : str) :
  str_leb a b = true -> str_leb b a = true -> a = b.
Proof.
  revert b; induction a as [|x a IH]; intros [|y b]; cbn [str_leb];
    try discriminate; auto.
  intros H1 H2.
  apply orb_true_iff in H1 as [H1|H1]; apply orb_true_iff in H2 as [H2|H2].
  - apply N.ltb_lt in H1, H2. lia.
  - apply andb_true_iff in H2 as [E2 _]. apply N.eqb_eq in E2.
    apply N.ltb_lt in H1. lia.
  - apply andb_true_iff in H1 as [E1 _]. apply N.eqb_eq in E1.
    apply N.ltb_lt in H2. lia.
  - apply andb_true_iff in H1 as [E1 H1]. apply andb_true_iff in H2 as [_ H2].
    apply N.eqb_eq in E1. subst y. f_equal. auto.
Qed.

Lemma insert_sorted_perm (x : str) (l : list str) :
  Permutation (x :: l) (insert_sorted x l).
Proof.
  induction l as [|y l IH]; cbn [insert_sorted]; [reflexivity|].
  destruct (str_leb x y); [reflexivity|].
  rewrite perm_swap. now apply perm_skip.
Qed.

Lemma sorted_perm (l : list str) : Permutation l (sorted l).
Proof.
  unfold sorted. induction l as [|x l IH]; cbn [fold_right]; [constructor|].
  rewrite <- insert_sorted_perm. now apply perm_skip.
Qed.

Lemma insert_sorted_strongly (x : str) (l : list str) :
  StronglySorted (fun a b => str_leb a b = true) l ->
  StronglySorted (fun a b => str_leb a b = true) (insert_sorted x l).
Proof.
  induction 1 as [|y l Hl IH Hy]; cbn [insert_sorted].
  - repeat constructor.
  - destruct (str_leb x y) eqn:E.
    + constructor; [now constructor|].
      constructor; [assumption|].
      eapply Forall_impl; [|exact Hy]. intros z Hz.
      now apply (str_leb_trans x y z).
    + constructor; [assumption|].
      apply (Permutation_Forall (insert_sorted_perm x l)).
      constructor; [|assumption].
      destruct (str_leb_total x y) as [H|H]; congruence.
Qed.

Lemma sorted_strongly (l : list str) :
  StronglySorted (fun a b => str_leb a b = true) (sorted l).
Proof.
  unfold sorted. induction l as [|x l IH]; cbn [fold_right]; [constructor|].
  now apply insert_sorted_strongly.
Qed.

Lemma strongly_sorted_unique (l1 l2 : list str) :
  StronglySorted (fun a b => str_leb a b = true) l1 ->
  StronglySorted (fun a b => str_leb a b = true) l2 ->
  Permutation l1 l2 -> l1 = l2.
Proof.
  intros H1; revert l2.
  induction H1 as [|x l1 Hl1 IH Hx]; intros l2 H2 Hp.
  - now apply Permutation_nil in Hp.
  - destruct H2 as [|y l2 Hl2 Hy].
    + symmetry in Hp. now apply Permutation_nil in Hp.
    + assert (x = y) as <-.
      { assert (Hxy : str_leb x y = true).
        { assert (In y (x :: l1))
            by (apply (Permutation_in y (Permutation_sym Hp)); now left).
          destruct H as [->|Hin].
          - destruct (str_leb_total y y); assumption.
          - rewrite Forall_forall in Hx. auto. }
        assert (Hyx : str_leb y x = true).
        { assert (In x (y :: l2))
            by (apply (Permutation_in x Hp); now left).
          destruct H as [->|Hin].
          - assumption.
          - rewrite Forall_forall in Hy. auto. }
        now apply str_leb_antisym. }
      f_equal. apply IH; [assumption|].
      now apply Permutation_cons_inv in Hp.
Qed.

Lemma sorted_of_permutation (l l' : list str) :
  Permutation l l' -> sorted l = sorted l'.
Proof.
  intros Hp. apply strongly_sorted_unique; try apply sorted_strongly.
  rewrite <- (sorted_perm l), <- (sorted_perm l'). exact Hp.
Qed.

(** X16. Discovery is deterministic.  [sorted] returns its argument
    rearranged in non-decreasing order, and the list of discovered tests
    does not depend on the order in which [glob] enumerates the files:
    two enumerations of the same files give the same tests in the same
    order. *)
Theorem discover_deterministic :
  (forall l : list str,
      Permutation l (sorted l)
      /\ StronglySorted (fun a b => str_leb a b = true) (sorted l))
  /\ (forall (ext ext' : Externals) (pattern : str) (s : state),
         Permutation (glob ext pattern (world s))
                     (glob ext' pattern (world s)) ->
         discover ext pattern s = discover ext' pattern s).
Proof.
  split.
  - intros l. split; [apply sorted_perm|apply sorted_strongly].
  - intros ext ext' pattern s Hp. unfold discover, bind, get_world, ret.
    now rewrite (sorted_of_permutation _ _ Hp).
Qed.

Lemma discover_deterministic_witness :
  discover (simulated [] [] [u "b/test_y.tex"; u "a/test_x.tex"])
           (u "**/test_*.tex") (initial world_with_xsim_file)
  = discover (simulated [] [] [u "a/test_x.tex"; u "b/test_y.tex"])
             (u "**/test_*.tex") (initial world_with_xsim_file).
Proof.
  apply (proj2 discover_deterministic). apply perm_swap.
Defined.

Lemma determine_tests_unfold (ext : Externals) (args : list str) :
  determine_tests ext args
  = if truthy args then for_fold args (resolve_argument ext) []
    else discover ext (u "**/test_*.tex").
Proof. reflexivity. Qed.

Lemma resolve_supported (ext : Externals) (good : list str) (s : state) :
  Forall (fun p => supported (world s) p = true) good ->
  forall acc,
  exists acc', for_fold good (resolve_argument ext) acc s = (Return acc', s).
Proof.
  induction 1 as [|path good Hp _ IH]; intros acc.
  - exists acc. reflexivity.
  - cbn [for_fold]. unfold supported in Hp.
    unfold bind at 1. unfold resolve_argument at 1.
    unfold bind at 1. unfold get_world at 1.
    destruct (fs_isfile (world s) path && endswith path (u ".tex")) eqn:Ef.
    + unfold ret at 1. apply IH.
    + cbn [orb] in Hp. rewrite Hp.
      destruct (discover_spec ext
                  (path_join (path_join path (u "**")) (u "test_*.tex")) s)
        as (found & Hd & _).
      unfold bind at 1. rewrite Hd. unfold ret at 1. apply IH.
Qed.

(** X17. A path argument that is neither a [.tex] file nor a directory
    is a fatal usage error: when the arguments before it are supported,
    test resolution prints the offending path and ends the process with
    status 1, without any subprocess call and without touching the
    file system, whatever follows on the command line. *)
Theorem determine_tests_unsupported_argument
        (ext : Externals) (good rest : list str) (bad : str) (s : state) :
  Forall (fun p => supported (world s) p = true) good ->
  supported (world s) bad = false ->
  determine_tests ext (good ++ bad :: rest) s
  = (SysExit 1,
     mkState (world s) (stdout s ++ [NotFoundOrUnsupported bad]) (calls s)
             (failure_counter s)).
Proof.
  intros Hgood Hbad. rewrite determine_tests_unfold.
  assert (truthy (good ++ bad :: rest) = true) as -> by (now destruct good).
  rewrite for_fold_app. unfold bind at 1.
  destruct (resolve_supported ext good s Hgood []) as (acc' & ->).
  cbn [for_fold]. unfold supported in Hbad.
  apply orb_false_iff in Hbad as [Hf Hd].
  unfold bind at 1. unfold resolve_argument at 1.
  unfold bind at 1. unfold get_world at 1. rewrite Hf, Hd.
  reflexivity.
Qed.

Lemma determine_tests_unsupported_argument_witness :
  determine_tests (simulated [] [] [u "t/test_b.tex"])
                  ([u "t"; u "t/test_b.tex"] ++ u "t/notes.txt" :: [u "t"])
                  (initial world_with_xsim_file)
  = (SysExit 1,
     mkState world_with_xsim_file [NotFoundOrUnsupported (u "t/notes.txt")]
             [] (FailureCounter_init 9223372036854775807)).
Proof.
  apply (determine_tests_unsupported_argument
           (simulated [] [] [u "t/test_b.tex"])
           [u "t"; u "t/test_b.tex"] [u "t"] (u "t/notes.txt")
           (initial world_with_xsim_file)).
  - repeat constructor.
  - reflexivity.
Defined.

Lemma parse_flags_unfold (ext : Externals) (args : list str) :
  parse_flags ext args
  = for_fold args (parse_flag ext) (sys_maxsize, false, []).
Proof. reflexivity. Qed.

Lemma is_regold_not_maxfail (arg : str) :
  is_regold arg = true -> is_maxfail arg = false.
Proof.
  unfold is_regold. intros H. apply str_eqb_eq in H. now subst arg.
Qed.

Lemma parse_flag_loop (ext : Externals) (args : list str) (s : state) :
  (forall a, In a args -> is_maxfail a = true ->
             exists n, int_of_str ext (maxfail_value a) = Some n) ->
  forall m0 r0 p0,
  exists m,
    for_fold args (parse_flag ext) (m0, r0, p0) s
    = (Return (m, r0 || existsb is_regold args, p0 ++ filter positional args),
       s)
    /\ (forallb (fun a => negb (is_maxfail a)) args = true -> m = m0)
    /\ (forall pre a post n,
           args = pre ++ a :: post ->
           is_maxfail a = true ->
           forallb (fun a => negb (is_maxfail a)) post = true ->
           int_of_str ext (maxfail_value a) = Some n -> m = n).
Proof.
  induction args as [|arg args IH]; intros Hok m0 r0 p0.
  - exists m0. cbn [for_fold existsb filter]. unfold ret.
    rewrite orb_false_r, app_nil_r. split; [reflexivity|]. split; [auto|].
    intros [|? ?] ? ? ? H; discriminate H.
  - assert (Hok' : forall a, In a args -> is_maxfail a = true ->
                             exists n, int_of_str ext (maxfail_value a) = Some n).
    { intros a Ha. apply Hok. now right. }
    cbn [for_fold]. unfold bind at 1. unfold parse_flag at 1.
    fold (is_maxfail arg). fold (is_regold arg). fold (maxfail_value arg).
    cbn [existsb filter forallb]. unfold positional at 1.
    destruct (is_maxfail arg) eqn:Em.
    + destruct (Hok arg (or_introl eq_refl) Em) as [n Hn]. rewrite Hn.
      unfold ret at 1.
      assert (Hr : is_regold arg = false).
      { destruct (is_regold arg) eqn:Er; [|reflexivity].
        apply is_regold_not_maxfail in Er. congruence. }
      rewrite Hr. cbn [negb andb orb].
      destruct (IH Hok' n r0 p0) as (m & Hm & Hnone & Hlast).
      exists m. split; [assumption|]. split; [discriminate|].
      intros pre a post n' Hargs Ha Hpost Hn'.
      destruct pre as [|x pre]; cbn [app] in Hargs; injection Hargs as -> ->.
      * rewrite Hn in Hn'. injection Hn' as <-. now apply Hnone.
      * now apply (Hlast pre a post n').
    + cbn [negb andb]. destruct (is_regold arg) eqn:Er; unfold ret at 1.
      * cbn [negb]. destruct (IH Hok' m0 true p0) as (m & Hm & Hnone & Hlast).
        exists m. rewrite orb_true_r. cbn [orb] in Hm.
        split; [assumption|]. split; [assumption|].
        intros pre a post n Hargs Ha Hpost Hn.
        destruct pre as [|x pre]; cbn [app] in Hargs; injection Hargs as -> ->.
        -- congruence.
        -- now apply (Hlast pre a post n).
      * cbn [negb orb].
        destruct (IH Hok' m0 r0 (p0 ++ [arg])) as (m & Hm & Hnone & Hlast).
        exists m. rewrite <- app_assoc in Hm. cbn [app] in Hm.
        split; [assumption|]. split; [assumption|].
        intros pre a post n Hargs Ha Hpost Hn.
        destruct pre as [|x pre]; cbn [app] in Hargs; injection Hargs as -> ->.
        -- congruence.
        -- now apply (Hlast pre a post n).
Qed.

(** X18. How [main] reads its command line when every ceiling flag
    holds a number: the positional arguments are the arguments that are
    neither [--maxfail=...] nor [--regold], in their order; regold mode
    is on exactly when [--regold] occurs; the ceiling is the value of
    the last [--maxfail=...] flag and [sys.maxsize] without such a flag;
    nothing is printed. *)
Theorem parse_flags_spec (ext : Externals) (args : list str) (s : state) :
  (forall a, In a args -> is_maxfail a = true ->
             exists n, int_of_str ext (maxfail_value a) = Some n) ->
  exists m,
    parse_flags ext args s
    = (Return (m, existsb is_regold args, filter positional args), s)
    /\ (forallb (fun a => negb (is_maxfail a)) args = true ->
        m = sys_maxsize)
    /\ (forall pre a post n,
           args = pre ++ a :: post ->
           is_maxfail a = true ->
           forallb (fun a => negb (is_maxfail a)) post = true ->
           int_of_str ext (maxfail_value a) = Some n -> m = n).
Proof.
  intros Hok. rewrite parse_flags_unfold.
  destruct (parse_flag_loop ext args s Hok sys_maxsize false [])
    as (m & Hm & Hnone & Hlast).
  exists m. split; [|split]; assumption.
Qed.

Lemma parse_flags_spec_witness :
  exists m,
    parse_flags (simulated [] [] []) [u "t"; u "--regold"; u "t/test_b.tex"]
                (initial world_with_xsim_file)
    = (Return (m, true, [u "t"; u "t/test_b.tex"]),
       initial world_with_xsim_file)
    /\ m = sys_maxsize.
Proof.
  destruct (parse_flags_spec (simulated [] [] [])
              [u "t"; u "--regold"; u "t/test_b.tex"]
              (initial world_with_xsim_file)) as (m & Hm & Hnone & _).
  - intros a [<-|[<-|[<-|[]]]]; discriminate.
  - exists m. split; [exact Hm|]. apply Hnone. reflexivity.
Defined.

(** X19. A ceiling flag whose value is not a number is a fatal usage
    error: when the flags before it are well formed, [main] prints the
    flag and ends the process with status 1 before any test is
    resolved. *)
Theorem parse_flags_invalid_maxfail
        (ext : Externals) (pre post : list str) (arg : str) (s : state) :
  (forall a, In a pre -> is_maxfail a = true ->
             exists n, int_of_str ext (maxfail_value a) = Some n) ->
  is_maxfail arg = true ->
  int_of_str ext (maxfail_value arg) = None ->
  main ext (u "run_tests.py" :: pre ++ arg :: post) s
  = (SysExit 1,
     mkState (world s) (stdout s ++ [InvalidMaxfail arg]) (calls s)
             (failure_counter s)).
Proof.
  intros Hok Ha Hn. unfold main. cbn [tl]. rewrite parse_flags_unfold.
  unfold bind at 1. rewrite for_fold_app. unfold bind at 1.
  destruct (parse_flag_loop ext pre s Hok sys_maxsize false [])
    as (m & -> & _).
  cbn [for_fold]. unfold bind at 1. unfold parse_flag at 1.
  fold (is_maxfail arg). fold (maxfail_value arg). rewrite Ha, Hn.
  reflexivity.
Qed.

Lemma parse_flags_invalid_maxfail_witness :
  main (simulated [] [] []) (u "run_tests.py" :: [u "--regold"]
                               ++ u "--maxfail=two" :: [u "t"])
       (initial world_with_xsim_file)
  = (SysExit 1,
     mkState world_with_xsim_file [InvalidMaxfail (u "--maxfail=two")] []
             (FailureCounter_init 9223372036854775807)).
Proof.
  apply (parse_flags_invalid_maxfail (simulated [] [] [])
           [u "--regold"] [u "t"] (u "--maxfail=two")
           (initial world_with_xsim_file)).
  - intros a [<-|[]]; discriminate.
  - reflexivity.
  - reflexivity.
Defined.

Lemma path_split_raw_concat (p : str) :
  fst (path_split_raw p) ++ snd (path_split_raw p) = p.
Proof.
  induction p as [|c p IH]; [reflexivity|].
  cbn [path_split_raw]. destruct (path_split_raw p) as [head tail].
  cbn [fst snd] in IH.
  destruct (truthy head || existsb (char_eqb os_sep) p) eqn:E; cbn [fst snd app].
  - now rewrite IH.
  - apply orb_false_iff in E as [Eh _]. destruct head; [|discriminate].
    cbn [app] in IH. subst tail.
    destruct (char_eqb c os_sep); reflexivity.
Qed.

Lemma path_split_raw_no_sep (p : str) :
  existsb (char_eqb os_sep) p = false -> path_split_raw p = ([], p).
Proof.
  induction p as [|c p IH]; [reflexivity|].
  cbn [existsb path_split_raw]. intros H.
  apply orb_false_iff in H as [Hc Hp]. rewrite (IH Hp), Hp.
  cbn [truthy orb]. rewrite char_eqb_sym, Hc. reflexivity.
Qed.

Lemma basename_no_sep (p : str) :
  existsb (char_eqb os_sep) (basename p) = false.
Proof.
  unfold basename. induction p as [|c p IH]; [reflexivity|].
  cbn [path_split_raw]. destruct (path_split_raw p) as [head tail] eqn:Es.
  cbn [snd] in IH.
  destruct (truthy head || existsb (char_eqb os_sep) p) eqn:E; cbn [snd];
    [assumption|].
  destruct (char_eqb c os_sep) eqn:Ec; cbn [snd]; [assumption|].
  cbn [existsb]. now rewrite char_eqb_sym, Ec, IH.
Qed.

Lemma path_split_raw_app (d f : str) :
  existsb (char_eqb os_sep) f = false ->
  path_split_raw (d ++ os_sep :: f) = (d ++ [os_sep], f).
Proof.
  intros Hf. induction d as [|c d IH].
  - cbn [app path_split_raw]. rewrite (path_split_raw_no_sep f Hf), Hf.
    reflexivity.
  - cbn [app path_split_raw]. rewrite IH.
    assert (truthy (d ++ [os_sep]) = true) as -> by (now destruct d).
    reflexivity.
Qed.

Lemma rstrip_sep_snoc (a : str) (x : char) :
  rstrip_sep (a ++ [x])
  = if char_eqb x os_sep then rstrip_sep a else a ++ [x].
Proof.
  induction a as [|c a IH].
  - cbn. destruct (char_eqb x os_sep); reflexivity.
  - cbn [app rstrip_sep]. rewrite IH.
    destruct (char_eqb x os_sep); [reflexivity|].
    destruct (a ++ [x]) eqn:E; [|reflexivity].
    now destruct a.
Qed.

Lemma endswith_snoc (a : str) (x y : char) :
  endswith (a ++ [x]) [y] = char_eqb y x.
Proof.
  unfold endswith. rewrite rev_app_distr. cbn [rev app startswith].
  destruct (char_eqb y x); [|reflexivity]. now destruct (rev a).
Qed.

(** X20. Splitting a path gives back its parts.  The two halves of
    [posixpath.split] concatenate to the path and the base name holds no
    separator; and for a directory that does not end with a separator
    and a file name without separator, the path built by [os.path.join]
    has that directory as its [dirname] and that file name as its
    [basename], so the runner's [test_dir] and [tex_file] are the parts
    the test path was built from. *)
Theorem dirname_basename_of_join :
  (forall p : str,
      fst (path_split_raw p) ++ snd (path_split_raw p) = p
      /\ existsb (char_eqb os_sep) (basename p) = false)
  /\ (forall d f : str,
         endswith d [os_sep] = false ->
         existsb (char_eqb os_sep) f = false ->
         dirname (path_join d f) = d /\ basename (path_join d f) = f).
Proof.
  split.
  - intros p. split; [apply path_split_raw_concat|apply basename_no_sep].
  - intros d f Hd Hf. unfold path_join.
    assert (startswith f [os_sep] = false) as ->.
    { destruct f as [|c f]; [reflexivity|].
      cbn [existsb startswith] in *. apply orb_false_iff in Hf as [-> _].
      reflexivity. }
    rewrite Hd. destruct d as [|c d] using rev_ind.
    + cbn [truthy negb orb app]. unfold dirname, basename.
      rewrite (path_split_raw_no_sep f Hf). split; reflexivity.
    + clear IHd. assert (truthy (d ++ [c]) = true) as -> by (now destruct d).
      cbn [negb orb]. unfold dirname, basename.
      change ((d ++ [c]) ++ [os_sep] ++ f) with ((d ++ [c]) ++ os_sep :: f).
      rewrite (path_split_raw_app (d ++ [c]) f Hf). cbn [fst snd].
      split; [|reflexivity].
      rewrite endswith_snoc in Hd.
      assert (truthy ((d ++ [c]) ++ [os_sep]) = true) as ->
          by (now destruct d).
      assert (forallb (char_eqb os_sep) ((d ++ [c]) ++ [os_sep]) = false) as ->.
      { rewrite !forallb_app. cbn [forallb]. rewrite Hd.
        now rewrite andb_false_r. }
      cbn [negb andb]. rewrite rstrip_sep_snoc.
      unfold char_eqb at 1. rewrite N.eqb_refl.
      rewrite rstrip_sep_snoc, char_eqb_sym, Hd. reflexivity.
Qed.

Lemma dirname_basename_of_join_witness :
  dirname (path_join (u "tests/exam") (u "test_a.tex")) = u "tests/exam"
  /\ basename (path_join (u "tests/exam") (u "test_a.tex")) = u "test_a.tex".
Proof. apply (proj2 dirname_basename_of_join); reflexivity. Defined.

(* ================================================================== *)
(** ** More about the failure counter *)

(** X21. The five comparisons of a [FailureCounter] look at the counts
    only and agree with one another.  Each of [==], [<], [<=], [>] and
    [>=] gives, against another counter, what it gives against the
    [int] value of that counter, whatever the ceilings of the two
    counters are, and the [int] value is the count.  Against an integer,
    [<] and [==] are those of the integers on the count.  Against any
    operand, [<=] is [<] or [==], [>] is the negation of [<=], [>=] is
    the negation of [<], and exactly one of [<], [==], [>] holds. *)
Theorem FailureCounter_comparisons :
  (forall c m m' c' k : Z,
      let self := mkFailureCounter c m in
      let self' := mkFailureCounter c m' in
      let other := mkFailureCounter c' k in
      FailureCounter_int other = c'
      /\ FailureCounter_eq self (OfCounter other)
         = FailureCounter_eq self' (OfInt c')
      /\ FailureCounter_lt self (OfCounter other)
         = FailureCounter_lt self' (OfInt c')
      /\ FailureCounter_le self (OfCounter other)
         = FailureCounter_le self' (OfInt c')
      /\ FailureCounter_gt self (OfCounter other)
         = FailureCounter_gt self' (OfInt c')
      /\ FailureCounter_ge self (OfCounter other)
         = FailureCounter_ge self' (OfInt c'))
  /\ (forall (self : FailureCounter) (n : Z),
         (FailureCounter_lt self (OfInt n) = true <-> (count self < n)%Z)
         /\ (FailureCounter_eq self (OfInt n) = true <-> count self = n))
  /\ (forall (self : FailureCounter) (o : operand),
         FailureCounter_le self o
         = FailureCounter_lt self o || FailureCounter_eq self o
         /\ FailureCounter_gt self o = negb (FailureCounter_le self o)
         /\ FailureCounter_ge self o = negb (FailureCounter_lt self o)
         /\ (FailureCounter_lt self o = true
             /\ FailureCounter_eq self o = false
             /\ FailureCounter_gt self o = false
             \/ FailureCounter_lt self o = false
                /\ FailureCounter_eq self o = true
                /\ FailureCounter_gt self o = false
             \/ FailureCounter_lt self o = false
                /\ FailureCounter_eq self o = false
                /\ FailureCounter_gt self o = true)).
Proof.
  split; [|split].
  - intros c m m' c' k. cbv zeta. repeat split.
  - intros self n. cbn [FailureCounter_lt FailureCounter_eq].
    split; [apply Z.ltb_lt|apply Z.eqb_eq].
  - intros self o.
    assert (H : forall a b : Z,
               (a <=? b)%Z = (a <? b)%Z || (a =? b)%Z
               /\ (a >? b)%Z = negb (a <=? b)%Z
               /\ (a >=? b)%Z = negb (a <? b)%Z
               /\ ((a <? b)%Z = true /\ (a =? b)%Z = false
                   /\ (a >? b)%Z = false
                   \/ (a <? b)%Z = false /\ (a =? b)%Z = true
                      /\ (a >? b)%Z = false
                   \/ (a <? b)%Z = false /\ (a =? b)%Z = false
                      /\ (a >? b)%Z = true)).
    { intros a b. rewrite Z.gtb_ltb, Z.geb_leb.
      destruct (Z.ltb_spec a b), (Z.eqb_spec a b), (Z.leb_spec a b),
        (Z.ltb_spec b a), (Z.leb_spec b a);
        try lia; repeat split; auto. }
    destruct o as [n|other];
      cbn [FailureCounter_lt FailureCounter_eq FailureCounter_le
           FailureCounter_gt FailureCounter_ge]; apply H.
Qed.

Lemma count_failure_repeat (k : nat) (s : state) :
  let fc := failure_counter s in
  (count fc < maxfail fc)%Z ->
  for_each (repeat tt k) (fun _ => count_failure) s
  = if (Z.of_nat k <? maxfail fc - count fc)%Z
    then (Return tt,
          mkState (world s) (stdout s) (calls s)
                  (mkFailureCounter (count fc + Z.of_nat k) (maxfail fc)))
    else (SysExit 1,
          mkState (world s) (stdout s ++ [MaxfailReached (maxfail fc)])
                  (calls s)
                  (mkFailureCounter (maxfail fc) (maxfail fc))).
Proof.
  cbv zeta. revert s. induction k as [|k IH]; intros s Hlt.
  - cbn [repeat for_each]. unfold ret.
    destruct (Z.ltb_spec (Z.of_nat 0)
                (maxfail (failure_counter s) - count (failure_counter s)));
      [|lia].
    destruct s as [w out cs [c m]]. cbn. now rewrite Z.add_0_r.
  - cbn [repeat]. rewrite for_each_cons, count_failure_outcome.
    destruct (Z.geb_spec (count (failure_counter s) + 1)
                         (maxfail (failure_counter s))) as [Hge|Hlt'].
    + destruct (Z.ltb_spec (Z.of_nat (S k))
                  (maxfail (failure_counter s) - count (failure_counter s)));
        [lia|].
      do 3 f_equal. lia.
    + rewrite IH by (cbn [failure_counter count maxfail]; lia).
      cbn [failure_counter count maxfail world stdout calls].
      destruct (Z.ltb_spec (Z.of_nat k)
                  (maxfail (failure_counter s)
                   - (count (failure_counter s) + 1)));
        destruct (Z.ltb_spec (Z.of_nat (S k))
                    (maxfail (failure_counter s) - count (failure_counter s)));
        try lia; try reflexivity.
      do 3 f_equal. lia.
Qed.

(** X22. The ceiling stops the run at the failure that reaches it.
    Starting below the ceiling, [k] failures counted one after the other
    leave the counter at its old value plus [k] when that stays below
    the ceiling; otherwise the process ends with status 1 at the very
    failure that reaches the ceiling: the counter then equals the
    ceiling and the stop notice is printed once. *)
Theorem count_failure_stops_at_ceiling (k : nat) (s : state) :
  let fc := failure_counter s in
  (count fc < maxfail fc)%Z ->
  ((count fc + Z.of_nat k < maxfail fc)%Z ->
   for_each (repeat tt k) (fun _ => count_failure) s
   = (Return tt,
      mkState (world s) (stdout s) (calls s)
              (mkFailureCounter (count fc + Z.of_nat k) (maxfail fc))))
  /\ ((maxfail fc <= count fc + Z.of_nat k)%Z ->
      for_each (repeat tt k) (fun _ => count_failure) s
      = (SysExit 1,
         mkState (world s) (stdout s ++ [MaxfailReached (maxfail fc)])
                 (calls s)
                 (mkFailureCounter (maxfail fc) (maxfail fc)))).
Proof.
  cbv zeta. intros Hlt.
  pose proof (count_failure_repeat k s Hlt) as H. cbv zeta in H.
  split; intros Hk; rewrite H.
  - destruct (Z.ltb_spec (Z.of_nat k)
                (maxfail (failure_counter s) - count (failure_counter s)));
      [reflexivity|lia].
  - destruct (Z.ltb_spec (Z.of_nat k)
                (maxfail (failure_counter s) - count (failure_counter s)));
      [lia|reflexivity].
Qed.

Lemma count_failure_stops_at_ceiling_witness :
  for_each (repeat tt 5) (fun _ => count_failure)
           (mkState (world_of [] []) [] [] (FailureCounter_init 3))
  = (SysExit 1,
     mkState (world_of [] []) [MaxfailReached 3] [] (mkFailureCounter 3 3)).
Proof.
  apply (proj2 (count_failure_stops_at_ceiling 5
                  (mkState (world_of [] []) [] [] (FailureCounter_init 3))
                  ltac:(reflexivity))).
  discriminate.
Defined.

(* ================================================================== *)
(** ** Invariants of the test loop *)

Lemma extends_refl (s : state) : extends s s.
Proof.
  repeat split; try (exists []; now rewrite app_nil_r); try lia.
Qed.

Lemma extends_trans (s1 s2 s3 : state) :
  extends s1 s2 -> extends s2 s3 -> extends s1 s3.
Proof.
  intros ([o1 H1] & [c1 H2] & H3 & H4) ([o2 G1] & [c2 G2] & G3 & G4).
  repeat split.
  - exists (o1 ++ o2). now rewrite G1, H1, app_assoc.
  - exists (c1 ++ c2). now rewrite G2, H2, app_assoc.
  - lia.
  - congruence.
Qed.

(** A stop that happens after the state was extended. *)
Lemma stopped_after (s s1 s' : state) (c : Z) :
  extends s s1 -> stopped s1 s' c -> stopped s s' c.
Proof.
  intros ([o1 H1] & _ & H3 & _) (Hc & Hlt & Hmax & [o2 Hout]).
  repeat split; try assumption; try lia.
  exists (o1 ++ o2). now rewrite Hout, H1, <- !app_assoc.
Qed.

(** The four conclusions of [tidy] for an outcome that ends the
    statement normally or by an exception. *)
Lemma tidy_quiet {A} (o : outcome A) (s s' : state) :
  extends s s' ->
  o <> Break -> o <> Continue -> (forall c, o <> SysExit c) ->
  extends s s'
  /\ o <> Break
  /\ (o = Continue ->
      (count (failure_counter s) < count (failure_counter s'))%Z)
  /\ (forall c, o = SysExit c -> stopped s s' c).
Proof.
  intros He Hb Hc Hx. repeat split; try apply He; try assumption.
  - intros Ho. now contradiction Hc.
  - now contradiction (Hx c).
  - now contradiction (Hx c).
  - now contradiction (Hx c).
  - now contradiction (Hx c).
Qed.

Ltac quiet := apply tidy_quiet; [|discriminate|discriminate|discriminate].

Lemma tidy_ret {A} (a : A) : tidy (ret a).
Proof. intros s o s' [= <- <-]. quiet. apply extends_refl. Qed.

Lemma tidy_raise {A} (e : exn) : tidy (@raise A e).
Proof. intros s o s' [= <- <-]. quiet. apply extends_refl. Qed.

Lemma tidy_bind {A B} (m : M A) (k : A -> M B) :
  tidy m -> (forall a, tidy (k a)) -> tidy (bind m k).
Proof.
  intros Hm Hk s o s'. unfold bind.
  destruct (m s) as [o1 s1] eqn:E1.
  destruct (Hm s o1 s1 E1) as (He & Hb & Hc & Hx).
  destruct o1 as [a| | |c|e].
  - intros E2. destruct (Hk a s1 o s' E2) as (He2 & Hb2 & Hc2 & Hx2).
    pose proof (extends_trans _ _ _ He He2) as Het.
    split; [assumption|]. split; [assumption|]. split.
    + intros Ho. specialize (Hc2 Ho). destruct He as (_ & _ & ? & _). lia.
    + intros c Ho. apply (stopped_after _ _ _ _ He (Hx2 c Ho)).
  - intros [= <- <-]. repeat split; try apply He; auto; intros; discriminate.
  - now contradiction Hb.
  - intros [= <- <-]. split; [assumption|]. split; [discriminate|].
    split; [discriminate|]. intros c' [= <-]. now apply Hx.
  - intros [= <- <-]. now quiet.
Qed.

Lemma tidy_print (p : printed) : tidy (print p).
Proof.
  intros s o s' [= <- <-]. quiet.
  repeat split; cbn; try lia; [now exists [p]|exists []; now rewrite app_nil_r].
Qed.

Lemma tidy_get_world : tidy get_world.
Proof. intros s o s' [= <- <-]. quiet. apply extends_refl. Qed.

Lemma tidy_modify_world (f : World -> World) : tidy (modify_world f).
Proof.
  intros s o s' [= <- <-]. quiet.
  repeat split; cbn; try lia; exists []; now rewrite app_nil_r.
Qed.

Lemma tidy_run (ext : Externals) (command : list str) (cwd : str) :
  tidy (run ext command cwd).
Proof.
  intros s o s'. unfold run.
  destruct (run_command ext command cwd (world s)) as [[e|r] w];
    intros [= <- <-]; quiet;
    repeat split; cbn; try lia;
      solve [exists []; now rewrite app_nil_r|now exists [(command, cwd)]].
Qed.

(** The state after [failure_counter += 1], whatever the statement that
    follows the increment yields when the ceiling is not reached. *)
Lemma tidy_counted {A} (o : outcome A) (s : state) :
  o <> Break -> (forall c, o <> SysExit c) ->
  let fc := failure_counter s in
  let stop := (count fc + 1 >=? maxfail fc)%Z in
  let s' := mkState (world s)
                    (if stop then stdout s ++ [MaxfailReached (maxfail fc)]
                     else stdout s)
                    (calls s)
                    (mkFailureCounter (count fc + 1) (maxfail fc)) in
  let o' := if stop then SysExit 1 else o in
  extends s s'
  /\ o' <> Break
  /\ (o' = Continue ->
      (count (failure_counter s) < count (failure_counter s'))%Z)
  /\ (forall c, o' = SysExit c -> stopped s s' c).
Proof.
  intros Hb Hx. cbv zeta.
  destruct (Z.geb_spec (count (failure_counter s) + 1)
                       (maxfail (failure_counter s))) as [Hge|Hlt].
  - split; [|split; [discriminate|split; [discriminate|]]].
    + repeat split; cbn; try lia;
        [now eexists|exists []; now rewrite app_nil_r].
    + intros c [= <-]. repeat split; cbn; try lia. now exists [].
  - split; [|split; [assumption|split]].
    + repeat split; cbn; try lia; exists []; now rewrite app_nil_r.
    + intros _. cbn. lia.
    + intros c Ho. now contradiction (Hx c).
Qed.

Lemma tidy_count_failure : tidy count_failure.
Proof.
  intros s o s'. rewrite count_failure_outcome.
  pose proof (tidy_counted (Return tt) s ltac:(discriminate)
                           ltac:(discriminate)) as H.
  cbv zeta in H.
  destruct (count (failure_counter s) + 1 >=? maxfail (failure_counter s))%Z;
    intros [= <- <-]; exact H.
Qed.

(** [failure_counter += 1; continue]: the way a failed test is left. *)
Lemma tidy_fail {A} : tidy (count_failure ;; @continue_ A).
Proof.
  intros s o s'. unfold bind. rewrite count_failure_outcome.
  pose proof (tidy_counted (@Continue A) s ltac:(discriminate)
                           ltac:(discriminate)) as H.
  cbv zeta in H.
  destruct (count (failure_counter s) + 1 >=? maxfail (failure_counter s))%Z;
    intros [= <- <-]; exact H.
Qed.

Lemma tidy_for_each {X} (xs : list X) (body : X -> M unit) :
  (forall x, tidy (body x)) -> tidy (for_each xs body).
Proof.
  intros Hb. induction xs as [|x xs IH]; [apply tidy_ret|].
  intros s o s'. rewrite for_each_cons.
  destruct (body x s) as [o1 s1] eqn:E1.
  destruct (Hb x s o1 s1 E1) as (He & Hnb & Hc & Hx).
  assert (Hnext : for_each xs body s1 = (o, s') ->
                  extends s s' /\ o <> Break
                  /\ (o = Continue ->
                      (count (failure_counter s)
                       < count (failure_counter s'))%Z)
                  /\ (forall c, o = SysExit c -> stopped s s' c)).
  { intros E2. destruct (IH s1 o s' E2) as (He2 & Hb2 & Hc2 & Hx2).
    pose proof (extends_trans _ _ _ He He2) as Het.
    split; [assumption|]. split; [assumption|]. split.
    - intros Ho. specialize (Hc2 Ho). destruct He as (_ & _ & ? & _). lia.
    - intros c Ho. apply (stopped_after _ _ _ _ He (Hx2 c Ho)). }
  destruct o1 as [a| | |c|e]; try exact Hnext.
  - now contradiction Hnb.
  - intros [= <- <-]. split; [assumption|]. split; [discriminate|].
    split; [discriminate|]. intros c' [= <-]. now apply Hx.
  - intros [= <- <-]. now quiet.
Qed.

Lemma tidy_for_fold {X Acc} (xs : list X) (body : Acc -> X -> M Acc) :
  (forall acc x, tidy (body acc x)) -> forall acc, tidy (for_fold xs body acc).
Proof.
  intros Hb. induction xs as [|x xs IH]; intros acc; [apply tidy_ret|].
  cbn [for_fold]. apply tidy_bind; auto.
Qed.

Lemma tidy_with_tempfile {A} (ext : Externals) (content : str)
      (body : str -> M A) :
  (forall name, tidy (body name)) -> tidy (with_tempfile ext content body).
Proof.
  intros Hb s o s'. unfold with_tempfile.
  destruct ((modify_world (fs_write (tmpf_name ext) content) ;;
             body (tmpf_name ext)) s) as [o1 s1] eqn:E.
  intros [= <- <-].
  assert (Ht : tidy (modify_world (fs_write (tmpf_name ext) content) ;;
                     body (tmpf_name ext))).
  { apply tidy_bind; [apply tidy_modify_world|intros; apply Hb]. }
  destruct (Ht s o1 s1 E) as (He & Hnb & Hc & Hx).
  split; [exact He|]. split; [assumption|]. split; [exact Hc|exact Hx].
Qed.

Ltac tidy_step :=
  match goal with
  | |- tidy (bind count_failure (fun _ => continue_)) => apply tidy_fail
  | |- tidy (bind _ _) => apply tidy_bind; [|intros]
  | |- tidy (ret _) => apply tidy_ret
  | |- tidy (raise _) => apply tidy_raise
  | |- tidy (print _) => apply tidy_print
  | |- tidy get_world => apply tidy_get_world
  | |- tidy (modify_world _) => apply tidy_modify_world
  | |- tidy (run _ _ _) => apply tidy_run
  | |- tidy count_failure => apply tidy_count_failure
  | |- tidy (with_tempfile _ _ _) => apply tidy_with_tempfile; intros
  | |- tidy (for_each _ _) => apply tidy_for_each; intros
  | |- tidy (for_fold _ _ _) => apply tidy_for_fold; intros
  | |- tidy (if ?b then _ else _) => destruct b
  | |- tidy (match ?x with _ => _ end) => destruct x
  | |- tidy (let (_, _) := ?x in _) => destruct x
  end.

Ltac tidy_auto := repeat tidy_step.

Lemma tidy_path_exists (p : str) : tidy (path_exists p).
Proof. unfold path_exists. tidy_auto. Qed.

Lemma tidy_path_isdir (p : str) : tidy (path_isdir p).
Proof. unfold path_isdir. tidy_auto. Qed.

Lemma tidy_listdir (p : str) : tidy (listdir p).
Proof. unfold listdir. tidy_auto. Qed.

Lemma tidy_open_read (p : str) : tidy (open_read p).
Proof. unfold open_read. tidy_auto. Qed.

Lemma tidy_copy (src dst : str) : tidy (copy src dst).
Proof. unfold copy. tidy_auto. Qed.

Lemma tidy_makedirs (p : str) : tidy (makedirs p).
Proof. unfold makedirs. tidy_auto. Qed.

Ltac tidy_io :=
  repeat first
    [ apply tidy_path_exists | apply tidy_path_isdir | apply tidy_listdir
    | apply tidy_open_read | apply tidy_copy | apply tidy_makedirs
    | tidy_step ].

Lemma tidy_read_requires (test_dir base : str) :
  tidy (read_requires test_dir base).
Proof. unfold read_requires. tidy_io. Qed.

Lemma tidy_clean_up (ext : Externals) (test_dir tex_file : str)
      (requires : list (str * str)) :
  tidy (clean_up ext test_dir tex_file requires).
Proof. unfold clean_up. tidy_io. Qed.

Lemma tidy_compile_requires (ext : Externals) (requires : list (str * str)) :
  tidy (compile_requires ext requires).
Proof. unfold compile_requires. tidy_io. Qed.

Lemma tidy_verify_failure_log (ext : Externals) (test_dir base : str)
      (ret_code : Z) (out err : str) :
  tidy (verify_failure_log ext test_dir base ret_code out err).
Proof. unfold verify_failure_log. tidy_io. Qed.

Lemma tidy_verify_text (ext : Externals) (regold : bool) (test_dir base : str)
      (ret_code : Z) (out err : str) :
  tidy (verify_text ext regold test_dir base ret_code out err).
Proof. unfold verify_text. tidy_io. Qed.

Lemma tidy_load_normalized (ext : Externals) (p : str) :
  tidy (load_normalized ext p).
Proof. unfold load_normalized. tidy_io. Qed.

Lemma tidy_compare_notebooks (ext : Externals) (regold : bool)
      (test_dir ipynb_dir : str) (pairs : list (str * str)) :
  tidy (compare_notebooks ext regold test_dir ipynb_dir pairs).
Proof.
  unfold compare_notebooks.
  repeat first [apply tidy_load_normalized | tidy_io].
Qed.

Lemma tidy_any_has_code_cells (ext : Externals) (test_dir ipynb_dir : str)
      (generated : list str) :
  tidy (any_has_code_cells ext test_dir ipynb_dir generated).
Proof.
  induction generated as [|g rest IH]; cbn [any_has_code_cells];
    [apply tidy_ret|].
  apply tidy_bind; [apply tidy_open_read|intros content].
  destruct (json_loads ext content) as [nb|]; [|apply tidy_raise].
  destruct (notebook_has_code_cells nb) as [[|]|];
    [apply tidy_ret|exact IH|apply tidy_raise].
Qed.

Lemma tidy_verify_records (ext : Externals) (regold : bool)
      (test_dir base : str) :
  tidy (verify_records ext regold test_dir base).
Proof.
  unfold verify_records.
  repeat first [apply tidy_compare_notebooks | apply tidy_any_has_code_cells
               | tidy_io].
Qed.

Lemma tidy_run_latex_test (ext : Externals) (regold : bool) (tex_file : str) :
  tidy (run_latex_test ext regold tex_file).
Proof.
  unfold run_latex_test.
  repeat first [apply tidy_read_requires | apply tidy_clean_up
               | apply tidy_compile_requires | apply tidy_verify_failure_log
               | apply tidy_verify_text | apply tidy_verify_records
               | tidy_io].
Qed.

(** A loop does not hand a [continue] or a [break] to its caller. *)
Lemma for_each_outcome {X} (xs : list X) (body : X -> M unit) (s : state) :
  fst (for_each xs body s) <> Continue /\ fst (for_each xs body s) <> Break.
Proof.
  revert s. induction xs as [|x xs IH]; intros s;
    [split; discriminate|].
  rewrite for_each_cons.
  destruct (body x s) as [[a| | |c|e] s1]; try apply IH;
    split; discriminate.
Qed.

(** X23. One test of [run_latex_tests], from any state and whatever the
    tools do: what was printed and the commands that were run are kept
    and only appended to, the ceiling of the counter is not changed and
    its count does not decrease; the body never ends by [break]; it ends
    by [continue] only after a failure was counted; and it ends the
    process only with status 1, after a failure was counted that made
    the count reach the ceiling, the last line printed being the one
    that reports the ceiling. *)
Theorem run_latex_test_invariants
        (ext : Externals) (regold : bool) (tex_file : str) (s : state) :
  let r := run_latex_test ext regold tex_file s in
  let before := failure_counter s in
  let after := failure_counter (snd r) in
  (exists out, stdout (snd r) = stdout s ++ out)
  /\ (exists cs, calls (snd r) = calls s ++ cs)
  /\ maxfail after = maxfail before
  /\ (count before <= count after)%Z
  /\ fst r <> Break
  /\ (fst r = Continue -> (count before < count after)%Z)
  /\ (forall c, fst r = SysExit c ->
        c = 1%Z
        /\ (count before < count after)%Z
        /\ (maxfail after <= count after)%Z
        /\ exists out,
             stdout (snd r)
             = stdout s ++ out ++ [MaxfailReached (maxfail after)]).
Proof.
  cbv zeta.
  destruct (run_latex_test ext regold tex_file s) as [o s'] eqn:E.
  destruct (tidy_run_latex_test ext regold tex_file s o s' E)
    as ((Hout & Hcalls & Hle & Hmax) & Hb & Hc & Hx).
  cbn [fst snd]. repeat split; try assumption; apply (Hx c H).
Qed.

(** The shape of a whole run: the counter is created, the tests are
    run, and the summary is printed when the loop ends normally. *)
Lemma run_latex_tests_unfold
      (ext : Externals) (tex_tests : list str) (maxfail_arg : Z)
      (regold : bool) (s : state) :
  run_latex_tests ext tex_tests maxfail_arg regold s
  = match for_each tex_tests (run_latex_test ext regold)
                   (mkState (world s) (stdout s) (calls s)
                            (FailureCounter_init maxfail_arg)) with
    | (Return _, s1) =>
        let failures := count (failure_counter s1) in
        if (failures >? 0)%Z
        then (SysExit 1,
              mkState (world s1) (stdout s1 ++ [Summary FAIL (Some failures)])
                      (calls s1) (failure_counter s1))
        else (Return tt,
              mkState (world s1) (stdout s1 ++ [Summary PASS None])
                      (calls s1) (failure_counter s1))
    | (Continue, s1) => (Continue, s1)
    | (Break, s1) => (Break, s1)
    | (SysExit c, s1) => (SysExit c, s1)
    | (Raised e, s1) => (Raised e, s1)
    end.
Proof.
  unfold run_latex_tests, bind, set_counter.
  destruct (for_each tex_tests (run_latex_test ext regold) _)
    as [[a| | |c|e] s1]; reflexivity.
Qed.

(** How a whole run ends. *)
Lemma run_latex_tests_outcome
        (ext : Externals) (tex_tests : list str) (maxfail_arg : Z)
        (regold : bool) (s : state) :
  let r := run_latex_tests ext tex_tests maxfail_arg regold s in
  let failures := count (failure_counter (snd r)) in
  maxfail (failure_counter (snd r)) = maxfail_arg
  /\ match fst r with
     | Return _ =>
         failures = 0%Z
         /\ exists out, stdout (snd r) = stdout s ++ out ++ [Summary PASS None]
     | SysExit c =>
         c = 1%Z
         /\ (0 < failures)%Z
         /\ exists out,
              stdout (snd r) = stdout s ++ out ++ [Summary FAIL (Some failures)]
              \/ stdout (snd r) = stdout s ++ out ++ [MaxfailReached maxfail_arg]
     | Raised _ => exists out, stdout (snd r) = stdout s ++ out
     | Continue | Break => False
     end.
Proof.
  cbv zeta. rewrite run_latex_tests_unfold.
  set (s0 := mkState (world s) (stdout s) (calls s)
                     (FailureCounter_init maxfail_arg)).
  pose proof (for_each_outcome tex_tests (run_latex_test ext regold) s0)
    as [HnC HnB].
  destruct (for_each tex_tests (run_latex_test ext regold) s0) as [o s1] eqn:E.
  assert (Ht : tidy (for_each tex_tests (run_latex_test ext regold))).
  { apply tidy_for_each. intros x. apply tidy_run_latex_test. }
  destruct (Ht s0 o s1 E) as (([out Hout] & _ & Hle & Hmax) & _ & _ & Hx).
  cbn [fst] in HnC, HnB.
  assert (Hm0 : maxfail (failure_counter s0) = maxfail_arg) by reflexivity.
  assert (Hc0 : count (failure_counter s0) = 0%Z) by reflexivity.
  assert (Ho0 : stdout s0 = stdout s) by reflexivity.
  rewrite Hm0 in Hmax. rewrite Hc0 in Hle. rewrite Ho0 in Hout.
  destruct o as [[]| | |c|e]; cbn [fst snd].
  - cbv zeta.
    destruct (Z.gtb_spec (count (failure_counter s1)) 0) as [Hpos|Hzero];
      cbn [fst snd failure_counter stdout].
    + split; [assumption|]. split; [reflexivity|]. split; [lia|].
      exists out. left. now rewrite Hout, <- app_assoc.
    + split; [assumption|]. split; [lia|].
      exists out. now rewrite Hout, <- app_assoc.
  - now contradiction HnC.
  - now contradiction HnB.
  - pose proof (Hx c eq_refl) as Hs. unfold stopped in Hs.
    destruct Hs as (Hc & Hlt & _ & [out' Hout']).
    split; [assumption|]. split; [assumption|]. split; [lia|].
    exists out'. right. now rewrite Hout', Hmax.
  - split; [assumption|]. now exists out.
Qed.

(** X24. A whole run, from any state and whatever the tools do, never
    ends by [continue] or [break].  When it returns, no failure was
    counted and the last line printed is the PASS summary.  When it ends
    the process, the status is 1, at least one failure was counted, and
    the last line printed is either the FAIL summary with the number of
    failures or the report that the ceiling [maxfail] was reached.  In
    every case the ceiling of the counter is [maxfail] and the earlier
    output is kept. *)
Theorem run_latex_tests_exit
        (ext : Externals) (tex_tests : list str) (maxfail_arg : Z)
        (regold : bool) (s : state) :
  let r := run_latex_tests ext tex_tests maxfail_arg regold s in
  let failures := count (failure_counter (snd r)) in
  maxfail (failure_counter (snd r)) = maxfail_arg
  /\ match fst r with
     | Return _ =>
         failures = 0%Z
         /\ exists out, stdout (snd r) = stdout s ++ out ++ [Summary PASS None]
     | SysExit c =>
         c = 1%Z
         /\ (0 < failures)%Z
         /\ exists out,
              stdout (snd r) = stdout s ++ out ++ [Summary FAIL (Some failures)]
              \/ stdout (snd r) = stdout s ++ out ++ [MaxfailReached maxfail_arg]
     | Raised _ => exists out, stdout (snd r) = stdout s ++ out
     | Continue | Break => False
     end.
Proof. exact (run_latex_tests_outcome ext tex_tests maxfail_arg regold s). Qed.

(* ================================================================== *)
(** ** The verdicts of one test *)

(** A statement that ends by [failure_counter += 1; continue] does not
    return. *)
Lemma bind_no_return {A B} (m : M A) (k : A -> M B) (s : state) :
  (forall a s1 b, fst (k a s1) <> Return b) ->
  forall b, fst (bind m k s) <> Return b.
Proof.
  intros Hk b. unfold bind.
  destruct (m s) as [[a| | |c|e] s1]; try discriminate. apply Hk.
Qed.

Lemma fail_no_return {A} (s : state) (a : A) :
  fst ((count_failure ;; continue_) s) <> Return a.
Proof.
  unfold bind. rewrite count_failure_outcome. cbv zeta.
  destruct (_ >=? _)%Z; discriminate.
Qed.

Lemma with_tempfile_no_return {A} (ext : Externals) (content : str)
      (body : str -> M A) (s : state) :
  (forall name s1 a, fst (body name s1) <> Return a) ->
  forall a, fst (with_tempfile ext content body s) <> Return a.
Proof.
  intros Hb a. unfold with_tempfile.
  pose proof (Hb (tmpf_name ext)
                 (mkState (fs_write (tmpf_name ext) content (world s))
                          (stdout s) (calls s) (failure_counter s)) a) as H.
  unfold bind at 1. unfold modify_world at 1.
  destruct (body (tmpf_name ext) _) as [o s1]. exact H.
Qed.

(** X25. The branch of an expected-failure test returns to the rest of
    the test exactly when the compile failed, the file of expected
    error lines can be read and its non-blank lines, stripped, are found
    by the matcher in the merged lines of the compiler's output; it then
    has printed XFAIL and changed nothing else: no failure is counted,
    no command is run, no file is written.  When the compile succeeded,
    the verdict is FAIL, one failure is counted and the test is left
    (or the run is ended at the ceiling). *)
Theorem verify_failure_log_xfail
        (ext : Externals) (test_dir base : str) (ret_code : Z)
        (out err : str) (s : state) :
  let expected :=
    path_join test_dir (path_join (u "expected") (base ++ u ".err.txt")) in
  let actual_lines :=
    merge_lines_with_continuation (splitlines out ++ splitlines err) in
  let found content :=
    check_ordered_subsequence_with_missing
      (map strip (filter (fun line => truthy (strip line))
                         (readlines (universal_newlines content))))
      actual_lines in
  let fc := failure_counter s in
  let stop := (count fc + 1 >=? maxfail fc)%Z in
  let r := verify_failure_log ext test_dir base ret_code out err s in
  (fst r = Return tt <->
   ret_code <> 0%Z
   /\ exists content,
        files (world s) expected = Some content
        /\ found content = Some true)
  /\ (fst r = Return tt ->
      snd r = mkState (world s) (stdout s ++ [Verdict XFAIL None])
                      (calls s) fc)
  /\ (ret_code = 0%Z ->
      r = (if stop then SysExit 1 else Continue,
           mkState (world s)
                   (stdout s
                    ++ [Verdict FAIL (Some ExpectedFailureSucceeded)]
                    ++ (if stop then [MaxfailReached (maxfail fc)] else []))
                   (calls s)
                   (mkFailureCounter (count fc + 1) (maxfail fc)))).
Proof.
  cbv zeta.
  remember (verify_failure_log ext test_dir base ret_code out err s) as r
    eqn:Er.
  unfold verify_failure_log in Er.
  destruct (Z.eqb_spec ret_code 0) as [->|Hret].
  - (* the compile succeeded *)
    unfold bind at 1 in Er. unfold bind at 1 in Er. unfold print at 1 in Er.
    rewrite fail_outcome in Er. cbv zeta in Er.
    cbn [world stdout calls failure_counter] in Er.
    destruct (_ >=? _)%Z; subst r; cbn [fst snd].
    + split; [split; [discriminate|intros [H _]; now contradiction H]|].
      split; [discriminate|]. intros _. now rewrite <- app_assoc.
    + split; [split; [discriminate|intros [H _]; now contradiction H]|].
      split; [discriminate|]. intros _. now rewrite app_nil_r.
  - unfold bind at 1 in Er. unfold ret at 1 in Er.
    unfold bind at 1 in Er. unfold path_exists at 1 in Er.
    unfold bind at 1 in Er.
    unfold get_world at 1 in Er. unfold ret at 1 in Er.
    destruct (fs_exists (world s) _) eqn:Eex.
    + unfold bind at 1 in Er. unfold open_read at 1 in Er.
      unfold bind at 1 in Er. unfold get_world at 1 in Er.
      destruct (files (world s) _) as [content|] eqn:Ef.
      * unfold ret at 1 in Er.
        destruct (check_ordered_subsequence_with_missing _ _)
          as [[|]|] eqn:Ec.
        -- subst r. cbn [fst snd print].
           split; [|split; [reflexivity|intros H; now contradiction Hret]].
           split; [intros _|reflexivity].
           split; [assumption|]. exists content. now split.
        -- assert (Hr : fst r <> Return tt).
           { subst r. apply with_tempfile_no_return. intros name s1 a.
             apply bind_no_return. intros _ s2 b.
             apply bind_no_return. intros [[? ?] ?] s3 b1.
             apply bind_no_return. intros _ s4 b2.
             apply bind_no_return. intros _ s5 b3.
             apply fail_no_return. }
           split; [|split; [intros H; now contradiction Hr
                           |intros H; now contradiction Hret]].
           split; [intros H; now contradiction Hr|].
           intros (_ & c' & [= <-] & Hc). congruence.
        -- subst r. cbn [fst snd raise].
           split; [|split; [discriminate|intros H; now contradiction Hret]].
           split; [discriminate|].
           intros (_ & c' & [= <-] & Hc). congruence.
      * subst r. cbn [fst snd raise].
        split; [|split; [discriminate|intros H; now contradiction Hret]].
        split; [discriminate|]. intros (_ & c' & Hc & _). discriminate.
    + assert (Hr : fst r <> Return tt).
      { subst r.
        apply bind_no_return. intros _ s2 b.
        apply bind_no_return. intros _ s3 b1.
        apply fail_no_return. }
      split; [|split; [intros H; now contradiction Hr
                      |intros H; now contradiction Hret]].
      split; [intros H; now contradiction Hr|].
      intros (_ & c' & Hc & _). unfold fs_exists, fs_isfile in Eex.
      rewrite Hc in Eex. discriminate.
Qed.

Lemma bind_no_return_left {A B} (m : M A) (k : A -> M B) (s : state) :
  (forall a, fst (m s) <> Return a) ->
  forall b, fst (bind m k s) <> Return b.
Proof.
  intros Hm b. unfold bind.
  destruct (m s) as [[a| | |c|e] s1]; try discriminate.
  now contradiction (Hm a).
Qed.

Ltac no_return :=
  repeat match goal with
         | |- fst ((count_failure ;; continue_) _) <> Return _ =>
             apply fail_no_return
         | |- fst (bind _ _ _) <> Return _ => apply bind_no_return; intros
         | |- fst ((let (_, _) := ?x in _) _) <> Return _ => destruct x
         end.

Lemma list_str_eqb_eq (a b : list str) : list_str_eqb a b = true <-> a = b.
Proof.
  revert b. induction a as [|x a IH]; intros [|y b]; cbn [list_str_eqb];
    split; try congruence; try reflexivity.
  - intros H. apply andb_true_iff in H as [Hx Ha].
    apply str_eqb_eq in Hx. apply IH in Ha. congruence.
  - intros [= -> ->]. rewrite str_eqb_refl. now apply IH.
Qed.

(** Writing a file makes it readable with the content written. *)
Lemma files_fs_write_same (p content : str) (w : World) :
  files (fs_write p content w) p = Some content.
Proof.
  unfold fs_write, add_entry. cbn [dirs files].
  match goal with
  | |- context [match ?x with Some _ => _ | None => _ end] => destruct x
  end.
  - match goal with
    | |- context [if ?b then _ else _] => destruct b
    end; cbn [files]; unfold upd; now rewrite str_eqb_refl.
  - cbn [files]. unfold upd. now rewrite str_eqb_refl.
Qed.

(** X26. A normal test passes the text check, that is the check returns
    to the comparison of the notebooks, exactly when the compile
    succeeded, the PDF exists, the conversion succeeded, the converted
    text has no marker of unprocessed PythonTeX code, the expected text
    is recorded, and both texts have the same normal form after
    stripping.  The check has then printed nothing, counted nothing and
    run the conversion only. *)
Theorem verify_text_passes
        (ext : Externals) (regold : bool) (test_dir base : str)
        (ret_code : Z) (out err : str) (s : state) :
  let pdf_file := base ++ u ".pdf" in
  let out_txt := base ++ u ".pdf.txt" in
  let expected := path_join test_dir (path_join (u "expected") out_txt) in
  let conversion := PDFTOTEXT_CMD ++ [pdf_file; out_txt] in
  let r := verify_text ext regold test_dir base ret_code out err s in
  (fst r = Return tt <->
   exists o e w1 text exp,
     ret_code = 0%Z
     /\ fs_exists (world s) (path_join test_dir pdf_file) = true
     /\ run_command ext conversion test_dir (world s)
        = (inr (0%Z, o, e), w1)
     /\ files w1 (path_join test_dir out_txt) = Some text
     /\ contains (universal_newlines text) (u "?? PythonTeX ??") = false
     /\ files w1 expected = Some exp
     /\ normalize_text (strip (universal_newlines text))
        = normalize_text (strip (universal_newlines exp)))
  /\ (fst r = Return tt ->
      snd r = mkState (snd (run_command ext conversion test_dir (world s)))
                      (stdout s)
                      (calls s ++ [(conversion, test_dir)])
                      (failure_counter s)).
Proof.
  cbv zeta.
  remember (verify_text ext regold test_dir base ret_code out err s) as r
    eqn:Er.
  unfold verify_text in Er.
  assert (Dead : fst r <> Return tt ->
                 forall (P : Prop) (Q : Prop), (P -> False) ->
                 (fst r = Return tt <-> P) /\ (fst r = Return tt -> Q)).
  { intros Hr P Q HP.
    split; [split|]; intros H;
      solve [now contradiction Hr | now contradiction HP]. }
  destruct (Z.eqb_spec ret_code 0) as [->|Hret]; cbn [negb] in Er.
  2:{ apply Dead.
      - subst r. apply bind_no_return_left. intros a. no_return.
      - intros (o & e & w1 & text & exp & H & _). now contradiction Hret. }
  unfold bind at 1 in Er. unfold ret at 1 in Er.
  unfold bind at 1 in Er. unfold path_exists at 1 in Er.
  unfold bind at 1 in Er. unfold get_world at 1 in Er. unfold ret at 1 in Er.
  destruct (fs_exists (world s) _) eqn:Epdf; cbn [negb] in Er.
  2:{ apply Dead.
      - subst r. apply bind_no_return_left. intros a. no_return.
      - intros (o & e & w1 & text & exp & _ & H & _). discriminate. }
  unfold bind at 1 in Er. unfold ret at 1 in Er.
  unfold bind at 1 in Er. unfold run at 1 in Er.
  destruct (run_command ext _ test_dir (world s))
    as [[ex|[[rc o] e]] w1] eqn:Erun; cbn [snd].
  { apply Dead.
    - subst r. discriminate.
    - intros (o' & e' & w1' & text & exp & _ & _ & H & _). discriminate. }
  destruct (Z.eqb_spec rc 0) as [->|Hrc]; cbn [negb] in Er.
  2:{ apply Dead.
      - subst r. apply bind_no_return_left. intros a. no_return.
      - intros (o' & e' & w1' & text & exp & _ & _ & [= H _ _ _] & _).
        now contradiction Hrc. }
  unfold bind at 1 in Er. unfold ret at 1 in Er.
  unfold bind at 1 in Er. unfold open_read at 1 in Er.
  unfold bind at 1 in Er. unfold get_world at 1 in Er. cbn [world] in Er.
  destruct (files w1 (path_join test_dir (base ++ u ".pdf.txt")))
    as [text|] eqn:Etext.
  2:{ apply Dead.
      - subst r. discriminate.
      - intros (o' & e' & w1' & text & exp & _ & _ & [= _ _ <-] & H & _).
        congruence. }
  unfold ret at 1 in Er.
  destruct (contains (universal_newlines text) _) eqn:Emark.
  { apply Dead.
    - subst r. apply bind_no_return_left. intros a. no_return.
    - intros (o' & e' & w1' & text' & exp & _ & _ & [= _ _ <-] & H & H' & _).
      congruence. }
  unfold bind at 1 in Er. unfold ret at 1 in Er.
  unfold bind at 1 in Er. unfold path_exists at 1 in Er.
  unfold bind at 1 in Er. unfold get_world at 1 in Er. unfold ret at 1 in Er.
  cbn [world] in Er.
  destruct (fs_exists w1 _) eqn:Eexp.
  2:{ apply Dead.
      - subst r. no_return.
      - intros (o' & e' & w1' & text' & exp & _ & _ & [= _ _ <-] & _ & _
                & H & _).
        unfold fs_exists, fs_isfile in Eexp. rewrite H in Eexp. discriminate. }
  unfold bind at 1 in Er. unfold open_read at 1 in Er.
  unfold bind at 1 in Er. unfold get_world at 1 in Er. cbn [world] in Er.
  destruct (files w1 (path_join test_dir (path_join (u "expected") _)))
    as [exp|] eqn:Eexpf.
  2:{ apply Dead.
      - subst r. discriminate.
      - intros (o' & e' & w1' & text' & exp & _ & _ & [= _ _ <-] & _ & _
                & H & _).
        congruence. }
  unfold ret at 1 in Er.
  unfold bind at 1 in Er. unfold open_read at 1 in Er.
  unfold bind at 1 in Er. unfold get_world at 1 in Er. cbn [world] in Er.
  rewrite Etext in Er. unfold ret at 1 in Er.
  destruct (list_str_eqb _ _) eqn:Eeq; cbn [negb] in Er.
  - apply list_str_eqb_eq in Eeq. subst r. cbn [fst snd ret].
    split; [|reflexivity]. split; [intros _|reflexivity].
    exists o, e, w1, text, exp. repeat split; assumption.
  - apply Dead.
    + subst r. no_return.
    + intros (o' & e' & w1' & text' & exp' & _ & _ & [= _ _ <-] & Ht & _
              & He & Hn).
      rewrite Etext in Ht. rewrite Eexpf in He.
      injection Ht as <-. injection He as <-.
      apply list_str_eqb_eq in Hn. congruence.
Qed.

(** X27. A normal test whose converted text and recorded expected text
    have different normal forms, when [diff] leaves the files alone:
    the verdict is FAIL in strict mode, followed by the output of
    [diff], and REGOLDED in regold mode, where instead the converted
    text is copied over the expected file; strict mode leaves the
    expected file as it was.  In both modes one failure is counted and
    the test is left by [continue], or the run is ended when the ceiling
    is reached. *)
Theorem verify_text_output_differs
        (ext : Externals) (regold : bool)
        (test_dir base out err o e text exp d1 d2 : str) (dr : Z)
        (w1 : World) (s : state) :
  let pdf_file := base ++ u ".pdf" in
  let out_txt := base ++ u ".pdf.txt" in
  let expected_txt := path_join (u "expected") out_txt in
  let expected := path_join test_dir expected_txt in
  let diff := DIFF_CMD ext ++ [expected_txt; out_txt]
              ++ [u "-L"; expected; u "-L"; path_join test_dir out_txt] in
  let fc := failure_counter s in
  let stop := (count fc + 1 >=? maxfail fc)%Z in
  fs_exists (world s) (path_join test_dir pdf_file) = true ->
  run_command ext (PDFTOTEXT_CMD ++ [pdf_file; out_txt]) test_dir (world s)
  = (inr (0%Z, o, e), w1) ->
  files w1 (path_join test_dir out_txt) = Some text ->
  contains (universal_newlines text) (u "?? PythonTeX ??") = false ->
  files w1 expected = Some exp ->
  fs_isdir w1 expected = false ->
  normalize_text (strip (universal_newlines text))
  <> normalize_text (strip (universal_newlines exp)) ->
  run_command ext diff test_dir w1 = (inr (dr, d1, d2), w1) ->
  exists s',
    verify_text ext regold test_dir base 0 out err s
    = (if stop then SysExit 1 else Continue, s')
    /\ stdout s'
       = stdout s
         ++ [Verdict (if regold then REGOLDED else FAIL) (Some OutputDiffers)]
         ++ (if regold then [] else [Log (d1 ++ d2)])
         ++ (if stop then [MaxfailReached (maxfail fc)] else [])
    /\ files (world s') expected = Some (if regold then text else exp)
    /\ count (failure_counter s') = (count fc + 1)%Z.
Proof.
  cbv zeta. intros Hpdf Hrun Htext Hmarker Hexp Hdir Hneq Hdiff.
  assert (Hex : fs_exists w1 (path_join test_dir
                  (path_join (u "expected") (base ++ u ".pdf.txt"))) = true).
  { unfold fs_exists, fs_isfile. now rewrite Hexp. }
  assert (Heq : list_str_eqb (normalize_text (strip (universal_newlines text)))
                             (normalize_text (strip (universal_newlines exp)))
                = false).
  { destruct (list_str_eqb _ _) eqn:E; [|reflexivity].
    apply list_str_eqb_eq in E. now contradiction Hneq. }
  unfold verify_text.
  unfold bind at 1. cbn [Z.eqb negb]. unfold ret at 1.
  unfold bind at 1. unfold path_exists at 1. unfold bind at 1.
  unfold get_world at 1. unfold ret at 1. rewrite Hpdf. cbn [negb].
  unfold bind at 1. unfold ret at 1.
  unfold bind at 1. unfold run at 1. rewrite Hrun. cbn [Z.eqb negb].
  unfold bind at 1. unfold ret at 1.
  unfold bind at 1. unfold open_read at 1. unfold bind at 1.
  unfold get_world at 1. cbn [world]. rewrite Htext. unfold ret at 1.
  unfold bind at 1. rewrite Hmarker. unfold ret at 1.
  unfold bind at 1. unfold path_exists at 1. unfold bind at 1.
  unfold get_world at 1. unfold ret at 1. cbn [world]. rewrite Hex.
  unfold bind at 1. unfold open_read at 1. unfold bind at 1.
  unfold get_world at 1. cbn [world]. rewrite Hexp. unfold ret at 1.
  unfold bind at 1. unfold open_read at 1. unfold bind at 1.
  unfold get_world at 1. cbn [world]. rewrite Htext. unfold ret at 1.
  rewrite Heq. cbn [negb].
  unfold bind at 1. unfold run at 1. cbn [world]. rewrite Hdiff.
  unfold bind at 1. unfold print at 1.
  cbn [world stdout calls failure_counter].
  destruct regold; cbn [negb].
  - unfold bind at 1. unfold copy at 1. unfold bind at 1.
    unfold get_world at 1. cbn [world]. rewrite Htext, Hdir.
    unfold modify_world at 1. cbn [world stdout calls failure_counter].
    rewrite fail_outcome. cbv zeta.
    cbn [world stdout calls failure_counter].
    destruct (_ >=? _)%Z; eexists; (split; [reflexivity|]);
      cbn [world stdout calls failure_counter count verdict_of negb];
      rewrite <- ?app_assoc; cbn [app]; rewrite ?app_nil_r;
      repeat split; try reflexivity; apply files_fs_write_same.
  - unfold bind at 1. unfold print at 1.
    cbn [world stdout calls failure_counter].
    rewrite fail_outcome. cbv zeta.
    cbn [world stdout calls failure_counter].
    destruct (_ >=? _)%Z; eexists; (split; [reflexivity|]);
      cbn [world stdout calls failure_counter count verdict_of negb];
      rewrite <- ?app_assoc; cbn [app]; rewrite ?app_nil_r;
      repeat split; try reflexivity; assumption.
Qed.

Lemma verify_text_output_differs_witness :
  exists s',
    verify_text (simulated [] (u "Hello") []) true (u "t") (u "test_b")
                0 [] [] (after_compile_with_expectation (u "Bye"))
    = (Continue, s')
    /\ stdout s' = [Verdict REGOLDED (Some OutputDiffers)]
    /\ files (world s') (u "t/expected/test_b.pdf.txt") = Some (u "Hello")
    /\ count (failure_counter s') = 1%Z.
Proof.
  exact (verify_text_output_differs
           (simulated [] (u "Hello") []) true (u "t") (u "test_b")
           [] [] [] [] (u "Hello") (u "Bye") [] [] 0%Z
           (fs_write (u "t/test_b.pdf.txt") (u "Hello")
                     (world (after_compile_with_expectation (u "Bye"))))
           (after_compile_with_expectation (u "Bye"))
           eq_refl eq_refl eq_refl eq_refl eq_refl eq_refl
           ltac:(vm_compute; discriminate) eq_refl).
Defined.

(* ================================================================== *)
(** ** The exit status of [main] *)

Lemma usage_ret {A} (a : A) : usage (ret a).
Proof. intros s. left. now exists a. Qed.

Lemma usage_bind {A B} (m : M A) (k : A -> M B) :
  usage m -> (forall a, usage (k a)) -> usage (bind m k).
Proof.
  intros Hm Hk s. unfold bind.
  destruct (Hm s) as [[a ->]|[p ->]]; [apply Hk|].
  right. now exists p.
Qed.

Lemma usage_exit {A} (p : printed) : usage (print p ;; @sys_exit A 1).
Proof. intros s. right. now exists p. Qed.

Lemma usage_for_fold {X Acc} (xs : list X) (body : Acc -> X -> M Acc) :
  (forall acc x, usage (body acc x)) ->
  forall acc, usage (for_fold xs body acc).
Proof.
  intros Hb. induction xs as [|x xs IH]; intros acc; [apply usage_ret|].
  cbn [for_fold]. apply usage_bind; auto.
Qed.

Lemma usage_discover (ext : Externals) (pattern : str) :
  usage (discover ext pattern).
Proof. intros s. left. eexists. reflexivity. Qed.

Lemma usage_parse_flags (ext : Externals) (args : list str) :
  usage (parse_flags ext args).
Proof.
  rewrite parse_flags_unfold. apply usage_for_fold.
  intros [[m r] a] arg. unfold parse_flag.
  destruct (startswith arg _);
    [destruct (int_of_str ext _); [apply usage_ret|apply usage_exit]|].
  destruct (str_eqb arg _); apply usage_ret.
Qed.

Lemma usage_determine_tests (ext : Externals) (args : list str) :
  usage (determine_tests ext args).
Proof.
  rewrite determine_tests_unfold.
  destruct (truthy args); [|apply usage_discover].
  apply usage_for_fold. intros acc path. unfold resolve_argument.
  apply usage_bind; [intros s; left; eexists; reflexivity|intros w].
  destruct (fs_isfile w path && endswith path _); [apply usage_ret|].
  destruct (fs_isdir w path); [|apply usage_exit].
  apply usage_bind; [apply usage_discover|intros; apply usage_ret].
Qed.

(** X28. The exit status of the program.  [main] never ends the process
    with a status other than 1.  When it returns, so that the status is
    0, either no test was to be run and the state is as it was, nothing
    being printed, or no failure was counted and the last line printed
    is the PASS summary. *)
Theorem main_exit (ext : Externals) (argv : list str) (s : state) :
  let r := main ext argv s in
  match fst r with
  | Return _ =>
      snd r = s
      \/ (count (failure_counter (snd r)) = 0%Z
          /\ exists out,
               stdout (snd r) = stdout s ++ out ++ [Summary PASS None])
  | SysExit c => c = 1%Z
  | Raised _ => True
  | Continue | Break => False
  end.
Proof.
  cbv zeta. remember (main ext argv s) as r eqn:Er.
  unfold main in Er. unfold bind at 1 in Er.
  destruct (usage_parse_flags ext (tl argv) s)
    as [[[[m regold] args] E]|[p E]]; rewrite E in Er;
    [|now subst r].
  unfold bind at 1 in Er.
  destruct (usage_determine_tests ext args s) as [[tex_tests E']|[p E']];
    rewrite E' in Er; [|now subst r].
  destruct (truthy tex_tests); [|subst r; now left].
  pose proof (run_latex_tests_outcome ext tex_tests m regold s) as H.
  cbv zeta in H. rewrite <- Er in H. destruct H as [_ H].
  destruct (fst r); try exact H; try exact I.
  - right. exact H.
  - apply H.
Qed.

(* ================================================================== *)
(** ** Cleaning up *)

Lemma run_ran_only (ext : Externals) (command : list str) (cwd : str)
      (s : state) :
  exists o s',
    run ext command cwd s = (o, s')
    /\ ran_only ext [(command, cwd)] s o s'.
Proof.
  unfold run.
  destruct (run_command ext command cwd (world s)) as [[e|res] w] eqn:E;
    eexists _, _; (split; [reflexivity|]);
    unfold ran_only; cbn [stdout calls failure_counter];
    (split; [reflexivity|]); (split; [reflexivity|]); split.
  - exists [(command, cwd)], []. now split.
  - exists (command, cwd), (world s). split; [now left|].
    cbn [fst snd]. now rewrite E.
  - exists [(command, cwd)], []. now split.
  - reflexivity.
Qed.

Lemma ran_only_cons {A} (ext : Externals) (cmd : list str * str)
      (commands : list (list str * str)) (s s1 s2 : state)
      (res : Z * str * str) (o : outcome A) :
  ran_only ext [cmd] s (Return res) s1 ->
  ran_only ext commands s1 o s2 ->
  ran_only ext (cmd :: commands) s o s2.
Proof.
  intros (Hout1 & Hfc1 & _ & Hcalls1) (Hout2 & Hfc2 & Hpre & Ho).
  unfold ran_only.
  split; [congruence|]. split; [congruence|]. split.
  - destruct Hpre as (attempted & rest & -> & Hcalls).
    exists (cmd :: attempted), rest. split; [reflexivity|].
    rewrite Hcalls, Hcalls1, <- app_assoc. reflexivity.
  - destruct o as [a| | |c|e]; try exact Ho.
    + rewrite Ho, Hcalls1, <- app_assoc. reflexivity.
    + destruct Ho as (cmd' & w & Hin & He).
      exists cmd', w. split; [now right|assumption].
Qed.

Lemma ran_only_stop {A B} (ext : Externals) (cmd : list str * str)
      (commands : list (list str * str)) (s s1 : state) (e : exn) :
  ran_only ext [cmd] s (@Raised A e) s1 ->
  ran_only ext (cmd :: commands) s (@Raised B e) s1.
Proof.
  intros (Hout1 & Hfc1 & Hpre & Ho). unfold ran_only.
  split; [assumption|]. split; [assumption|]. split.
  - destruct Hpre as (attempted & rest & Heq & Hcalls).
    exists attempted, (rest ++ commands). split; [|assumption].
    change (cmd :: commands) with ([cmd] ++ commands).
    now rewrite Heq, app_assoc.
  - destruct Ho as (cmd' & w & [<-|[]] & He).
    exists cmd, w. split; [now left|assumption].
Qed.

Lemma clean_requires_ran_only (ext : Externals) (requires : list (str * str))
      (s : state) :
  exists o s',
    for_each requires
      (fun require =>
         run ext (CLEAN_CMD ++ [snd require]) (fst require) ;; ret tt) s
    = (o, s')
    /\ ran_only ext
         (map (fun require => (CLEAN_CMD ++ [snd require], fst require))
              requires)
         s o s'.
Proof.
  revert s. induction requires as [|require requires IH]; intros s.
  - exists (Return tt), s. split; [reflexivity|].
    unfold ran_only. cbn [map]. rewrite app_nil_r.
    repeat split. exists [], []. split; [reflexivity|now rewrite app_nil_r].
  - rewrite for_each_cons. unfold bind at 1.
    destruct (run_ran_only ext (CLEAN_CMD ++ [snd require]) (fst require) s)
      as (o1 & s1 & -> & H1).
    destruct o1 as [res| | |c|e];
      try (exfalso; unfold ran_only in H1; tauto).
    + unfold ret at 1. cbv beta iota.
      destruct (IH s1) as (o & s2 & -> & H2).
      exists o, s2. split; [reflexivity|].
      cbn [map]. eapply ran_only_cons; eassumption.
    + exists (Raised e), s1. split; [reflexivity|].
      cbn [map]. now apply (ran_only_stop (A := Z * str * str)).
Qed.

(** X29. Cleaning up does not depend on the status of the cleaning
    commands: whatever they return, [clean_up] prints nothing and leaves
    the failure counter alone, and it never ends by [continue], [break]
    or [sys.exit].  When it returns it has run the cleaning command once
    for the test and once for every requirement, in the order of the
    [.requires] file.  It ends otherwise only with the exception of one
    of these commands, which could not be run, and the commands then
    attempted are the first ones of that list. *)
Theorem clean_up_silent
        (ext : Externals) (test_dir tex_file : str)
        (requires : list (str * str)) (s : state) :
  let r := clean_up ext test_dir tex_file requires s in
  let commands :=
    (CLEAN_CMD ++ [tex_file], test_dir)
    :: map (fun require => (CLEAN_CMD ++ [snd require], fst require))
           requires in
  stdout (snd r) = stdout s
  /\ failure_counter (snd r) = failure_counter s
  /\ (exists attempted rest,
         commands = attempted ++ rest
         /\ calls (snd r) = calls s ++ attempted)
  /\ match fst r with
     | Return _ => calls (snd r) = calls s ++ commands
     | Raised e =>
         exists cmd w,
           In cmd commands
           /\ fst (run_command ext (fst cmd) (snd cmd) w) = inl e
     | Continue | Break | SysExit _ => False
     end.
Proof.
  cbv zeta.
  assert (H : exists o s',
             clean_up ext test_dir tex_file requires s = (o, s')
             /\ ran_only ext
                  ((CLEAN_CMD ++ [tex_file], test_dir)
                   :: map (fun require =>
                             (CLEAN_CMD ++ [snd require], fst require))
                          requires)
                  s o s').
  { unfold clean_up. unfold bind at 1.
    destruct (run_ran_only ext (CLEAN_CMD ++ [tex_file]) test_dir s)
      as (o1 & s1 & -> & H1).
    destruct o1 as [res| | |c|e];
      try (exfalso; unfold ran_only in H1; tauto).
    - destruct (clean_requires_ran_only ext requires s1) as (o & s2 & -> & H2).
      exists o, s2. split; [reflexivity|].
      eapply ran_only_cons; eassumption.
    - exists (Raised e), s1. split; [reflexivity|].
      now apply (ran_only_stop (A := Z * str * str)). }
  destruct H as (o & s' & -> & H). exact H.
Qed.
